(** * Route: active-leg tracking and distance reporting

    A shallow embedding of [src/route/route.cpp] (class [Route], a
    [QList<RouteLeg>] with navigation state) together with the properties
    of its leg sequence, its nearest-leg locator, its active-leg tracker,
    its distance reporter, its procedure splicer and its flight plan
    queries.

    Conventions of the embedding:
    - C++ [int] is [Z].  Two additions of [int]s can overflow on states
      the code can reach: the end of the departure block in [canEditLeg]
      when the offset is the sentinel, and [nextNum + 1] in
      [getNextUserWaypointNumber].  They are written with [int_add], the
      two's-complement wrap-around of the compiled code.  No other
      operation of the modelled functions overflows on values a [QList]
      can hold.
    - C++ [float] is IEEE 754 binary32, written with the Standard Library's
      [spec_float] at precision 24 and maximal exponent 128.
    - [QList::at], [first] and [operator[]] abort on an index out of range:
      every function that indexes returns [option], [None] being that abort.
    - Functions of the atools library and of classes whose code is not part
      of [route.cpp] are fields of the classes [Collaborators] and
      [MoreCollaborators]. *)

From Stdlib Require Import String.
From Stdlib Require Import ZArith List Bool Lia.
From Stdlib Require Import SpecFloat.
Import ListNotations.
Local Open Scope Z_scope.

(** ** C++ [int] *)

Definition INT_MIN : Z := -2147483648.
Definition INT_MAX : Z := 2147483647.

(** The [int] that holds the result [z] of an [int] operation: [z] itself
    when it is an [int], and its two's-complement wrap-around otherwise. *)
Definition wrap_int (z : Z) : Z := (z - INT_MIN) mod 4294967296 + INT_MIN.

(** [a + b] on [int]s. *)
Definition int_add (a b : Z) : Z := wrap_int (a + b).

(** ** IEEE 754 binary32 *)

Definition float := spec_float.

Definition prec32 : Z := 24.
Definition emax32 : Z := 128.

Definition fadd (x y : float) : float := SFadd prec32 emax32 x y.
Definition fsub (x y : float) : float := SFsub prec32 emax32 x y.
Definition fmul (x y : float) : float := SFmul prec32 emax32 x y.
Definition fdiv (x y : float) : float := SFdiv prec32 emax32 x y.
Definition fsqrt (x : float) : float := SFsqrt prec32 emax32 x.
Definition fabs (x : float) : float := SFabs x.
Definition fneg (x : float) : float := SFopp x.
(** [x < y] and [x > y] on floats; both are false when an operand is NaN. *)
Definition fltb (x y : float) : bool := SFltb x y.
Definition fgtb (x y : float) : bool := fltb y x.
(** [std::max(a, b)] is [(a < b) ? b : a]. *)
Definition fmax (a b : float) : float := if fltb a b then b else a.

(** The float nearest to an integer, for literals such as [25.f]. *)
Definition f32_of_Z (z : Z) : float := binary_normalize prec32 emax32 z 0 false.

Definition fzero : float := S754_zero false.
Definition f0_5 : float := Eval vm_compute in fdiv (f32_of_Z 1) (f32_of_Z 2).
Definition f0_75 : float := Eval vm_compute in fdiv (f32_of_Z 3) (f32_of_Z 4).
Definition f10 : float := Eval vm_compute in f32_of_Z 10.
Definition f25 : float := Eval vm_compute in f32_of_Z 25.
Definition f45 : float := Eval vm_compute in f32_of_Z 45.
Definition f90 : float := Eval vm_compute in f32_of_Z 90.
Definition f100 : float := Eval vm_compute in f32_of_Z 100.
Definition f180 : float := Eval vm_compute in f32_of_Z 180.
Definition f360 : float := Eval vm_compute in f32_of_Z 360.
(** [std::numeric_limits<float>::max()]. *)
Definition FLT_MAX : float := Eval vm_compute in SFmax_float prec32 emax32.

Definition is_finite (x : float) : bool :=
  match x with
  | S754_zero _ | S754_finite _ _ _ => true
  | _ => false
  end.

(** ** Failure and loops *)

(** [None] is the abort of an out-of-range [at]. *)
Notation "x <- c ;; k" := (match c with Some x => k | None => None end)
  (at level 61, c at next level, right associativity).
Notation "' p <- c ;; k" := (match c with Some p => k | None => None end)
  (at level 61, p pattern, c at next level, right associativity).

(** [for (int i = from; i < to; i++) body]: [body i s] gives the next state
    and [true] when it leaves the loop by [break]. *)
Fixpoint for_loop {St : Type} (n : nat) (i : Z)
  (body : Z -> St -> option (St * bool)) (s : St) : option St :=
  match n with
  | O => Some s
  | S n' =>
      match body i s with
      | None => None
      | Some (s', true) => Some s'
      | Some (s', false) => for_loop n' (i + 1) body s'
      end
  end.

Definition for_range {St : Type} (from to : Z)
  (body : Z -> St -> option (St * bool)) (s : St) : option St :=
  for_loop (Z.to_nat (to - from)) from body s.

(** ** Values of [atools::geo] *)

Module geo.

Record Pos := { lonX : float; latY : float; altitude : float }.

Inductive CrossTrackStatus := INVALID | ALONG_TRACK | BEFORE_START | AFTER_END.

Definition status_eqb (a b : CrossTrackStatus) : bool :=
  match a, b with
  | INVALID, INVALID | ALONG_TRACK, ALONG_TRACK
  | BEFORE_START, BEFORE_START | AFTER_END, AFTER_END => true
  | _, _ => false
  end.

(** Result of a point-to-line distance computation. *)
Record LineDistance := {
  status : CrossTrackStatus;
  distance : float;
  distanceFrom1 : float;
  distanceFrom2 : float }.

Record Line := { getPos1 : Pos; getPos2 : Pos }.

Definition LineString := list Pos.

Record Rect := { west : float; north : float; east : float; south : float }.

End geo.

(** ** Values of namespace [map] *)

Module map.

(** Modelled from the spec: the map-object classification of a leg
    (airport, waypoint, VOR, NDB, user point, none-found) and the display
    flag for missed-approach legs; the header that declares the flags is
    not part of the sources. *)
Inductive MapObjectType :=
  NONE | AIRPORT | VOR | NDB | WAYPOINT | USER | INVALID | MISSED_APPROACH.

Definition type_eqb (a b : MapObjectType) : bool :=
  match a, b with
  | NONE, NONE | AIRPORT, AIRPORT | VOR, VOR | NDB, NDB | WAYPOINT, WAYPOINT
  | USER, USER | INVALID, INVALID | MISSED_APPROACH, MISSED_APPROACH => true
  | _, _ => false
  end.

(** A set of flags, [flags & f] being membership. *)
Definition MapObjectTypes := list MapObjectType.

Definition has (flags : MapObjectTypes) (f : MapObjectType) : bool :=
  existsb (type_eqb f) flags.

(** Modelled from the spec: objects that carry a magnetic variation. *)
Definition NAV_MAGVAR : MapObjectTypes := [AIRPORT; VOR; NDB; WAYPOINT].

(** Modelled from the spec: the "no index" sentinel.  The code tests
    validity by [index < INVALID_INDEX_VALUE], so it is the largest [int]. *)
Definition INVALID_INDEX_VALUE : Z := 2147483647.

(** Modelled from the spec: the "invalid distance" sentinel.  The code tests
    validity by [d < INVALID_DISTANCE_VALUE], so it is the largest float. *)
Definition INVALID_DISTANCE_VALUE : float := FLT_MAX.

Record PosCourse := { pos : geo.Pos; course : float }.

End map.

(** ** Values of namespace [proc] *)

Module proc.

(** Modelled from the spec: the type tag of a procedure leg.  The code
    names three tags; every other tag behaves alike in it. *)
Inductive ProcedureLegType :=
  INVALID_LEG_TYPE | INITIAL_FIX | START_OF_PROCEDURE | PROCEDURE_TURN | OTHER_LEG_TYPE.

Definition type_eqb (a b : ProcedureLegType) : bool :=
  match a, b with
  | INVALID_LEG_TYPE, INVALID_LEG_TYPE | INITIAL_FIX, INITIAL_FIX
  | START_OF_PROCEDURE, START_OF_PROCEDURE | PROCEDURE_TURN, PROCEDURE_TURN
  | OTHER_LEG_TYPE, OTHER_LEG_TYPE => true
  | _, _ => false
  end.

(** Modelled from the spec: the procedure-leg descriptor (type tag, geometry
    polyline, hold-exit helper line, turn direction, calculated distance,
    and the predicates on its procedure type).  A predicate method of the
    C++ struct is the field of the same name. *)
Record MapProcedureLeg := {
  type : ProcedureLegType;
  isHold : bool;
  isMissed : bool;
  isAnyDeparture : bool;
  isAnyStar : bool;
  isArrival : bool;
  line : geo.Line;
  holdLine : geo.Line;
  turnDirection : string;
  calculatedDistance : float;
  geometry : geo.LineString }.

(** A block of procedure legs ([isEmpty], [size], [at]). *)
Definition MapProcedureLegs := list MapProcedureLeg.

End proc.

(** ** Route legs *)

(** Modelled from the spec: one leg of the route, seen through the
    accessors [route.cpp] calls on it. *)
Record RouteLeg := {
  getPosition : geo.Pos;
  getProcedureLeg : proc.MapProcedureLeg;
  isAnyProcedure : bool;
  isRoute : bool;
  getMapObjectType : map.MapObjectType;
  getDistanceTo : float;
  getGeometry : geo.LineString;
  getFlightplanEntryIndex : Z }.

Definition getProcedureLegType (l : RouteLeg) : proc.ProcedureLegType :=
  proc.type (getProcedureLeg l).

Definition setFlightplanEntryIndex (l : RouteLeg) (i : Z) : RouteLeg :=
  {| getPosition := getPosition l;
     getProcedureLeg := getProcedureLeg l;
     isAnyProcedure := isAnyProcedure l;
     isRoute := isRoute l;
     getMapObjectType := getMapObjectType l;
     getDistanceTo := getDistanceTo l;
     getGeometry := getGeometry l;
     getFlightplanEntryIndex := i |}.

(** ** The route *)

(** The members of [Route] that the navigation code reads and writes; the
    flight plan (entries and properties) is touched only by the splicer. *)
Record Route := {
  legs : list RouteLeg;
  totalDistance : float;
  shownTypes : map.MapObjectTypes;
  boundingRect : geo.Rect;
  activePos : map.PosCourse;
  trueCourse : bool;
  arrivalLegs : proc.MapProcedureLegs;
  starLegs : proc.MapProcedureLegs;
  departureLegs : proc.MapProcedureLegs;
  departureLegsOffset : Z;
  starLegsOffset : Z;
  arrivalLegsOffset : Z;
  activeLeg : Z;
  activeLegResult : geo.LineDistance }.

Definition set_legs (r : Route) (l : list RouteLeg) : Route :=
  {| legs := l; totalDistance := totalDistance r; shownTypes := shownTypes r;
     boundingRect := boundingRect r; activePos := activePos r;
     trueCourse := trueCourse r; arrivalLegs := arrivalLegs r;
     starLegs := starLegs r; departureLegs := departureLegs r;
     departureLegsOffset := departureLegsOffset r;
     starLegsOffset := starLegsOffset r;
     arrivalLegsOffset := arrivalLegsOffset r;
     activeLeg := activeLeg r; activeLegResult := activeLegResult r |}.

Definition set_totalDistance (r : Route) (d : float) : Route :=
  {| legs := legs r; totalDistance := d; shownTypes := shownTypes r;
     boundingRect := boundingRect r; activePos := activePos r;
     trueCourse := trueCourse r; arrivalLegs := arrivalLegs r;
     starLegs := starLegs r; departureLegs := departureLegs r;
     departureLegsOffset := departureLegsOffset r;
     starLegsOffset := starLegsOffset r;
     arrivalLegsOffset := arrivalLegsOffset r;
     activeLeg := activeLeg r; activeLegResult := activeLegResult r |}.

Definition set_boundingRect (r : Route) (b : geo.Rect) : Route :=
  {| legs := legs r; totalDistance := totalDistance r; shownTypes := shownTypes r;
     boundingRect := b; activePos := activePos r;
     trueCourse := trueCourse r; arrivalLegs := arrivalLegs r;
     starLegs := starLegs r; departureLegs := departureLegs r;
     departureLegsOffset := departureLegsOffset r;
     starLegsOffset := starLegsOffset r;
     arrivalLegsOffset := arrivalLegsOffset r;
     activeLeg := activeLeg r; activeLegResult := activeLegResult r |}.

Definition set_trueCourse (r : Route) (b : bool) : Route :=
  {| legs := legs r; totalDistance := totalDistance r; shownTypes := shownTypes r;
     boundingRect := boundingRect r; activePos := activePos r;
     trueCourse := b; arrivalLegs := arrivalLegs r;
     starLegs := starLegs r; departureLegs := departureLegs r;
     departureLegsOffset := departureLegsOffset r;
     starLegsOffset := starLegsOffset r;
     arrivalLegsOffset := arrivalLegsOffset r;
     activeLeg := activeLeg r; activeLegResult := activeLegResult r |}.

Definition set_offsets (r : Route) (dep star arr : Z) : Route :=
  {| legs := legs r; totalDistance := totalDistance r; shownTypes := shownTypes r;
     boundingRect := boundingRect r; activePos := activePos r;
     trueCourse := trueCourse r; arrivalLegs := arrivalLegs r;
     starLegs := starLegs r; departureLegs := departureLegs r;
     departureLegsOffset := dep;
     starLegsOffset := star;
     arrivalLegsOffset := arr;
     activeLeg := activeLeg r; activeLegResult := activeLegResult r |}.

(** The active navigation state: [activeLeg], [activePos], [activeLegResult]. *)
Definition set_active (r : Route) (a : Z) (p : map.PosCourse)
  (res : geo.LineDistance) : Route :=
  {| legs := legs r; totalDistance := totalDistance r; shownTypes := shownTypes r;
     boundingRect := boundingRect r; activePos := p;
     trueCourse := trueCourse r; arrivalLegs := arrivalLegs r;
     starLegs := starLegs r; departureLegs := departureLegs r;
     departureLegsOffset := departureLegsOffset r;
     starLegsOffset := starLegsOffset r;
     arrivalLegsOffset := arrivalLegsOffset r;
     activeLeg := a; activeLegResult := res |}.

Definition set_activeLeg (r : Route) (a : Z) : Route :=
  set_active r a (activePos r) (activeLegResult r).

(** [QList] accessors. *)
Definition size (r : Route) : Z := Z.of_nat (length (legs r)).

Definition isEmpty (r : Route) : bool := size r =? 0.

Definition at_ (r : Route) (i : Z) : option RouteLeg :=
  if (0 <=? i) && (i <? size r) then nth_error (legs r) (Z.to_nat i) else None.

Definition first (r : Route) : option RouteLeg := at_ r 0.

Definition getPositionAt (r : Route) (i : Z) : option geo.Pos :=
  l <- at_ r i ;; Some (getPosition l).

(** Assignment to the leg at index [i] through [operator[]]. *)
Fixpoint list_set {A : Type} (l : list A) (n : nat) (x : A) : list A :=
  match l, n with
  | [], _ => []
  | _ :: t, O => x :: t
  | h :: t, S n' => h :: list_set t n' x
  end.

Definition set_at (r : Route) (i : Z) (l : RouteLeg) : Route :=
  set_legs r (list_set (legs r) (Z.to_nat i) l).

(** Modelled from the spec: a procedure of a kind exists when its block of
    procedure legs is not empty (the header inlines these tests). *)
Definition hasAnyDepartureProcedure (r : Route) : bool :=
  negb (Nat.eqb (length (departureLegs r)) 0).
Definition hasAnyStarProcedure (r : Route) : bool :=
  negb (Nat.eqb (length (starLegs r)) 0).
Definition hasAnyArrivalProcedure (r : Route) : bool :=
  negb (Nat.eqb (length (arrivalLegs r)) 0).

(** ** Editability *)

Definition canEditLeg (r : Route) (index : Z) : bool :=
  if hasAnyDepartureProcedure r
     && (index <? int_add (departureLegsOffset r)
                      (Z.of_nat (length (departureLegs r))))
  then false
  else if hasAnyStarProcedure r && (index >? starLegsOffset r) then false
  else if hasAnyArrivalProcedure r && (index >? arrivalLegsOffset r) then false
  else true.

Definition canEditPoint (r : Route) (index : Z) : option bool :=
  l <- at_ r index ;; Some (isRoute l).

(** [while (cond) step], with [fuel] bounding the number of tests of the
    condition; [None] also when the fuel runs out. *)
Fixpoint while_loop {St : Type} (fuel : nat) (cond : St -> option bool)
  (step : St -> St) (s : St) : option St :=
  match fuel with
  | O => None
  | S fuel' =>
      b <- cond s ;;
      if b then while_loop fuel' cond step (step s) else Some s
  end.

(** ** Collaborators *)

(** What [route.cpp] calls and does not define: the geometry and unit
    functions of atools, the default-constructed values, the methods of
    [RouteLeg] that recompute a leg, and Marble's bounding box. *)
Class Collaborators := {
  (** [atools::geo::Pos()] and [atools::geo::EMPTY_POS] *)
  Pos_ctor : geo.Pos;
  EMPTY_POS : geo.Pos;
  (** [Pos::isValid], [Pos::operator==] *)
  Pos_isValid : geo.Pos -> bool;
  Pos_eq : geo.Pos -> geo.Pos -> bool;
  (** [p.distanceMeterTo(q)], [p.angleDegTo(q)] *)
  distanceMeterTo : geo.Pos -> geo.Pos -> float;
  angleDegTo : geo.Pos -> geo.Pos -> float;
  (** [p.distanceMeterToLine(pos1, pos2, result)], giving [result] *)
  distanceMeterToLine : geo.Pos -> geo.Pos -> geo.Pos -> geo.LineDistance;
  (** [p.interpolate(q, fraction)] *)
  interpolate : geo.Pos -> geo.Pos -> float -> geo.Pos;
  (** [line.distanceMeterToLine(p, result)] *)
  Line_distanceMeterToLine : geo.Line -> geo.Pos -> geo.LineDistance;
  (** [linestring.distanceMeterToLineString(p, result)], [linestring.interpolate(fraction)] *)
  distanceMeterToLineString : geo.LineString -> geo.Pos -> geo.LineDistance;
  LineString_interpolate : geo.LineString -> float -> geo.Pos;
  (** a [LineDistance] declared without initialiser *)
  LineDistance_ctor : geo.LineDistance;
  (** [atools::geo::nmToMeter], [meterToNm], [normalizeCourse], [atools::mod] *)
  nmToMeter : float -> float;
  meterToNm : float -> float;
  normalizeCourse : float -> float;
  mod_ : float -> float -> float;
  (** [map::PosCourse()], [PosCourse::isValid] *)
  PosCourse_ctor : map.PosCourse;
  PosCourse_isValid : map.PosCourse -> bool;
  (** [leg.updateMagvar()], [leg.updateInvalidMagvar(i, route)],
      [leg.updateDistanceAndCourse(i, last)] *)
  updateMagvar_leg : RouteLeg -> RouteLeg;
  updateInvalidMagvar : Z -> Route -> RouteLeg -> RouteLeg;
  updateDistanceAndCourse : Z -> option RouteLeg -> RouteLeg -> RouteLeg;
  (** [Marble::GeoDataLatLonBox::fromLineString] over the leg positions,
      as a rectangle in degrees *)
  fromLineString : list geo.Pos -> geo.Rect }.

Section RouteOps.

Context {C : Collaborators}.

Definition invalid_LineDistance : geo.LineDistance :=
  {| geo.status := geo.INVALID;
     geo.distance := map.INVALID_DISTANCE_VALUE;
     geo.distanceFrom1 := map.INVALID_DISTANCE_VALUE;
     geo.distanceFrom2 := map.INVALID_DISTANCE_VALUE |}.

Definition resetActive (r : Route) : Route :=
  set_active r map.INVALID_INDEX_VALUE PosCourse_ctor invalid_LineDistance.

(** Compare crosstrack distance fuzzy. *)
Definition isSmaller (dist1 dist2 : geo.LineDistance) (epsilon : float) : bool :=
  fltb (fabs (geo.distance dist1)) (fadd (fabs (geo.distance dist2)) epsilon).

(** ** Nearest-leg locator *)

Record NearestScan := {
  minDistance : float;
  crossTrackDistanceMeter : float;
  index : Z }.

Definition nearestAllLegIndex_init : NearestScan :=
  {| minDistance := map.INVALID_DISTANCE_VALUE;
     crossTrackDistanceMeter := map.INVALID_DISTANCE_VALUE;
     index := map.INVALID_INDEX_VALUE |}.

(** One pass of the loop over [i] in [1, size). *)
Definition nearestAllLegIndex_body (r : Route) (pos : map.PosCourse) (i : Z)
  (s : NearestScan) : option (NearestScan * bool) :=
  p1 <- getPositionAt r (i - 1) ;;
  p2 <- getPositionAt r i ;;
  let result := distanceMeterToLine (map.pos pos) p1 p2 in
  let distance := fabs (geo.distance result) in
  if negb (geo.status_eqb (geo.status result) geo.INVALID)
     && fltb distance (minDistance s)
  then Some ({| minDistance := distance;
                crossTrackDistanceMeter := geo.distance result;
                index := i |}, false)
  else Some (s, false).

Definition nearestAllLegIndex_scan (r : Route) (pos : map.PosCourse)
  : option NearestScan :=
  for_range 1 (size r) (nearestAllLegIndex_body r pos) nearestAllLegIndex_init.

(** The pair [(crossTrackDistanceMeter, index)] of the two reference
    parameters on return. *)
Definition nearestAllLegIndex (r : Route) (pos : map.PosCourse)
  : option (float * Z) :=
  if negb (PosCourse_isValid pos)
  then Some (map.INVALID_DISTANCE_VALUE, map.INVALID_INDEX_VALUE)
  else
    s <- nearestAllLegIndex_scan r pos ;;
    if fltb (crossTrackDistanceMeter s) map.INVALID_DISTANCE_VALUE
    then
      if fgtb (fabs (crossTrackDistanceMeter s)) (nmToMeter f100)
      then (* Too far away from any segment or point *)
        Some (map.INVALID_DISTANCE_VALUE, map.INVALID_INDEX_VALUE)
      else Some (crossTrackDistanceMeter s, index s)
    else Some (crossTrackDistanceMeter s, index s).

Definition set_status_distance (l : geo.LineDistance)
  (st : geo.CrossTrackStatus) (d : float) : geo.LineDistance :=
  {| geo.status := st; geo.distance := d;
     geo.distanceFrom1 := geo.distanceFrom1 l;
     geo.distanceFrom2 := geo.distanceFrom2 l |}.

Definition getNearestRouteLegResult_body (r : Route) (pos : geo.Pos)
  (ignoreNotEditable : bool) (i : Z) (s : geo.LineDistance * Z)
  : option ((geo.LineDistance * Z) * bool) :=
  let '(minResult, index) := s in
  if ignoreNotEditable && negb (canEditLeg r i) then Some (s, false)
  else
    p1 <- getPositionAt r (i - 1) ;;
    p2 <- getPositionAt r i ;;
    let result := distanceMeterToLine pos p1 p2 in
    if negb (geo.status_eqb (geo.status result) geo.INVALID)
       && fltb (fabs (geo.distance result)) (fabs (geo.distance minResult))
    then Some ((result, i), false)
    else Some (s, false).

(** The returned index and [lineDistanceResult] on return; the latter's
    value on entry is a parameter, as it is passed by reference. *)
Definition getNearestRouteLegResult (r : Route) (pos : geo.Pos)
  (lineDistanceResult : geo.LineDistance) (ignoreNotEditable : bool)
  : option (Z * geo.LineDistance) :=
  let index := map.INVALID_INDEX_VALUE in
  let lineDistanceResult :=
    set_status_distance lineDistanceResult geo.INVALID map.INVALID_DISTANCE_VALUE in
  if negb (Pos_isValid pos) then Some (index, lineDistanceResult)
  else
    let minResult :=
      set_status_distance LineDistance_ctor geo.INVALID map.INVALID_DISTANCE_VALUE in
    '(minResult, index) <-
      for_range 1 (size r) (getNearestRouteLegResult_body r pos ignoreNotEditable)
        (minResult, index) ;;
    if negb (index =? map.INVALID_INDEX_VALUE)
    then Some (index, minResult)
    else Some (index, lineDistanceResult).

(** ** Active-leg tracker *)

(** [atools::contains(t, {INITIAL_FIX, START_OF_PROCEDURE})]. *)
Definition contains (t : proc.ProcedureLegType) (l : list proc.ProcedureLegType) : bool :=
  existsb (proc.type_eqb t) l.

(** Condition of the loop that skips point-like next legs (active leg is
    no hold). *)
Definition skipPoints_cond (r : Route) (nextLeg : Z) : option bool :=
  l <- at_ r nextLeg ;;
  if contains (getProcedureLegType l) [proc.INITIAL_FIX; proc.START_OF_PROCEDURE]
  then
    p1 <- getPositionAt r (nextLeg - 1) ;;
    p2 <- getPositionAt r nextLeg ;;
    if Pos_eq p1 p2 then Some (nextLeg <? size r - 2) else Some false
  else Some false.

(** Condition of the loop that jumps all initial fixes (active leg is a
    hold). *)
Definition skipFixes_cond (r : Route) (nextLeg : Z) : option bool :=
  l <- at_ r nextLeg ;;
  if contains (getProcedureLegType l) [proc.INITIAL_FIX; proc.START_OF_PROCEDURE]
  then Some (nextLeg <? size r - 2)
  else Some false.

(** The potential next leg, from [activeLeg + 1]. *)
Definition candidateNextLeg (r : Route) (active : RouteLeg) (nextLeg : Z) : option Z :=
  if negb (proc.isHold (getProcedureLeg active))
  then while_loop (S (length (legs r))) (skipPoints_cond r) Z.succ nextLeg
  else while_loop (S (length (legs r))) (skipFixes_cond r) Z.succ nextLeg.

(** The absolute difference of the live course and the leg course. *)
Definition courseDifference (course legCrs : float) : float :=
  let courseDiff := mod_ (fadd (fsub course legCrs) f360) f360 in
  if fgtb courseDiff f180 then fsub f360 courseDiff else courseDiff.

(** The value of the local [switchToNextLeg] when the tests are done. *)
Definition switchToNextLeg (active next : RouteLeg) (activePos : geo.Pos)
  (activeLegResult nextLegResult : geo.LineDistance) (courseDiff : float) : bool :=
  if proc.isHold (getProcedureLeg active)
  then
    (* Test next leg if we can exit a hold *)
    if Pos_eq (geo.getPos1 (proc.line (getProcedureLeg next))) (getPosition active)
    then
      (* hold point is the same as next leg starting point *)
      geo.status_eqb (geo.status nextLegResult) geo.ALONG_TRACK
      && fltb (fabs (geo.distance nextLegResult)) (nmToMeter f0_5)
      && fgtb (geo.distanceFrom1 nextLegResult) (nmToMeter f0_75)
      && fltb courseDiff f25
    else
      (* Hold point differs from next leg start - use the helping line *)
      let resultHold :=
        Line_distanceMeterToLine (proc.holdLine (getProcedureLeg active)) activePos in
      geo.status_eqb (geo.status resultHold) geo.ALONG_TRACK
      && fltb (geo.distance resultHold)
           (nmToMeter (if String.eqb (proc.turnDirection (getProcedureLeg active)) "R"
                       then fneg f0_5 else f0_5))
  else
    if proc.isHold (getProcedureLeg next)
    then
      (* Ignore all other rules and use distance to hold point to activate hold *)
      fltb (fabs (geo.distance nextLegResult)) (nmToMeter f0_5)
    else if proc.type_eqb (getProcedureLegType active) proc.PROCEDURE_TURN
    then
      (* Ignore the after end indication for current leg for procedure turns *)
      isSmaller nextLegResult activeLegResult f100 && fltb courseDiff f45
    else
      (* at end of current, or distance to next is smaller and course similar *)
      geo.status_eqb (geo.status activeLegResult) geo.AFTER_END
      || (isSmaller nextLegResult activeLegResult f10 && fltb courseDiff f90).

(** The first half of [updateActiveLegAndPos] on a non-empty route and a
    valid sample: the active leg is initialised and put into range, the
    sample stored and [activeLegResult] computed. *)
Definition updateActiveLegAndPos_init (r : Route) (pos : map.PosCourse) : option Route :=
  activeLeg0 <-
    (if activeLeg r =? map.INVALID_INDEX_VALUE
     then (* Start with nearest leg *)
       '(_, i) <- nearestAllLegIndex r pos ;; Some i
     else Some (activeLeg r)) ;;
  let activeLeg1 := if activeLeg0 >=? size r then size r - 1 else activeLeg0 in
  if size r =? 1
  then
    (* Special case point route *)
    f <- first r ;;
    Some (set_active r 0 pos
            (distanceMeterToLine (map.pos pos) (getPosition f) (getPosition f)))
  else
    (* Reset from point route *)
    let activeLeg2 := if activeLeg1 =? 0 then 1 else activeLeg1 in
    p1 <- getPositionAt r (activeLeg2 - 1) ;;
    p2 <- getPositionAt r activeLeg2 ;;
    Some (set_active r activeLeg2 pos (distanceMeterToLine (map.pos pos) p1 p2)).

Definition updateActiveLegAndPos (r : Route) (pos : map.PosCourse) : option Route :=
  if isEmpty r || negb (PosCourse_isValid pos) then Some (resetActive r)
  else
    r <- updateActiveLegAndPos_init r pos ;;
    (* Get potential next leg and course difference *)
    let nextLeg := activeLeg r + 1 in
    if nextLeg <? size r
    then
      active <- at_ r (activeLeg r) ;;
      nextLeg <- candidateNextLeg r active nextLeg ;;
      pos1 <- getPositionAt r (nextLeg - 1) ;;
      pos2 <- getPositionAt r nextLeg ;;
      (* Calculate course difference *)
      let legCrs := normalizeCourse (angleDegTo pos1 pos2) in
      let courseDiff := courseDifference (map.course pos) legCrs in
      (* Test next leg *)
      let nextLegResult := distanceMeterToLine (map.pos (activePos r)) pos1 pos2 in
      next <- at_ r nextLeg ;;
      if switchToNextLeg active next (map.pos (activePos r)) (activeLegResult r)
           nextLegResult courseDiff
      then
        (* Do not track on missed if legs are not displayed *)
        if negb (negb (map.has (shownTypes r) map.MISSED_APPROACH)
                 && proc.isMissed (getProcedureLeg next))
        then
          (* Go to next leg and increase all values *)
          p1 <- getPositionAt r (nextLeg - 1) ;;
          p2 <- getPositionAt r nextLeg ;;
          Some (set_active r nextLeg (activePos r)
                  (distanceMeterToLine (map.pos pos) p1 p2))
        else Some r
      else Some r
    else Some r.

(** ** Distance reporter *)

(** The four output parameters of [getRouteDistances]: [None] is a null
    pointer, [Some v] a pointer to a float that holds [v]. *)
Record RouteDistances := {
  distFromStart : option float;
  distToDest : option float;
  nextLegDistance : option float;
  crossTrackDistance : option float }.

(** [if (p != nullptr) *p = v]. *)
Definition store {A : Type} (p : option A) (v : A) : option A :=
  match p with
  | None => None
  | Some _ => Some v
  end.

Definition set_crossTrackDistance (o : RouteDistances) (v : float) :=
  {| distFromStart := distFromStart o; distToDest := distToDest o;
     nextLegDistance := nextLegDistance o;
     crossTrackDistance := store (crossTrackDistance o) v |}.
Definition set_nextLegDistance (o : RouteDistances) (v : float) :=
  {| distFromStart := distFromStart o; distToDest := distToDest o;
     nextLegDistance := store (nextLegDistance o) v;
     crossTrackDistance := crossTrackDistance o |}.
Definition set_distFromStart (o : RouteDistances) (v : float) :=
  {| distFromStart := store (distFromStart o) v; distToDest := distToDest o;
     nextLegDistance := nextLegDistance o;
     crossTrackDistance := crossTrackDistance o |}.
Definition set_distToDest (o : RouteDistances) (v : float) :=
  {| distFromStart := distFromStart o; distToDest := store (distToDest o) v;
     nextLegDistance := nextLegDistance o;
     crossTrackDistance := crossTrackDistance o |}.

(** Sum up all distances along the legs [0 .. routeIndex]; missed approach
    legs end the sum until the active is a missed approach leg. *)
Definition fromstart_body (r : Route) (activeIsMissed : bool) (i : Z)
  (fromstart : float) : option (float * bool) :=
  l <- at_ r i ;;
  if negb (proc.isMissed (getProcedureLeg l)) || activeIsMissed
  then Some (fadd fromstart (getDistanceTo l), false)
  else Some (fromstart, true).

(** Summarize remaining missed leg distance if on missed. *)
Definition missed_body (r : Route) (i : Z) (distToDest : float)
  : option (float * bool) :=
  l <- at_ r i ;;
  if proc.isMissed (getProcedureLeg l)
  then Some (fadd distToDest (getDistanceTo l), false)
  else Some (distToDest, false).

(** The returned [bool] and the output parameters on return. *)
Definition getRouteDistances (r : Route) (out : RouteDistances)
  : option (bool * RouteDistances) :=
  if activeLeg r =? map.INVALID_INDEX_VALUE then Some (false, out)
  else
    active <- at_ r (activeLeg r) ;;
    (* Use arc or intercept geometry to calculate distance *)
    let geometryLeg :=
      if isAnyProcedure active && (Z.of_nat (length (getGeometry active)) >? 2)
      then Some (getProcedureLeg active) else None in
    let out :=
      match crossTrackDistance out with
      | None => out
      | Some _ =>
          match geometryLeg with
          | Some g =>
              let lineDist :=
                distanceMeterToLineString (proc.geometry g) (map.pos (activePos r)) in
              if geo.status_eqb (geo.status lineDist) geo.ALONG_TRACK
              then set_crossTrackDistance out (meterToNm (geo.distance lineDist))
              else set_crossTrackDistance out map.INVALID_DISTANCE_VALUE
          | None =>
              if geo.status_eqb (geo.status (activeLegResult r)) geo.ALONG_TRACK
              then set_crossTrackDistance out
                     (meterToNm (geo.distance (activeLegResult r)))
              else set_crossTrackDistance out map.INVALID_DISTANCE_VALUE
          end
      end in
    let routeIndex := activeLeg r in
    if negb (routeIndex =? map.INVALID_INDEX_VALUE)
    then
      let routeIndex := if routeIndex >=? size r then size r - 1 else routeIndex in
      active' <- at_ r (activeLeg r) ;;
      let activeIsMissed := proc.isMissed (getProcedureLeg active') in
      (* Ignore missed approach legs until the active is a missed approach leg *)
      current <- at_ r routeIndex ;;
      distToCurrent <-
        (if negb (proc.isMissed (getProcedureLeg current)) || activeIsMissed
         then
           match geometryLeg with
           | Some g =>
               let result :=
                 distanceMeterToLineString (proc.geometry g) (map.pos (activePos r)) in
               Some (meterToNm (geo.distanceFrom2 result))
           | None =>
               p <- getPositionAt r routeIndex ;;
               Some (meterToNm (distanceMeterTo p (map.pos (activePos r))))
           end
         else Some fzero) ;;
      let out := set_nextLegDistance out distToCurrent in
      fromstart <- for_range 0 (routeIndex + 1) (fromstart_body r activeIsMissed) fzero ;;
      let fromstart := fsub fromstart distToCurrent in
      let fromstart := fabs fromstart in
      let out := set_distFromStart out (fmax fromstart fzero) in
      out <-
        match distToDest out with
        | None => Some out
        | Some _ =>
            if negb activeIsMissed
            then Some (set_distToDest out (fmax (fsub (totalDistance r) fromstart) fzero))
            else
              d <- for_range (routeIndex + 1) (size r) (missed_body r) fzero ;;
              Some (set_distToDest out (fabs (fadd d distToCurrent)))
        end ;;
      Some (true, out)
    else Some (false, out).

Definition getDistanceFromStart_body (r : Route) (i : Z) (fromstart : float)
  : option (float * bool) :=
  l <- at_ r i ;;
  if negb (proc.isMissed (getProcedureLeg l))
  then Some (fadd fromstart (nmToMeter (getDistanceTo l)), false)
  else Some (fromstart, true).

Definition getDistanceFromStart (r : Route) (pos : geo.Pos) : option float :=
  '(leg, result) <-
    getNearestRouteLegResult r pos LineDistance_ctor false (* ignoreNotEditable *) ;;
  let distFromStart := map.INVALID_DISTANCE_VALUE in
  distFromStart <-
    (if (leg <? map.INVALID_INDEX_VALUE)
        && geo.status_eqb (geo.status result) geo.ALONG_TRACK
     then
       fromstart <- for_range 1 leg (getDistanceFromStart_body r) fzero ;;
       let fromstart := fadd fromstart (geo.distanceFrom1 result) in
       let fromstart := fabs fromstart in
       Some (fmax fromstart fzero)
     else Some distFromStart) ;;
  Some (meterToNm distFromStart).

(** Find the leg that contains the given distance point: the state is the
    running [total] and [foundIndex]. *)
Definition positionAtDistance_body (r : Route) (distFromStartNm : float)
  (i : Z) (s : float * Z) : option ((float * Z) * bool) :=
  let '(total, foundIndex) := s in
  l <- at_ r (i + 1) ;;
  let total := fadd total (getDistanceTo l) in
  if fgtb total distFromStartNm
  then (* Distance already within leg *) Some ((total, i), true)
  else Some ((total, foundIndex), false).

Definition positionAtDistance (r : Route) (distFromStartNm : float)
  : option geo.Pos :=
  if fltb distFromStartNm fzero || fgtb distFromStartNm (totalDistance r)
  then Some EMPTY_POS
  else
    let retval := Pos_ctor in
    '(total, foundIndex) <-
      for_range 0 (size r - 1) (positionAtDistance_body r distFromStartNm)
        (fzero, map.INVALID_INDEX_VALUE) ;;
    if foundIndex <? size r - 1
    then
      let foundIndex := foundIndex + 1 in
      found <- at_ r foundIndex ;;
      if Z.of_nat (length (getGeometry found)) >? 2
      then
        (* Use approach geometry to display *)
        let calculatedDistance := proc.calculatedDistance (getProcedureLeg found) in
        let base := fsub distFromStartNm (fsub total calculatedDistance) in
        let fraction := fdiv base calculatedDistance in
        Some (LineString_interpolate (getGeometry found) fraction)
      else
        let base := fsub distFromStartNm (fsub total (getDistanceTo found)) in
        let fraction := fdiv base (getDistanceTo found) in
        p1 <- getPositionAt r (foundIndex - 1) ;;
        p2 <- getPositionAt r foundIndex ;;
        Some (interpolate p1 p2 fraction)
    else Some retval.

(** ** Distance and course updater *)

Definition updateIndicesAndOffsets_body (i : Z) (r : Route)
  : option (Route * bool) :=
  l <- at_ r i ;;
  let leg := setFlightplanEntryIndex l i in
  let r := set_at r i leg in
  let dep :=
    if proc.isAnyDeparture (getProcedureLeg leg)
       && (departureLegsOffset r =? map.INVALID_INDEX_VALUE)
    then i else departureLegsOffset r in
  let star :=
    if proc.isAnyStar (getProcedureLeg leg)
       && (starLegsOffset r =? map.INVALID_INDEX_VALUE)
    then i else starLegsOffset r in
  let arr :=
    if proc.isArrival (getProcedureLeg leg)
       && (arrivalLegsOffset r =? map.INVALID_INDEX_VALUE)
    then i else arrivalLegsOffset r in
  Some (set_offsets r dep star arr, false).

Definition updateIndicesAndOffsets (r : Route) : option Route :=
  let r :=
    if activeLeg r <? map.INVALID_INDEX_VALUE
    then (* Put the active back into bounds *)
      let a := Z.min (activeLeg r) (size r - 1) in
      set_activeLeg r (Z.max a 0)
    else r in
  let r := set_offsets r map.INVALID_INDEX_VALUE map.INVALID_INDEX_VALUE
             map.INVALID_INDEX_VALUE in
  for_range 0 (size r) updateIndicesAndOffsets_body r.

Definition isAirportAfterArrival (r : Route) (index : Z) : option bool :=
  if hasAnyArrivalProcedure r
  then
    if index =? size r - 1
    then l <- at_ r index ;; Some (map.type_eqb (getMapObjectType l) map.AIRPORT)
    else Some false
  else Some false.

(** The loop state of [updateDistancesAndCourse]: the route (legs and
    [totalDistance] are written in place) and the leg [last] points to. *)
Definition updateDistancesAndCourse_body (i : Z) (s : Route * option RouteLeg)
  : option ((Route * option RouteLeg) * bool) :=
  let '(r, last) := s in
  stop <- isAirportAfterArrival r i ;;
  if stop then Some (s, true)
  else
    l <- at_ r i ;;
    let leg := updateDistanceAndCourse i last l in
    let r := set_at r i leg in
    let r :=
      if negb (proc.isMissed (getProcedureLeg leg))
      then set_totalDistance r (fadd (totalDistance r) (getDistanceTo leg))
      else r in
    Some ((r, Some leg), false).

Definition updateDistancesAndCourse (r : Route) : option Route :=
  let r := set_totalDistance r fzero in
  '(r, _) <- for_range 0 (size r) updateDistancesAndCourse_body (r, None) ;;
  Some r.

Definition updateMagvar (r : Route) : option Route :=
  (* get magvar from internal database objects (waypoints, VOR and others) *)
  r <- for_range 0 (size r)
         (fun i r => l <- at_ r i ;; Some (set_at r i (updateMagvar_leg l), false)) r ;;
  (* Update missing magvar values using neighbour entries *)
  r <- for_range 0 (size r)
         (fun i r => l <- at_ r i ;; Some (set_at r i (updateInvalidMagvar i r l), false)) r ;;
  (* Route contains correct magvar if any of these objects were found *)
  Some (set_trueCourse r
          (negb (existsb (fun obj => map.has map.NAV_MAGVAR (getMapObjectType obj))
                   (legs r)))).

Definition updateBoundingRect (r : Route) : Route :=
  set_boundingRect r (fromLineString (List.map getPosition (legs r))).

Definition updateAll (r : Route) : option Route :=
  r <- updateIndicesAndOffsets r ;;
  r <- updateMagvar r ;;
  r <- updateDistancesAndCourse r ;;
  Some (updateBoundingRect r).

(** ** Active leg queries and manual override *)

Definition getActiveLeg (r : Route) : option (option RouteLeg) :=
  if negb (activeLeg r =? map.INVALID_INDEX_VALUE)
  then l <- at_ r (activeLeg r) ;; Some (Some l)
  else Some None.

(** The returned index and [*corrected] on return ([None]: a null pointer). *)
Definition getActiveLegIndexCorrected (r : Route) (corrected : option bool)
  : option (Z * option bool) :=
  if activeLeg r =? map.INVALID_INDEX_VALUE
  then Some (map.INVALID_INDEX_VALUE, corrected)
  else
    let nextLeg := activeLeg r + 1 in
    guard <-
      (if nextLeg <? size r
       then if nextLeg =? size r
            then l <- at_ r nextLeg ;; Some (isAnyProcedure l)
            else Some false
       else Some false) ;;
    if guard
    then Some (activeLeg r + 1, store corrected true)
    else Some (activeLeg r, store corrected false).

Definition isActiveMissed (r : Route) : option bool :=
  leg <- getActiveLeg r ;;
  match leg with
  | Some l => Some (proc.isMissed (getProcedureLeg l))
  | None => Some false
  end.

Definition isPassedLastLeg (r : Route) : option bool :=
  lastOrMissedNext <-
    (if activeLeg r >=? size r - 1 then Some true
     else if activeLeg r + 1 <? size r
          then l <- at_ r (activeLeg r + 1) ;; Some (proc.isMissed (getProcedureLeg l))
          else Some false) ;;
  Some (lastOrMissedNext
        && geo.status_eqb (geo.status (activeLegResult r)) geo.AFTER_END).

Definition setActiveLeg (r : Route) (value : Z) : option Route :=
  let a := if (value >? 0) && (value <? size r) then value else 1 in
  l1 <- at_ r (a - 1) ;;
  l2 <- at_ r a ;;
  Some (set_active r a (activePos r)
          (distanceMeterToLine (map.pos (activePos r)) (getPosition l1) (getPosition l2))).

End RouteOps.

(** * Vocabulary of the properties *)

Section Vocabulary.

Context {C : Collaborators}.

(** The line-distance result of point [p] against the segment of the leg
    pair [(i - 1, i)]. *)
Definition legLineDistance (r : Route) (p : geo.Pos) (i : Z)
  : option geo.LineDistance :=
  p1 <- getPositionAt r (i - 1) ;;
  p2 <- getPositionAt r i ;;
  Some (distanceMeterToLine p p1 p2).

(** A result that is not classified invalid and whose absolute distance
    is below [m]. *)
Definition valid_below (res : geo.LineDistance) (m : float) : bool :=
  negb (geo.status_eqb (geo.status res) geo.INVALID)
  && fltb (fabs (geo.distance res)) m.

(** The scan state once the pairs [(k - 1, k)] for [k] in [1, j) are
    seen: nothing is kept and no result was valid and below the sentinel,
    or a valid pair is kept and no result seen is valid and closer. *)
Definition scan_upto (r : Route) (p : geo.Pos) (j : Z) (s : NearestScan) : Prop :=
  (index s = map.INVALID_INDEX_VALUE
   /\ crossTrackDistanceMeter s = map.INVALID_DISTANCE_VALUE
   /\ minDistance s = map.INVALID_DISTANCE_VALUE
   /\ forall k res, 1 <= k < j -> legLineDistance r p k = Some res ->
        valid_below res map.INVALID_DISTANCE_VALUE = false)
  \/
  (exists res,
     1 <= index s < j
     /\ legLineDistance r p (index s) = Some res
     /\ valid_below res map.INVALID_DISTANCE_VALUE = true
     /\ crossTrackDistanceMeter s = geo.distance res
     /\ minDistance s = fabs (geo.distance res)
     /\ forall k res', 1 <= k < j -> legLineDistance r p k = Some res' ->
          valid_below res' (fabs (geo.distance res)) = false).

(** The sum, in metres, of the distances of the legs of [ls] up to the
    first leg flagged missed approach, added to [acc]. *)
Fixpoint sumUntilMissed (ls : list RouteLeg) (acc : float) : float :=
  match ls with
  | [] => acc
  | l :: t =>
      if negb (proc.isMissed (getProcedureLeg l))
      then sumUntilMissed t (fadd acc (nmToMeter (getDistanceTo l)))
      else acc
  end.

(** The leg pairs [getNearestRouteLegResult] looks at. *)
Definition considered (r : Route) (ignoreNotEditable : bool) (k : Z) : bool :=
  negb (ignoreNotEditable && negb (canEditLeg r k)).

(** The state of the scan of [getNearestRouteLegResult] once the pairs
    below [j] are seen: [(res, i)] is the sentinel state and no pair
    looked at was valid and below the sentinel distance, or [res] is the
    valid result of the pair [i] and no pair looked at is valid and closer. *)
Definition nearest_upto (r : Route) (p : geo.Pos) (b : bool) (j : Z)
  (s : geo.LineDistance * Z) : Prop :=
  let '(res, i) := s in
  (i = map.INVALID_INDEX_VALUE
   /\ geo.status res = geo.INVALID
   /\ geo.distance res = map.INVALID_DISTANCE_VALUE
   /\ forall k res', 1 <= k < j -> considered r b k = true ->
        legLineDistance r p k = Some res' ->
        valid_below res' (fabs map.INVALID_DISTANCE_VALUE) = false)
  \/
  (1 <= i < j
   /\ considered r b i = true
   /\ legLineDistance r p i = Some res
   /\ valid_below res (fabs map.INVALID_DISTANCE_VALUE) = true
   /\ forall k res', 1 <= k < j -> considered r b k = true ->
        legLineDistance r p k = Some res' ->
        valid_below res' (fabs (geo.distance res)) = false).

(** [result] is the line-distance result of the pair [leg] and no pair
    of the route has a valid result that is closer; or [leg] is the
    sentinel and no pair has a valid result below the sentinel distance. *)
Definition nearest_of_all (r : Route) (p : geo.Pos) (leg : Z)
  (result : geo.LineDistance) : Prop :=
  (leg = map.INVALID_INDEX_VALUE
   /\ forall k res, 1 <= k < size r -> legLineDistance r p k = Some res ->
        valid_below res (fabs map.INVALID_DISTANCE_VALUE) = false)
  \/
  (1 <= leg < size r
   /\ legLineDistance r p leg = Some result
   /\ geo.status result <> geo.INVALID
   /\ forall k res, 1 <= k < size r -> legLineDistance r p k = Some res ->
        valid_below res (fabs (geo.distance result)) = false).

End Vocabulary.

(** What every pass over the legs keeps: the length of the sequence, the
    active leg and the procedure blocks. *)
Definition same_frame (r r' : Route) : Prop :=
  size r' = size r /\ activeLeg r' = activeLeg r
  /\ arrivalLegs r' = arrivalLegs r.

(** The sum, from the first leg on, of the distances of the legs that are
    not flagged missed approach. *)
Definition sumDistances (ls : list RouteLeg) : float :=
  fold_left fadd
    (List.map getDistanceTo
       (filter (fun l => negb (proc.isMissed (getProcedureLeg l))) ls))
    fzero.

(** An arrival procedure exists and the last leg is an airport. *)
Definition endsWithAirportAfterArrival (r : Route) : bool :=
  match at_ r (size r - 1) with
  | Some l => hasAnyArrivalProcedure r && map.type_eqb (getMapObjectType l) map.AIRPORT
  | None => false
  end.

(** The number of legs the accumulation covers: all, or all but the
    trailing airport after an arrival procedure. *)
Definition accumulatedLegs (r : Route) : nat :=
  if endsWithAirportAfterArrival r
  then (length (legs r) - 1)%nat
  else length (legs r).

Section RecomputedLegs.

Context {C : Collaborators}.

(** The legs [ls], which stand at the indexes from [i] on, as the loop of
    [updateDistancesAndCourse] leaves them: each leg recomputed by
    [updateDistanceAndCourse] from its index and the recomputed leg before
    it, the first one from [last]. *)
Fixpoint recomputedLegs (i : Z) (last : option RouteLeg) (ls : list RouteLeg)
  : list RouteLeg :=
  match ls with
  | [] => []
  | l :: t =>
      let leg := updateDistanceAndCourse i last l in
      leg :: recomputedLegs (i + 1) (Some leg) t
  end.

(** The leg [last] points to after these legs. *)
Fixpoint lastRecomputed (i : Z) (last : option RouteLeg) (ls : list RouteLeg)
  : option RouteLeg :=
  match ls with
  | [] => last
  | l :: t => lastRecomputed (i + 1) (Some (updateDistanceAndCourse i last l)) t
  end.

(** The state of the loop of [updateDistancesAndCourse] when the first
    [k] legs are done. *)
Definition recomputedUpto (r : Route) (k : nat) : Route * option RouteLeg :=
  let done := recomputedLegs 0 None (firstn k (legs r)) in
  (set_totalDistance (set_legs r (done ++ skipn k (legs r))) (sumDistances done),
   lastRecomputed 0 None (firstn k (legs r))).

End RecomputedLegs.

(** ** A planar stand-in for the collaborators

    To run the embedding on concrete routes the collaborators are given
    a simple meaning: positions are points of a plane with coordinates in
    metres, a nautical mile is 1852 metres, and the default position holds
    the largest float in both coordinates. *)

Module Planar.

Definition feqb (x y : float) : bool := SFeqb x y.
Definition fleb (x y : float) : bool := SFleb x y.
Definition f1852 : float := Eval vm_compute in f32_of_Z 1852.
Definition fone : float := Eval vm_compute in f32_of_Z 1.
Definition f270 : float := Eval vm_compute in f32_of_Z 270.

Definition P (x y : Z) : geo.Pos :=
  {| geo.lonX := f32_of_Z x; geo.latY := f32_of_Z y; geo.altitude := fzero |}.

Definition Pos_ctor : geo.Pos :=
  {| geo.lonX := FLT_MAX; geo.latY := FLT_MAX; geo.altitude := fzero |}.

Definition Pos_isValid (p : geo.Pos) : bool :=
  negb (feqb (geo.lonX p) FLT_MAX) && negb (feqb (geo.latY p) FLT_MAX).

Definition Pos_eq (p q : geo.Pos) : bool :=
  feqb (geo.lonX p) (geo.lonX q) && feqb (geo.latY p) (geo.latY q).

Definition distanceMeterTo (p q : geo.Pos) : float :=
  let dx := fsub (geo.lonX q) (geo.lonX p) in
  let dy := fsub (geo.latY q) (geo.latY p) in
  fsqrt (fadd (fmul dx dx) (fmul dy dy)).

(** The course of the segment, to the nearest of north, east, south, west. *)
Definition angleDegTo (p q : geo.Pos) : float :=
  let dx := fsub (geo.lonX q) (geo.lonX p) in
  let dy := fsub (geo.latY q) (geo.latY p) in
  if fleb (fabs dy) (fabs dx)
  then if fltb dx fzero then f270 else f90
  else if fltb dy fzero then f180 else fzero.

(** Distance of [p] to the line from [p1] to [p2]: the signed cross-track
    distance when the foot of the perpendicular is on the segment, else the
    distance to the nearer end; invalid for a segment of no length. *)
Definition distanceMeterToLine (p p1 p2 : geo.Pos) : geo.LineDistance :=
  let len := distanceMeterTo p1 p2 in
  let dx := fsub (geo.lonX p2) (geo.lonX p1) in
  let dy := fsub (geo.latY p2) (geo.latY p1) in
  let px := fsub (geo.lonX p) (geo.lonX p1) in
  let py := fsub (geo.latY p) (geo.latY p1) in
  if fltb fzero len
  then
    let along := fdiv (fadd (fmul px dx) (fmul py dy)) len in
    let cross := fdiv (fsub (fmul px dy) (fmul py dx)) len in
    if fltb along fzero
    then {| geo.status := geo.BEFORE_START;
            geo.distance := distanceMeterTo p p1;
            geo.distanceFrom1 := distanceMeterTo p p1;
            geo.distanceFrom2 := distanceMeterTo p p2 |}
    else if fltb len along
    then {| geo.status := geo.AFTER_END;
            geo.distance := distanceMeterTo p p2;
            geo.distanceFrom1 := distanceMeterTo p p1;
            geo.distanceFrom2 := distanceMeterTo p p2 |}
    else {| geo.status := geo.ALONG_TRACK;
            geo.distance := cross;
            geo.distanceFrom1 := along;
            geo.distanceFrom2 := fsub len along |}
  else {| geo.status := geo.INVALID;
          geo.distance := FLT_MAX;
          geo.distanceFrom1 := FLT_MAX;
          geo.distanceFrom2 := FLT_MAX |}.

Definition interpolate (p q : geo.Pos) (fraction : float) : geo.Pos :=
  if fleb fraction fzero then p
  else if fleb fone fraction then q
  else {| geo.lonX := fadd (geo.lonX p) (fmul fraction (fsub (geo.lonX q) (geo.lonX p)));
          geo.latY := fadd (geo.latY p) (fmul fraction (fsub (geo.latY q) (geo.latY p)));
          geo.altitude := geo.altitude p |}.

(** A polyline is measured along its chord. *)
Definition distanceMeterToLineString (ls : geo.LineString) (p : geo.Pos)
  : geo.LineDistance :=
  distanceMeterToLine p (hd Pos_ctor ls) (last ls Pos_ctor).

Definition LineString_interpolate (ls : geo.LineString) (fraction : float) : geo.Pos :=
  interpolate (hd Pos_ctor ls) (last ls Pos_ctor) fraction.

Definition LineDistance_ctor : geo.LineDistance :=
  {| geo.status := geo.INVALID; geo.distance := fzero;
     geo.distanceFrom1 := fzero; geo.distanceFrom2 := fzero |}.

Definition nmToMeter (nm : float) : float := fmul nm f1852.
Definition meterToNm (m : float) : float := fdiv m f1852.

Definition normalizeCourse (c : float) : float :=
  if fltb c fzero then fadd c f360
  else if fleb f360 c then fsub c f360 else c.

(** The remainder for [0 <= a < 2 b]. *)
Definition mod_ (a b : float) : float := if fltb a b then a else fsub a b.

Definition set_distanceTo (l : RouteLeg) (d : float) : RouteLeg :=
  {| getPosition := getPosition l;
     getProcedureLeg := getProcedureLeg l;
     isAnyProcedure := isAnyProcedure l;
     isRoute := isRoute l;
     getMapObjectType := getMapObjectType l;
     getDistanceTo := d;
     getGeometry := getGeometry l;
     getFlightplanEntryIndex := getFlightplanEntryIndex l |}.

(** The distance to a leg is that from its predecessor, in nautical miles. *)
Definition updateDistanceAndCourse (i : Z) (prev : option RouteLeg) (l : RouteLeg)
  : RouteLeg :=
  match prev with
  | None => set_distanceTo l fzero
  | Some q => set_distanceTo l (meterToNm (distanceMeterTo (getPosition q) (getPosition l)))
  end.

Definition fmin (a b : float) : float := if fltb b a then b else a.

Definition fromLineString (ps : list geo.Pos) : geo.Rect :=
  match ps with
  | [] => {| geo.west := fzero; geo.north := fzero; geo.east := fzero; geo.south := fzero |}
  | p :: t =>
      fold_left
        (fun b q =>
           {| geo.west := fmin (geo.west b) (geo.lonX q);
              geo.north := fmax (geo.north b) (geo.latY q);
              geo.east := fmax (geo.east b) (geo.lonX q);
              geo.south := fmin (geo.south b) (geo.latY q) |})
        t
        {| geo.west := geo.lonX p; geo.north := geo.latY p;
           geo.east := geo.lonX p; geo.south := geo.latY p |}
  end.

End Planar.

Definition planar : Collaborators := {|
  Pos_ctor := Planar.Pos_ctor;
  EMPTY_POS := Planar.Pos_ctor;
  Pos_isValid := Planar.Pos_isValid;
  Pos_eq := Planar.Pos_eq;
  distanceMeterTo := Planar.distanceMeterTo;
  angleDegTo := Planar.angleDegTo;
  distanceMeterToLine := Planar.distanceMeterToLine;
  interpolate := Planar.interpolate;
  Line_distanceMeterToLine :=
    fun l p => Planar.distanceMeterToLine p (geo.getPos1 l) (geo.getPos2 l);
  distanceMeterToLineString := Planar.distanceMeterToLineString;
  LineString_interpolate := Planar.LineString_interpolate;
  LineDistance_ctor := Planar.LineDistance_ctor;
  nmToMeter := Planar.nmToMeter;
  meterToNm := Planar.meterToNm;
  normalizeCourse := Planar.normalizeCourse;
  mod_ := Planar.mod_;
  PosCourse_ctor := {| map.pos := Planar.Pos_ctor; map.course := FLT_MAX |};
  PosCourse_isValid := fun pc => Planar.Pos_isValid (map.pos pc);
  updateMagvar_leg := fun l => l;
  updateInvalidMagvar := fun _ _ l => l;
  updateDistanceAndCourse := Planar.updateDistanceAndCourse;
  fromLineString := Planar.fromLineString |}.

(** ** Concrete routes *)

Module Examples.

Definition noLine : geo.Line :=
  {| geo.getPos1 := Planar.Pos_ctor; geo.getPos2 := Planar.Pos_ctor |}.

(** The procedure leg of a leg that belongs to no procedure. *)
Definition noProcedure : proc.MapProcedureLeg :=
  {| proc.type := proc.INVALID_LEG_TYPE;
     proc.isHold := false; proc.isMissed := false;
     proc.isAnyDeparture := false; proc.isAnyStar := false; proc.isArrival := false;
     proc.line := noLine; proc.holdLine := noLine;
     proc.turnDirection := ""%string;
     proc.calculatedDistance := fzero;
     proc.geometry := [] |}.

Definition departureProc : proc.MapProcedureLeg :=
  {| proc.type := proc.OTHER_LEG_TYPE;
     proc.isHold := false; proc.isMissed := false;
     proc.isAnyDeparture := true; proc.isAnyStar := false; proc.isArrival := false;
     proc.line := noLine; proc.holdLine := noLine;
     proc.turnDirection := ""%string;
     proc.calculatedDistance := fzero;
     proc.geometry := [] |}.

Definition starProc : proc.MapProcedureLeg :=
  {| proc.type := proc.OTHER_LEG_TYPE;
     proc.isHold := false; proc.isMissed := false;
     proc.isAnyDeparture := false; proc.isAnyStar := true; proc.isArrival := false;
     proc.line := noLine; proc.holdLine := noLine;
     proc.turnDirection := ""%string;
     proc.calculatedDistance := fzero;
     proc.geometry := [] |}.

(** A holding pattern of an approach, with its fix at [(x, y)]. *)
Definition holdProc (x y : Z) : proc.MapProcedureLeg :=
  {| proc.type := proc.OTHER_LEG_TYPE;
     proc.isHold := true; proc.isMissed := false;
     proc.isAnyDeparture := false; proc.isAnyStar := false; proc.isArrival := true;
     proc.line := {| geo.getPos1 := Planar.P x y; geo.getPos2 := Planar.P x y |};
     proc.holdLine := noLine;
     proc.turnDirection := "R"%string;
     proc.calculatedDistance := fzero;
     proc.geometry := [] |}.

(** A leg of the plain route: an airport, a waypoint and the like. *)
Definition routeLeg (t : map.MapObjectType) (x y : Z) : RouteLeg :=
  {| getPosition := Planar.P x y;
     getProcedureLeg := noProcedure;
     isAnyProcedure := false;
     isRoute := true;
     getMapObjectType := t;
     getDistanceTo := fzero;
     getGeometry := [];
     getFlightplanEntryIndex := 0 |}.

Definition procedureLeg (p : proc.MapProcedureLeg) (x y : Z) : RouteLeg :=
  {| getPosition := Planar.P x y;
     getProcedureLeg := p;
     isAnyProcedure := true;
     isRoute := false;
     getMapObjectType := map.WAYPOINT;
     getDistanceTo := fzero;
     getGeometry := [];
     getFlightplanEntryIndex := 0 |}.

(** A route as it is before the first update: no distances, no offsets,
    no active leg. *)
Definition newRoute (l : list RouteLeg) (dep star arr : proc.MapProcedureLegs) : Route :=
  {| legs := l;
     totalDistance := fzero;
     shownTypes := [map.AIRPORT; map.WAYPOINT; map.MISSED_APPROACH];
     boundingRect := Planar.fromLineString [];
     activePos := {| map.pos := Planar.Pos_ctor; map.course := FLT_MAX |};
     trueCourse := false;
     arrivalLegs := arr; starLegs := star; departureLegs := dep;
     departureLegsOffset := map.INVALID_INDEX_VALUE;
     starLegsOffset := map.INVALID_INDEX_VALUE;
     arrivalLegsOffset := map.INVALID_INDEX_VALUE;
     activeLeg := map.INVALID_INDEX_VALUE;
     activeLegResult :=
       {| geo.status := geo.INVALID;
          geo.distance := map.INVALID_DISTANCE_VALUE;
          geo.distanceFrom1 := map.INVALID_DISTANCE_VALUE;
          geo.distanceFrom2 := map.INVALID_DISTANCE_VALUE |} |}.

Definition sample (x y : Z) (course : Z) : map.PosCourse :=
  {| map.pos := Planar.P x y; map.course := f32_of_Z course |}.

(** Airport A, waypoint B ten nautical miles east of it, airport C ten
    nautical miles north of B. *)
Definition routeABC : Route :=
  newRoute [routeLeg map.AIRPORT 0 0; routeLeg map.WAYPOINT 18520 0;
            routeLeg map.AIRPORT 18520 18520] [] [] [].

(** The point route of airport A. *)
Definition routeA : Route := newRoute [routeLeg map.AIRPORT 0 0] [] [] [].

(** Airport A and airport B ten nautical miles east of it. *)
Definition routeAB : Route :=
  newRoute [routeLeg map.AIRPORT 0 0; routeLeg map.AIRPORT 18520 0] [] [] [].

(** Airport A, one leg D of a departure procedure, waypoint B, airport C,
    on a line eastwards at distances of ten nautical miles. *)
Definition routeSid : Route :=
  newRoute [routeLeg map.AIRPORT 0 0; procedureLeg departureProc 18520 0;
            routeLeg map.WAYPOINT 37040 0; routeLeg map.AIRPORT 55560 0]
    [departureProc] [] [].

(** Airport A, waypoint B, two legs of a STAR, airport C. *)
Definition routeStar : Route :=
  newRoute [routeLeg map.AIRPORT 0 0; routeLeg map.WAYPOINT 18520 0;
            procedureLeg starProc 37040 0; procedureLeg starProc 55560 0;
            routeLeg map.AIRPORT 74080 0]
    [] [starProc; starProc] [].

(** Airport A, waypoint B, a hold H of the approach north of B, airport C. *)
Definition routeHold : Route :=
  newRoute [routeLeg map.AIRPORT 0 0; routeLeg map.WAYPOINT 18520 0;
            procedureLeg (holdProc 18520 18520) 18520 18520;
            routeLeg map.AIRPORT 37040 18520]
    [] [] [holdProc 18520 18520].

Definition missedProc : proc.MapProcedureLeg :=
  {| proc.type := proc.OTHER_LEG_TYPE;
     proc.isHold := false; proc.isMissed := true;
     proc.isAnyDeparture := false; proc.isAnyStar := false; proc.isArrival := true;
     proc.line := noLine; proc.holdLine := noLine;
     proc.turnDirection := ""%string;
     proc.calculatedDistance := fzero;
     proc.geometry := [] |}.

(** Airport A, waypoint B and two legs of a missed approach, on a line
    eastwards at distances of ten nautical miles. *)
Definition routeMissed : Route :=
  newRoute [routeLeg map.AIRPORT 0 0; routeLeg map.WAYPOINT 18520 0;
            procedureLeg missedProc 37040 0; procedureLeg missedProc 55560 0]
    [] [] [missedProc; missedProc].

(** The route after [updateAll]. *)
Definition updated (r : Route) : Route :=
  match @updateAll planar r with
  | Some r' => r'
  | None => r
  end.

Definition routeA_updated : Route := Eval vm_compute in updated routeA.
Definition routeAB_updated : Route := Eval vm_compute in updated routeAB.
Definition routeABC_updated : Route := Eval vm_compute in updated routeABC.
Definition routeSid_updated : Route := Eval vm_compute in updated routeSid.
Definition routeStar_updated : Route := Eval vm_compute in updated routeStar.
Definition routeMissed_updated : Route := Eval vm_compute in updated routeMissed.

(** The route after [updateAll] and one sample. *)
Definition tracked (r : Route) (pos : map.PosCourse) : Route :=
  match @updateActiveLegAndPos planar (updated r) pos with
  | Some r' => r'
  | None => r
  end.

(** On the way from A to B, eight nautical miles from A. *)
Definition routeABC_tracked : Route :=
  Eval vm_compute in tracked routeABC (sample 14816 0 90).

(** Half way from A to B, the hold ahead. *)
Definition routeHold_tracked : Route :=
  Eval vm_compute in tracked routeHold (sample 9260 0 90).

End Examples.

(** * The flight plan, the splicer and the remaining queries *)

(** ** The flight plan of atools *)

Module pln.

(** [atools::fs::pln::entry::WaypointType]; the code names [AIRPORT] and
    [USER]. *)
Inductive WaypointType := UNKNOWN | AIRPORT | INTERSECTION | VOR | NDB | USER.

Definition type_eqb (a b : WaypointType) : bool :=
  match a, b with
  | UNKNOWN, UNKNOWN | AIRPORT, AIRPORT | INTERSECTION, INTERSECTION
  | VOR, VOR | NDB, NDB | USER, USER => true
  | _, _ => false
  end.

(** A flight plan entry, seen through the accessors the code calls. *)
Record FlightplanEntry := {
  getWaypointType : WaypointType;
  getWaypointId : string }.

(** The flight plan: its entries, its properties (a hash of strings) and
    its cruising altitude (an [int]). *)
Record Flightplan := {
  getEntries : list FlightplanEntry;
  getProperties : list (string * string);
  getCruisingAltitude : Z }.

Definition set_entries (f : Flightplan) (e : list FlightplanEntry) : Flightplan :=
  {| getEntries := e; getProperties := getProperties f;
     getCruisingAltitude := getCruisingAltitude f |}.

Definition set_properties (f : Flightplan) (p : list (string * string)) : Flightplan :=
  {| getEntries := getEntries f; getProperties := p;
     getCruisingAltitude := getCruisingAltitude f |}.

Definition isEmpty (f : Flightplan) : bool :=
  match getEntries f with
  | [] => true
  | _ => false
  end.

End pln.

(** ** The route object with its flight plan *)

(** The [Route] object whole: the members of [Route] above and the member
    [flightplan]. *)
Record RouteWithPlan := {
  route : Route;
  flightplan : pln.Flightplan }.

Definition set_route (rp : RouteWithPlan) (r : Route) : RouteWithPlan :=
  {| route := r; flightplan := flightplan rp |}.

Definition set_procedureLegs (r : Route)
  (arr star dep : proc.MapProcedureLegs) : Route :=
  {| legs := legs r; totalDistance := totalDistance r; shownTypes := shownTypes r;
     boundingRect := boundingRect r; activePos := activePos r;
     trueCourse := trueCourse r; arrivalLegs := arr;
     starLegs := star; departureLegs := dep;
     departureLegsOffset := departureLegsOffset r;
     starLegsOffset := starLegsOffset r;
     arrivalLegsOffset := arrivalLegsOffset r;
     activeLeg := activeLeg r; activeLegResult := activeLegResult r |}.

(** ** [QList] and loops downwards *)

Definition zlength {A : Type} (l : list A) : Z := Z.of_nat (length l).

(** [l.at(i)] on any list. *)
Definition list_at {A : Type} (l : list A) (i : Z) : option A :=
  if (0 <=? i) && (i <? zlength l) then nth_error l (Z.to_nat i) else None.

(** [l.removeAt(i)]: nothing is removed for an index out of range. *)
Definition removeAt {A : Type} (l : list A) (i : Z) : list A :=
  if (0 <=? i) && (i <? zlength l)
  then firstn (Z.to_nat i) l ++ skipn (S (Z.to_nat i)) l
  else l.

(** [l.insert(i, x)] for [0 <= i <= size]; an index out of range is an
    assertion failure or a warning, depending on the Qt version, and is
    given no result here. *)
Definition insert {A : Type} (l : list A) (i : Z) (x : A) : option (list A) :=
  if (0 <=? i) && (i <=? zlength l)
  then Some (firstn (Z.to_nat i) l ++ x :: skipn (Z.to_nat i) l)
  else None.

(** [for (int i = from; i >= to; i--) body]. *)
Fixpoint for_down_loop {St : Type} (n : nat) (i : Z)
  (body : Z -> St -> option (St * bool)) (s : St) : option St :=
  match n with
  | O => Some s
  | S n' =>
      match body i s with
      | None => None
      | Some (s', true) => Some s'
      | Some (s', false) => for_down_loop n' (i - 1) body s'
      end
  end.

Definition for_down {St : Type} (from to : Z)
  (body : Z -> St -> option (St * bool)) (s : St) : option St :=
  for_down_loop (Z.to_nat (from - to + 1)) from body s.

(** ** Further collaborators *)

(** What the splicer and the remaining queries call and [route.cpp] does
    not define. *)
Class MoreCollaborators := {
  (** the member [mapType] of a procedure leg, a set of bit flags, and the
      flags of [proc::MapProcedureTypes] *)
  mapType : proc.MapProcedureLeg -> Z;
  PROCEDURE_ALL : Z;
  PROCEDURE_SID : Z;
  PROCEDURE_SID_TRANSITION : Z;
  PROCEDURE_STAR : Z;
  PROCEDURE_STAR_TRANSITION : Z;
  PROCEDURE_TRANSITION : Z;
  PROCEDURE_APPROACH : Z;
  (** [legs.clearApproach()], [legs.clearTransition()] *)
  clearApproach : proc.MapProcedureLegs -> proc.MapProcedureLegs;
  clearTransition : proc.MapProcedureLegs -> proc.MapProcedureLegs;
  (** [ProcedureQuery::clearFlightplanProcedureProperties(properties, type)],
      [ProcedureQuery::extractLegsForFlightplanProperties(properties,
      arrivalLegs, starLegs, departureLegs)], giving the properties *)
  ProcedureQuery_clearFlightplanProcedureProperties :
    list (string * string) -> Z -> list (string * string);
  extractLegsForFlightplanProperties :
    list (string * string) -> proc.MapProcedureLegs -> proc.MapProcedureLegs ->
    proc.MapProcedureLegs -> list (string * string);
  (** [RouteLeg obj(&flightplan); obj.createFromApproachLeg(i, legs, prev)],
      giving [obj]; [prev] is [None] for a null pointer *)
  createFromApproachLeg :
    Z -> proc.MapProcedureLegs -> option RouteLeg -> RouteLeg;
  (** [entryBuilder->buildFlightplanEntry(leg, entry, true)], giving [entry] *)
  buildFlightplanEntry : proc.MapProcedureLeg -> pln.FlightplanEntry;
  (** [QString(USER_WP_ID.match(id).captured(1)).toInt()] for the
      pattern [^WP([0-9]+)$] *)
  userWaypointNumber : string -> Z;
  (** [Unit::rev(x, Unit::altFeetF)], [Unit::rev(x, Unit::distNmF)],
      [OptionData::instance().getRouteTodRule()] *)
  Unit_rev_altFeetF : float -> float;
  Unit_rev_distNmF : float -> float;
  getRouteTodRule : float;
  (** [leg.isValid()], [leg.getDepartureParking().isValid()],
      [leg.getDepartureStart().isValid()],
      [leg.getDepartureStart().helipadNumber] *)
  RouteLeg_isValid : RouteLeg -> bool;
  getDepartureParking_isValid : RouteLeg -> bool;
  getDepartureStart_isValid : RouteLeg -> bool;
  getDepartureStart_helipadNumber : RouteLeg -> Z;
  (** [leg.setFlightplan(&flightplan)] for the flight plan of the route
      object at an address *)
  setFlightplan : nat -> RouteLeg -> RouteLeg }.

Section SplicerOps.

Context {C : Collaborators} {M : MoreCollaborators}.

(** ** User waypoint numbers *)

(** The loop state is [nextNum]. *)
Definition getNextUserWaypointNumber_body (nextNum : Z) (entry : pln.FlightplanEntry) : Z :=
  if pln.type_eqb (pln.getWaypointType entry) pln.USER
  then Z.max (userWaypointNumber (pln.getWaypointId entry)) nextNum
  else nextNum.

Definition getNextUserWaypointNumber (rp : RouteWithPlan) : Z :=
  let nextNum := 0 in
  let nextNum :=
    fold_left getNextUserWaypointNumber_body (pln.getEntries (flightplan rp)) nextNum in
  int_add nextNum 1.

(** ** Top of descent *)

Definition last_ (r : Route) : option RouteLeg := at_ r (size r - 1).

Definition getTopOfDescentFromDestination (rp : RouteWithPlan) : option float :=
  if negb (isEmpty (route rp))
  then
    let cruisingAltitude :=
      Unit_rev_altFeetF (f32_of_Z (pln.getCruisingAltitude (flightplan rp))) in
    l <- last_ (route rp) ;;
    let diff := fsub cruisingAltitude (geo.altitude (getPosition l)) in
    (* Either nm per 1000 something alt or km per 1000 something alt *)
    let distNm := Unit_rev_distNmF getRouteTodRule in
    let altFt := Unit_rev_altFeetF (f32_of_Z 1000) in
    Some (fmul (fdiv diff altFt) distNm)
  else Some fzero.

Definition getTopOfDescentFromStart (rp : RouteWithPlan) : option float :=
  if negb (isEmpty (route rp))
  then
    d <- getTopOfDescentFromDestination rp ;;
    Some (fsub (totalDistance (route rp)) d)
  else Some fzero.

Definition getTopOfDescent (rp : RouteWithPlan) : option geo.Pos :=
  if negb (isEmpty (route rp))
  then
    d <- getTopOfDescentFromStart rp ;;
    positionAtDistance (route rp) d
  else Some EMPTY_POS.

(** ** Departure and destination tests *)

Definition isFlightplanEmpty (rp : RouteWithPlan) : bool :=
  pln.isEmpty (flightplan rp).

(** [a && b] with [b] evaluated only when [a] holds. *)
Definition and_then (a : bool) (b : option bool) : option bool :=
  if a then b else Some false.

Definition hasValidDeparture (rp : RouteWithPlan) : option bool :=
  and_then (negb (pln.isEmpty (flightplan rp)))
    (e <- list_at (pln.getEntries (flightplan rp)) 0 ;;
     and_then (pln.type_eqb (pln.getWaypointType e) pln.AIRPORT)
       (l <- first (route rp) ;; Some (RouteLeg_isValid l))).

Definition hasValidDestination (rp : RouteWithPlan) : option bool :=
  and_then (negb (pln.isEmpty (flightplan rp)))
    (e <- list_at (pln.getEntries (flightplan rp))
            (zlength (pln.getEntries (flightplan rp)) - 1) ;;
     and_then (pln.type_eqb (pln.getWaypointType e) pln.AIRPORT)
       (l <- last_ (route rp) ;; Some (RouteLeg_isValid l))).

Definition hasDepartureParking (rp : RouteWithPlan) : option bool :=
  v <- hasValidDeparture rp ;;
  if v then l <- first (route rp) ;; Some (getDepartureParking_isValid l)
  else Some false.

Definition hasDepartureStart (rp : RouteWithPlan) : option bool :=
  v <- hasValidDeparture rp ;;
  if v then l <- first (route rp) ;; Some (getDepartureStart_isValid l)
  else Some false.

Definition hasDepartureHelipad (rp : RouteWithPlan) : option bool :=
  v <- hasDepartureStart rp ;;
  if v then l <- first (route rp) ;; Some (getDepartureStart_helipadNumber l >? 0)
  else Some false.

Definition hasEntries (rp : RouteWithPlan) : bool :=
  zlength (pln.getEntries (flightplan rp)) >? 2.

Definition canCalcRoute (rp : RouteWithPlan) : bool :=
  zlength (pln.getEntries (flightplan rp)) >=? 2.

(** ** The splicer *)

(** [type & leg.getProcedureLeg().mapType]: any bits overlap. *)
Definition procedureTypeMatches (type : Z) (l : RouteLeg) : bool :=
  negb (Z.land type (mapType (getProcedureLeg l)) =? 0).

(** Collect indexes to delete in reverse order. *)
Definition eraseProcedureLegs_collect (r : Route) (type : Z) (i : Z)
  (indexes : list Z) : option (list Z * bool) :=
  routeLeg <- at_ r i ;;
  if procedureTypeMatches type routeLeg
  then Some (indexes ++ [i], false)
  else Some (indexes, false).

(** Delete in route legs and flight plan from the end. *)
Definition eraseProcedureLegs_remove (indexes : list Z) (i : Z)
  (rp : RouteWithPlan) : option (RouteWithPlan * bool) :=
  idx <- list_at indexes i ;;
  Some ({| route := set_legs (route rp) (removeAt (legs (route rp)) idx);
           flightplan :=
             pln.set_entries (flightplan rp)
               (removeAt (pln.getEntries (flightplan rp)) idx) |}, false).

Definition eraseProcedureLegs (type : Z) (rp : RouteWithPlan) : option RouteWithPlan :=
  indexes <-
    for_down (size (route rp) - 1) 0
      (eraseProcedureLegs_collect (route rp) type) [] ;;
  for_range 0 (zlength indexes) (eraseProcedureLegs_remove indexes) rp.

Definition clearFlightplanProcedureProperties (type : Z) (rp : RouteWithPlan)
  : RouteWithPlan :=
  {| route := route rp;
     flightplan :=
       pln.set_properties (flightplan rp)
         (ProcedureQuery_clearFlightplanProcedureProperties
            (pln.getProperties (flightplan rp)) type) |}.

(** [if (type & flag) legs.clear...()]. *)
Definition clear_if (type flag : Z)
  (clear : proc.MapProcedureLegs -> proc.MapProcedureLegs)
  (l : proc.MapProcedureLegs) : proc.MapProcedureLegs :=
  if negb (Z.land type flag =? 0) then clear l else l.

Definition clearProcedures (type : Z) (rp : RouteWithPlan) : option RouteWithPlan :=
  let r := route rp in
  (* Clear procedure legs *)
  let dep := clear_if type PROCEDURE_SID clearApproach (departureLegs r) in
  let dep := clear_if type PROCEDURE_SID_TRANSITION clearTransition dep in
  let star := clear_if type PROCEDURE_STAR_TRANSITION clearTransition (starLegs r) in
  let star := clear_if type PROCEDURE_STAR clearApproach star in
  let arr := clear_if type PROCEDURE_TRANSITION clearTransition (arrivalLegs r) in
  let arr := clear_if type PROCEDURE_APPROACH clearApproach arr in
  let rp := set_route rp (set_procedureLegs r arr star dep) in
  (* Remove properties from flight plan *)
  let rp := clearFlightplanProcedureProperties type rp in
  (* Remove legs from flight plan and route legs *)
  rp <- eraseProcedureLegs type rp ;;
  r <- updateAll (route rp) ;;
  Some (set_route rp r).

Definition clearAllProcedures (rp : RouteWithPlan) : option RouteWithPlan :=
  clearProcedures PROCEDURE_ALL rp.

(** Create route legs and flight plan entries from departure: one pass of
    the loop over [i] in [0, departureLegs.size()). *)
Definition insertDeparture_body (i : Z) (rp : RouteWithPlan)
  : option (RouteWithPlan * bool) :=
  let r := route rp in
  let insertIndex := 1 + i in
  prev <- at_ r i ;;
  let obj := createFromApproachLeg i (departureLegs r) (Some prev) in
  l <- insert (legs r) insertIndex obj ;;
  procLeg <- list_at (departureLegs r) (insertIndex - 1) ;;
  let entry := buildFlightplanEntry procLeg in
  e <- insert (pln.getEntries (flightplan rp)) insertIndex entry ;;
  Some ({| route := set_legs r l;
           flightplan := pln.set_entries (flightplan rp) e |}, false).

(** Create route legs and flight plan entries from STAR or arrival: one
    pass of the loop over [i] in [0, block.size()) for the [block]. *)
Definition insertBeforeLast_body (block : proc.MapProcedureLegs) (i : Z)
  (rp : RouteWithPlan) : option (RouteWithPlan * bool) :=
  let r := route rp in
  prev <- (if size r >=? 2
           then p <- at_ r (size r - 2) ;; Some (Some p)
           else Some None) ;;
  let obj := createFromApproachLeg i block prev in
  l <- insert (legs r) (size r - 1) obj ;;
  procLeg <- list_at block i ;;
  let entry := buildFlightplanEntry procLeg in
  let entries := pln.getEntries (flightplan rp) in
  e <- insert entries (zlength entries - 1) entry ;;
  Some ({| route := set_legs r l;
           flightplan := pln.set_entries (flightplan rp) e |}, false).

Definition updateProcedureLegs (rp : RouteWithPlan) : option RouteWithPlan :=
  rp <- eraseProcedureLegs PROCEDURE_ALL rp ;;
  let departure := departureLegs (route rp) in
  let star := starLegs (route rp) in
  let arrival := arrivalLegs (route rp) in
  let departureLegsOffset := map.INVALID_INDEX_VALUE in
  let starLegsOffset := map.INVALID_INDEX_VALUE in
  let arrivalLegsOffset := map.INVALID_INDEX_VALUE in
  (* Starts always after departure airport *)
  let departureLegsOffset :=
    if negb (Nat.eqb (length departure) 0) then 1 else departureLegsOffset in
  rp <- for_range 0 (zlength departure) insertDeparture_body rp ;;
  let starLegsOffset :=
    if negb (Nat.eqb (length star) 0) then size (route rp) - 1 else starLegsOffset in
  rp <- for_range 0 (zlength star) (insertBeforeLast_body star) rp ;;
  let arrivalLegsOffset :=
    if negb (Nat.eqb (length arrival) 0) then size (route rp) - 1
    else arrivalLegsOffset in
  rp <- for_range 0 (zlength arrival) (insertBeforeLast_body arrival) rp ;;
  let rp :=
    set_route rp
      (set_offsets (route rp) departureLegsOffset starLegsOffset arrivalLegsOffset) in
  (* Leave procedure information in the PLN file *)
  let rp := clearFlightplanProcedureProperties PROCEDURE_ALL rp in
  Some {| route := route rp;
          flightplan :=
            pln.set_properties (flightplan rp)
              (extractLegsForFlightplanProperties
                 (pln.getProperties (flightplan rp)) arrival star departure) |}.

(** ** The corrected active leg *)

(** The returned leg ([None]: a null pointer) and [*corrected] on return. *)
Definition getActiveLegCorrected (r : Route) (corrected : option bool)
  : option (option RouteLeg * option bool) :=
  '(idx, corrected) <- getActiveLegIndexCorrected r corrected ;;
  if negb (idx =? map.INVALID_INDEX_VALUE)
  then l <- at_ r idx ;; Some (Some l, corrected)
  else Some (None, corrected).

(** ** Copies *)

(** The route objects by address. *)
Definition Heap := list RouteWithPlan.

(** [this->copy(other)] for the objects at the addresses [this] and
    [other], which may be the same: [clear()], then [append(other)], then
    the members, then the flight plan pointers of the legs. *)
Definition copy (h : Heap) (this other : nat) : option Heap :=
  t <- nth_error h this ;;
  (* clear() *)
  let t := set_route t (set_legs (route t) []) in
  let h := list_set h this t in
  (* append(other) *)
  o <- nth_error h other ;;
  let t := set_route t (set_legs (route t) (legs (route t) ++ legs (route o))) in
  let h := list_set h this t in
  (* the members, one after the other, each read from other *)
  o <- nth_error h other ;;
  let r := route t in
  let ro := route o in
  let t :=
    {| route :=
         {| legs := legs r; totalDistance := totalDistance ro;
            shownTypes := shownTypes ro; boundingRect := boundingRect ro;
            activePos := activePos ro; trueCourse := trueCourse ro;
            arrivalLegs := arrivalLegs ro; starLegs := starLegs ro;
            departureLegs := departureLegs ro;
            departureLegsOffset := departureLegsOffset ro;
            starLegsOffset := starLegsOffset ro;
            arrivalLegsOffset := arrivalLegsOffset ro;
            activeLeg := activeLeg ro; activeLegResult := activeLegResult ro |};
       flightplan := flightplan o |} in
  (* Update flightplan pointers to this instance *)
  let t := set_route t (set_legs (route t) (List.map (setFlightplan this) (legs (route t)))) in
  Some (list_set h this t).

(** [*this = other]. *)
Definition assign (h : Heap) (this other : nat) : option Heap := copy h this other.

End SplicerOps.

(** ** Vocabulary of the further properties *)

(** The elements of [l], counted from the index [k], without those at an
    index below [n] that [hit] selects. *)
Fixpoint keep_from {A : Type} (hit : nat -> bool) (n k : nat) (l : list A) : list A :=
  match l with
  | [] => []
  | x :: t =>
      if (k <? n)%nat && hit k
      then keep_from hit n (S k) t
      else x :: keep_from hit n (S k) t
  end.

(** [n] legs made one after the other, the leg [i] from the index [i] and
    the leg made before it, the first from [prev]. *)
Fixpoint chain (mk : Z -> option RouteLeg -> RouteLeg) (i : Z)
  (prev : option RouteLeg) (n : nat) : list RouteLeg :=
  match n with
  | O => []
  | S n' => let l := mk i prev in l :: chain mk (i + 1) (Some l) n'
  end.

(** The last element of [l], or [prev] for the empty list. *)
Definition last_or {A : Type} (prev : option A) (l : list A) : option A :=
  match rev l with
  | x :: _ => Some x
  | [] => prev
  end.

(** The index, counted from [i], of the first leg that satisfies [p], or
    the sentinel. *)
Fixpoint firstIndex (p : RouteLeg -> bool) (i : Z) (ls : list RouteLeg) : Z :=
  match ls with
  | [] => map.INVALID_INDEX_VALUE
  | l :: t => if p l then i else firstIndex p (i + 1) t
  end.

(** The legs with their flight plan entry index set to their position,
    counted from [i]. *)
Fixpoint indexFrom (i : Z) (ls : list RouteLeg) : list RouteLeg :=
  match ls with
  | [] => []
  | l :: t => setFlightplanEntryIndex l i :: indexFrom (i + 1) t
  end.

Section SplicerVocabulary.

Context {M : MoreCollaborators}.

(** The leg at the position [k] of [ls] is one that
    [eraseProcedureLegs(type)] collects. *)
Definition erasedAt (type : Z) (ls : list RouteLeg) (k : nat) : bool :=
  match nth_error ls k with
  | Some l => procedureTypeMatches type l
  | None => false
  end.

(** The legs that [eraseProcedureLegs(type)] does not collect. *)
Definition keptLegs (type : Z) (ls : list RouteLeg) : list RouteLeg :=
  filter (fun l => negb (procedureTypeMatches type l)) ls.

(** The flight plan entries at the positions of the legs that
    [eraseProcedureLegs(type)] does not collect. *)
Definition keptEntries (type : Z) (ls : list RouteLeg)
  (es : list pln.FlightplanEntry) : list pln.FlightplanEntry :=
  keep_from (erasedAt type ls) (length ls) 0 es.

End SplicerVocabulary.

(** The flags of the procedure leg of a route leg that
    [updateIndicesAndOffsets] tests. *)
Definition legIsAnyDeparture (l : RouteLeg) : bool :=
  proc.isAnyDeparture (getProcedureLeg l).
Definition legIsAnyStar (l : RouteLeg) : bool :=
  proc.isAnyStar (getProcedureLeg l).
Definition legIsArrival (l : RouteLeg) : bool :=
  proc.isArrival (getProcedureLeg l).

(** The active leg index put back into bounds for a sequence of [n] legs;
    the sentinel is kept. *)
Definition boundedActiveLeg (a n : Z) : Z :=
  if a <? map.INVALID_INDEX_VALUE then Z.max (Z.min a (n - 1)) 0 else a.

Section SplicerLayout.

Context {M : MoreCollaborators}.

(** The legs made of a block of procedure legs, each from its index in
    the block and the leg before it in the sequence. *)
Definition procedureChain (block : proc.MapProcedureLegs)
  (prev : option RouteLeg) : list RouteLeg :=
  chain (fun i p => createFromApproachLeg i block p) 0 prev (length block).

(** The legs of a block put after the first leg of [ls]. *)
Definition spliceAfterFirst (block : proc.MapProcedureLegs)
  (ls : list RouteLeg) : list RouteLeg :=
  match ls with
  | [] => []
  | b0 :: rest => b0 :: procedureChain block (Some b0) ++ rest
  end.

(** The legs of a block put before the last leg of [ls]. *)
Definition spliceBeforeLast (block : proc.MapProcedureLegs)
  (ls : list RouteLeg) : list RouteLeg :=
  match ls with
  | [] => []
  | x :: _ =>
      removelast ls ++ procedureChain block (last_or None (removelast ls))
        ++ [last ls x]
  end.

(** The flight plan entries of a block put after the first entry and
    before the last entry of [es]. *)
Definition entriesAfterFirst (block : proc.MapProcedureLegs)
  (es : list pln.FlightplanEntry) : list pln.FlightplanEntry :=
  match es with
  | [] => []
  | e0 :: rest => e0 :: List.map buildFlightplanEntry block ++ rest
  end.

Definition entriesBeforeLast (block : proc.MapProcedureLegs)
  (es : list pln.FlightplanEntry) : list pln.FlightplanEntry :=
  match es with
  | [] => []
  | x :: _ =>
      removelast es ++ List.map buildFlightplanEntry block ++ [last es x]
  end.

(** The offset of a block that starts at [start]: the sentinel for an
    empty block. *)
Definition blockOffset (block : proc.MapProcedureLegs) (start : Z) : Z :=
  if negb (Nat.eqb (length block) 0) then start else map.INVALID_INDEX_VALUE.

End SplicerLayout.

(** The leg is not a missed approach leg that the map hides: the tracker
    may move onto it. *)
Definition trackable (r : Route) (next : RouteLeg) : bool :=
  negb (negb (map.has (shownTypes r) map.MISSED_APPROACH)
        && proc.isMissed (getProcedureLeg next)).

(** The pointer is null. *)
Definition isNull {A : Type} (p : option A) : bool :=
  match p with
  | None => true
  | Some _ => false
  end.

(** The value a pointer points to, when it is not null, satisfies [P]. *)
Definition pointsTo {A : Type} (P : A -> Prop) (p : option A) : Prop :=
  match p with
  | None => True
  | Some v => P v
  end.

(** [k] is the index of the first leg of [ls] that satisfies [p], or the
    sentinel when no leg does. *)
Definition firstWith (p : RouteLeg -> bool) (ls : list RouteLeg) (k : Z) : Prop :=
  (k = map.INVALID_INDEX_VALUE /\ forall l, In l ls -> p l = false)
  \/ (exists n l,
        k = Z.of_nat n /\ nth_error ls n = Some l /\ p l = true
        /\ forall j l', (j < n)%nat -> nth_error ls j = Some l' -> p l' = false).

Section SplicerRoundTripVocabulary.

Context {M : MoreCollaborators}.

(** The flight plan entries [es] without those that stand at the place of
    a leg of [ls] that [eraseProcedureLegs(type)] collects, leg and entry
    taken pair by pair. *)
Fixpoint keepBy (type : Z) (ls : list RouteLeg) (es : list pln.FlightplanEntry)
  : list pln.FlightplanEntry :=
  match ls, es with
  | l :: ls', e :: es' =>
      if procedureTypeMatches type l then keepBy type ls' es'
      else e :: keepBy type ls' es'
  | [], _ => es
  | _, [] => []
  end.

(** Every leg made of the block is a procedure leg for
    [eraseProcedureLegs(PROCEDURE_ALL)]. *)
Definition createsProcedureLegs (block : proc.MapProcedureLegs) : Prop :=
  forall i prev,
    0 <= i < zlength block ->
    procedureTypeMatches PROCEDURE_ALL (createFromApproachLeg i block prev) = true.

End SplicerRoundTripVocabulary.

(** ** A stand-in for the further collaborators *)

(** Procedure types as bit flags, flight plan entries named after the
    procedure leg type, user waypoint numbers read off the identifier;
    for running the splicer on concrete routes. *)
Module PlanarMore.

Definition APPROACH : Z := 1.
Definition MISSED : Z := 2.
Definition TRANSITION : Z := 4.
Definition SID : Z := 8.
Definition SID_TRANSITION : Z := 16.
Definition STAR : Z := 32.
Definition STAR_TRANSITION : Z := 64.
Definition ALL : Z := 127.

Definition mapType (p : proc.MapProcedureLeg) : Z :=
  if proc.isAnyDeparture p then SID
  else if proc.isAnyStar p then STAR
  else if proc.isArrival p then (if proc.isMissed p then MISSED else APPROACH)
  else 0.

(** The leg of the procedure leg [i] of [legs], at the end of the line of
    the procedure leg, with the distance from the leg before it. *)
Definition createFromApproachLeg (i : Z) (legs : proc.MapProcedureLegs)
  (prev : option RouteLeg) : RouteLeg :=
  let p := nth (Z.to_nat i) legs Examples.noProcedure in
  let pos := geo.getPos2 (proc.line p) in
  {| getPosition := pos;
     getProcedureLeg := p;
     isAnyProcedure := true;
     isRoute := false;
     getMapObjectType := map.WAYPOINT;
     getDistanceTo :=
       match prev with
       | Some l => Planar.meterToNm (Planar.distanceMeterTo (getPosition l) pos)
       | None => fzero
       end;
     getGeometry := [];
     getFlightplanEntryIndex := 0 |}.

Definition buildFlightplanEntry (p : proc.MapProcedureLeg) : pln.FlightplanEntry :=
  {| pln.getWaypointType := pln.INTERSECTION;
     pln.getWaypointId := if proc.isHold p then "HOLD"%string else "PROC"%string |}.

(** The decimal number that a string of digits writes, if it is one. *)
Fixpoint digits (s : string) (acc : Z) : option Z :=
  match s with
  | EmptyString => Some acc
  | String c t =>
      let n := Z.of_nat (Ascii.nat_of_ascii c) - 48 in
      if (0 <=? n) && (n <=? 9) then digits t (10 * acc + n) else None
  end.

Definition userWaypointNumber (s : string) : Z :=
  match s with
  | String w (String p (String c t)) =>
      if (Nat.eqb (Ascii.nat_of_ascii w) 87) && (Nat.eqb (Ascii.nat_of_ascii p) 80)
      then match digits (String c t) 0 with
           | Some n => n
           | None => 0
           end
      else 0
  | _ => 0
  end.

End PlanarMore.

Definition planarMore : MoreCollaborators := {|
  mapType := PlanarMore.mapType;
  PROCEDURE_ALL := PlanarMore.ALL;
  PROCEDURE_SID := PlanarMore.SID;
  PROCEDURE_SID_TRANSITION := PlanarMore.SID_TRANSITION;
  PROCEDURE_STAR := PlanarMore.STAR;
  PROCEDURE_STAR_TRANSITION := PlanarMore.STAR_TRANSITION;
  PROCEDURE_TRANSITION := PlanarMore.TRANSITION;
  PROCEDURE_APPROACH := PlanarMore.APPROACH;
  clearApproach := fun _ => [];
  clearTransition := fun l => l;
  ProcedureQuery_clearFlightplanProcedureProperties := fun _ _ => [];
  extractLegsForFlightplanProperties := fun p _ _ _ => p;
  createFromApproachLeg := PlanarMore.createFromApproachLeg;
  buildFlightplanEntry := PlanarMore.buildFlightplanEntry;
  userWaypointNumber := PlanarMore.userWaypointNumber;
  Unit_rev_altFeetF := fun x => x;
  Unit_rev_distNmF := fun x => x;
  getRouteTodRule := f32_of_Z 3;
  RouteLeg_isValid := fun l => Planar.Pos_isValid (getPosition l);
  getDepartureParking_isValid := fun _ => false;
  getDepartureStart_isValid :=
    fun l => map.type_eqb (getMapObjectType l) map.AIRPORT;
  getDepartureStart_helipadNumber := fun _ => 0;
  setFlightplan := fun _ l => l |}.

(** ** Concrete routes with their flight plans *)

Module PlanExamples.

Definition airportEntry (id : string) : pln.FlightplanEntry :=
  {| pln.getWaypointType := pln.AIRPORT; pln.getWaypointId := id |}.
Definition userEntry (id : string) : pln.FlightplanEntry :=
  {| pln.getWaypointType := pln.USER; pln.getWaypointId := id |}.
Definition fixEntry (id : string) : pln.FlightplanEntry :=
  {| pln.getWaypointType := pln.INTERSECTION; pln.getWaypointId := id |}.

Definition planOf (entries : list pln.FlightplanEntry) : pln.Flightplan :=
  {| pln.getEntries := entries;
     pln.getProperties := [("sidappr"%string, "D"%string)];
     pln.getCruisingAltitude := 10000 |}.

(** A procedure leg of a block, with the end of its line at [(x, y)]. *)
Definition at_fix (p : proc.MapProcedureLeg) (x y : Z) : proc.MapProcedureLeg :=
  {| proc.type := proc.type p;
     proc.isHold := proc.isHold p; proc.isMissed := proc.isMissed p;
     proc.isAnyDeparture := proc.isAnyDeparture p;
     proc.isAnyStar := proc.isAnyStar p; proc.isArrival := proc.isArrival p;
     proc.line := {| geo.getPos1 := Planar.P x y; geo.getPos2 := Planar.P x y |};
     proc.holdLine := proc.holdLine p;
     proc.turnDirection := proc.turnDirection p;
     proc.calculatedDistance := proc.calculatedDistance p;
     proc.geometry := proc.geometry p |}.

(** The route A, D, B, C with the leg D of a departure procedure, and its
    flight plan with the user waypoint WP3 for B. *)
Definition rpSid : RouteWithPlan :=
  {| route := Examples.routeSid;
     flightplan :=
       planOf [airportEntry "A"; fixEntry "D"; userEntry "WP3"; airportEntry "C"] |}.

(** The route A, B, C without procedure legs yet, with a departure block
    of one leg, a STAR block of two legs and an arrival block of one leg
    chosen, and its flight plan. *)
Definition rpFull : RouteWithPlan :=
  {| route :=
       Examples.newRoute
         [Examples.routeLeg map.AIRPORT 0 0; Examples.routeLeg map.WAYPOINT 37040 0;
          Examples.routeLeg map.AIRPORT 111120 0]
         [at_fix Examples.departureProc 18520 0]
         [at_fix Examples.starProc 55560 0; at_fix Examples.starProc 74080 0]
         [at_fix Examples.missedProc 92600 0];
     flightplan := planOf [airportEntry "A"; userEntry "WP7"; airportEntry "C"] |}.

(** The route A, B of ten nautical miles after [updateAll], its
    destination at the altitude 0, and a flight plan that cruises at
    10000 feet. *)
Definition rpAB : RouteWithPlan :=
  {| route := Examples.routeAB_updated;
     flightplan := planOf [airportEntry "A"; airportEntry "B"] |}.

(** The result of [eraseProcedureLegs(PROCEDURE_ALL)]. *)
Definition erased (rp : RouteWithPlan) : RouteWithPlan :=
  match @eraseProcedureLegs planarMore PlanarMore.ALL rp with
  | Some rp' => rp'
  | None => rp
  end.

Definition rpSid_erased : RouteWithPlan := Eval vm_compute in erased rpSid.

(** Two route objects. *)
Definition heap : Heap := [rpSid; rpFull].

(** Output parameters with [distFromStart] and [distToDest] given. *)
Definition twoOutputs : RouteDistances :=
  {| distFromStart := Some fzero; distToDest := Some fzero;
     nextLegDistance := None; crossTrackDistance := None |}.

End PlanExamples.

(** * Properties *)

(** ** Ints *)

Lemma wrap_int_id (z : Z) : INT_MIN <= z <= INT_MAX -> wrap_int z = z.
Proof.
  unfold wrap_int, INT_MIN, INT_MAX. intros H.
  rewrite Z.mod_small by lia. lia.
Qed.

Lemma int_add_id (a b : Z) : INT_MIN <= a + b <= INT_MAX -> int_add a b = a + b.
Proof. apply wrap_int_id. Qed.

(** ** Floats *)

(** Facts about the order on floats used by the scans below. *)

Lemma compare_cont_Eq (a b : positive) :
  PosDef.Pos.compare_cont Eq a b = Pos.compare a b.
Proof. reflexivity. Qed.

Ltac order_cases :=
  repeat match goal with
    | H : context [Z.compare ?a ?b] |- _ => destruct (Z.compare_spec a b)
    | |- context [Z.compare ?a ?b] => destruct (Z.compare_spec a b)
    | H : context [Pos.compare ?a ?b] |- _ => destruct (Pos.compare_spec a b)
    | |- context [Pos.compare ?a ?b] => destruct (Pos.compare_spec a b)
    end; simpl in *; try discriminate; try lia; try reflexivity.

Lemma fltb_trans (x y z : float) :
  fltb x y = true -> fltb y z = true -> fltb x z = true.
Proof.
  unfold fltb, SFltb.
  destruct x as [sx|sx| |sx mx ex], y as [sy|sy| |sy my ey],
    z as [sz|sz| |sz mz ez]; simpl;
    repeat match goal with s : bool |- _ => destruct s end; simpl;
    try discriminate; try reflexivity; intros Hxy Hyz;
    rewrite ?compare_cont_Eq in *; order_cases.
Qed.

Lemma fltb_abs_lt (x m : float) :
  fltb (fabs x) m = true -> fltb x m = true.
Proof.
  unfold fltb, fabs, SFltb.
  destruct x as [sx|sx| |sx mx ex], m as [sm|sm| |sm mm em]; simpl;
    repeat match goal with s : bool |- _ => destruct s end; simpl;
    try discriminate; try reflexivity; auto.
Qed.

Lemma fltb_irrefl (x : float) : fltb x x = false.
Proof.
  unfold fltb, SFltb.
  destruct x as [sx|sx| |sx mx ex]; simpl; try reflexivity.
  - destruct sx; reflexivity.
  - destruct sx; rewrite Z.compare_refl, compare_cont_Eq, Pos.compare_refl; reflexivity.
Qed.

(** [0.f + d], [d - d] and [+0 / d] for a finite positive [d]. *)
Lemma fadd_zero_l (d : float) : fltb fzero d = true -> fadd fzero d = d.
Proof.
  destruct d as [s|s| |s m e]; simpl; try discriminate; reflexivity.
Qed.

Lemma fsub_diag (s : bool) (m : positive) (e : Z) :
  fsub (S754_finite s m e) (S754_finite s m e) = fzero.
Proof.
  unfold fsub, SFsub. cbv zeta. rewrite Z.sub_diag. reflexivity.
Qed.

(** ** Loop rules *)

Section LoopRules.

Context {St : Type}.
Variable body : Z -> St -> option (St * bool).
Variable Inv : Z -> St -> Prop.
Variable Post : St -> Prop.

(** A [for] loop whose body keeps [Inv], or leaves by [break] in a state
    of [Post], ends without abort in a state of [Post]. *)
Lemma for_loop_rule (n : nat) : forall (i : Z) (s : St),
  Inv i s ->
  (forall j t, i <= j < i + Z.of_nat n -> Inv j t ->
     exists t' b, body j t = Some (t', b) /\
                  (if b : bool then Post t' else Inv (j + 1) t')) ->
  (forall t, Inv (i + Z.of_nat n) t -> Post t) ->
  exists t, for_loop n i body s = Some t /\ Post t.
Proof.
  induction n as [|n IH]; intros i s Hi Hbody Hpost.
  - exists s. split; [reflexivity|]. apply Hpost.
    replace (i + Z.of_nat 0) with i by lia. exact Hi.
  - destruct (Hbody i s ltac:(lia) Hi) as (t' & b & Hb & Ht').
    cbn [for_loop]. rewrite Hb. destruct b.
    + exists t'. split; [reflexivity | exact Ht'].
    + apply IH.
      * exact Ht'.
      * intros j t Hj. apply Hbody. lia.
      * intros t Ht. apply Hpost.
        replace (i + Z.of_nat (S n)) with (i + 1 + Z.of_nat n) by lia. exact Ht.
Qed.

Lemma for_range_rule (from to : Z) (s : St) :
  Inv from s ->
  (forall j t, from <= j < to -> Inv j t ->
     exists t' b, body j t = Some (t', b) /\
                  (if b : bool then Post t' else Inv (j + 1) t')) ->
  (forall t, Inv (Z.max from to) t -> Post t) ->
  exists t, for_range from to body s = Some t /\ Post t.
Proof.
  intros Hi Hbody Hpost. unfold for_range.
  apply for_loop_rule.
  - exact Hi.
  - intros j t Hj. apply Hbody. lia.
  - intros t Ht. apply Hpost.
    replace (Z.max from to) with (from + Z.of_nat (Z.to_nat (to - from))) by lia.
    exact Ht.
Qed.

End LoopRules.

(** ** Indexing *)

Lemma at_Some (r : Route) (i : Z) :
  0 <= i < size r -> exists l, at_ r i = Some l.
Proof.
  intros Hi. unfold at_.
  replace ((0 <=? i) && (i <? size r)) with true
    by (symmetry; apply andb_true_iff; split; [apply Z.leb_le | apply Z.ltb_lt]; lia).
  destruct (nth_error (legs r) (Z.to_nat i)) as [l|] eqn:E.
  - exists l. reflexivity.
  - apply nth_error_None in E. unfold size in Hi. lia.
Qed.

Lemma at_Some_inv (r : Route) (i : Z) (l : RouteLeg) :
  at_ r i = Some l -> 0 <= i < size r /\ nth_error (legs r) (Z.to_nat i) = Some l.
Proof.
  unfold at_. intros H.
  destruct ((0 <=? i) && (i <? size r)) eqn:E; [|discriminate].
  apply andb_true_iff in E. destruct E as [E1 E2].
  apply Z.leb_le in E1. apply Z.ltb_lt in E2. auto.
Qed.

Lemma getPositionAt_Some (r : Route) (i : Z) :
  0 <= i < size r -> exists p, getPositionAt r i = Some p.
Proof.
  intros Hi. unfold getPositionAt.
  destruct (at_Some r i Hi) as [l ->]. eauto.
Qed.

Lemma getPositionAt_Some_inv (r : Route) (i : Z) (p : geo.Pos) :
  getPositionAt r i = Some p -> 0 <= i < size r.
Proof.
  unfold getPositionAt. destruct (at_ r i) as [l|] eqn:E; [|discriminate].
  intros _. eapply at_Some_inv; eauto.
Qed.

Lemma list_set_length {A : Type} (l : list A) (n : nat) (x : A) :
  length (list_set l n x) = length l.
Proof.
  revert n. induction l as [|h t IH]; intros [|n]; simpl; auto.
Qed.

Lemma size_set_at (r : Route) (i : Z) (l : RouteLeg) :
  size (set_at r i l) = size r.
Proof. unfold size, set_at. simpl. rewrite list_set_length. reflexivity. Qed.

(** ** The updater keeps the sequence length and the active leg *)

Section UpdaterFrame.

Context {C : Collaborators}.

Lemma same_frame_refl (r : Route) : same_frame r r.
Proof. repeat split. Qed.

Lemma same_frame_trans (r1 r2 r3 : Route) :
  same_frame r1 r2 -> same_frame r2 r3 -> same_frame r1 r3.
Proof. unfold same_frame. intuition congruence. Qed.

Lemma same_frame_set_at (r : Route) (i : Z) (l : RouteLeg) :
  same_frame r (set_at r i l).
Proof. repeat split. apply size_set_at. Qed.

Lemma updateIndicesAndOffsets_Some (r : Route) :
  exists r', updateIndicesAndOffsets r = Some r'
    /\ size r' = size r
    /\ arrivalLegs r' = arrivalLegs r
    /\ activeLeg r' =
         (if activeLeg r <? map.INVALID_INDEX_VALUE
          then Z.max (Z.min (activeLeg r) (size r - 1)) 0
          else activeLeg r).
Proof.
  unfold updateIndicesAndOffsets.
  set (r0 := set_offsets _ _ _ _).
  assert (H0 : size r0 = size r /\ arrivalLegs r0 = arrivalLegs r /\
               activeLeg r0 = (if activeLeg r <? map.INVALID_INDEX_VALUE
                               then Z.max (Z.min (activeLeg r) (size r - 1)) 0
                               else activeLeg r)).
  { subst r0. destruct (activeLeg r <? map.INVALID_INDEX_VALUE); repeat split. }
  destruct H0 as (Hs & Ha & Hact).
  destruct (for_range_rule updateIndicesAndOffsets_body
              (fun _ t => same_frame r0 t) (fun t => same_frame r0 t)
              0 (size r0) r0) as (t & Ht & Hf).
  - apply same_frame_refl.
  - intros j t Hj (Hsz & Hal & Har).
    destruct (at_Some t j ltac:(lia)) as [l Hl].
    unfold updateIndicesAndOffsets_body. rewrite Hl.
    eexists _, false. split; [reflexivity|].
    repeat split; simpl; try assumption.
    unfold size in *. simpl. rewrite list_set_length. exact Hsz.
  - auto.
  - exists t. destruct Hf as (Hsz & Hal & Har).
    split; [exact Ht|]. repeat split; congruence.
Qed.

Lemma updateMagvar_Some (r : Route) :
  exists r', updateMagvar r = Some r' /\ same_frame r r'.
Proof.
  unfold updateMagvar.
  destruct (for_range_rule
              (fun i r => l <- at_ r i ;; Some (set_at r i (updateMagvar_leg l), false))
              (fun _ t => same_frame r t) (fun t => same_frame r t)
              0 (size r) r) as (t1 & Ht1 & Hf1).
  - apply same_frame_refl.
  - intros j t Hj Hf. destruct Hf as (Hsz & Hrest).
    destruct (at_Some t j ltac:(lia)) as [l Hl]. rewrite Hl.
    eexists _, false. split; [reflexivity|].
    eapply same_frame_trans; [|apply same_frame_set_at]. split; assumption.
  - auto.
  - rewrite Ht1.
    destruct (for_range_rule
                (fun i r => l <- at_ r i ;; Some (set_at r i (updateInvalidMagvar i r l), false))
                (fun _ t => same_frame t1 t) (fun t => same_frame t1 t)
                0 (size t1) t1) as (t2 & Ht2 & Hf2).
    + apply same_frame_refl.
    + intros j t Hj Hf. destruct Hf as (Hsz & Hrest).
      destruct (at_Some t j ltac:(lia)) as [l Hl]. rewrite Hl.
      eexists _, false. split; [reflexivity|].
      eapply same_frame_trans; [|apply same_frame_set_at]. split; assumption.
    + auto.
    + rewrite Ht2. eexists. split; [reflexivity|].
      eapply same_frame_trans; [exact Hf1|].
      eapply same_frame_trans; [exact Hf2|]. repeat split.
Qed.

Lemma isAirportAfterArrival_Some (r : Route) (i : Z) :
  0 <= i < size r -> exists b, isAirportAfterArrival r i = Some b.
Proof.
  intros Hi. unfold isAirportAfterArrival.
  destruct (hasAnyArrivalProcedure r); [|eauto].
  destruct (i =? size r - 1); [|eauto].
  destruct (at_Some r i Hi) as [l ->]. eauto.
Qed.

Lemma updateDistancesAndCourse_Some (r : Route) :
  exists r', updateDistancesAndCourse r = Some r' /\ same_frame r r'.
Proof.
  unfold updateDistancesAndCourse.
  set (r0 := set_totalDistance r fzero).
  destruct (for_range_rule updateDistancesAndCourse_body
              (fun _ s => same_frame r0 (fst s)) (fun s => same_frame r0 (fst s))
              0 (size r0) (r0, None)) as ([t last] & Ht & Hf).
  - apply same_frame_refl.
  - intros j [t last] Hj Hf. simpl in Hf. destruct Hf as (Hsz & Hrest).
    unfold updateDistancesAndCourse_body.
    destruct (isAirportAfterArrival_Some t j ltac:(lia)) as [b ->].
    destruct b.
    + eexists _, true. split; [reflexivity|]. simpl. split; assumption.
    + destruct (at_Some t j ltac:(lia)) as [l ->].
      eexists _, false. split; [reflexivity|]. simpl.
      eapply same_frame_trans; [split; [exact Hsz | exact Hrest]|].
      destruct (negb _).
      * destruct (same_frame_set_at t j (updateDistanceAndCourse j last l)) as (? & ? & ?).
        repeat split; assumption.
      * apply same_frame_set_at.
  - auto.
  - rewrite Ht. eexists. split; [reflexivity|]. exact Hf.
Qed.

Lemma updateAll_Some (r : Route) :
  exists r', updateAll r = Some r'
    /\ size r' = size r
    /\ activeLeg r' =
         (if activeLeg r <? map.INVALID_INDEX_VALUE
          then Z.max (Z.min (activeLeg r) (size r - 1)) 0
          else activeLeg r).
Proof.
  unfold updateAll.
  destruct (updateIndicesAndOffsets_Some r) as (r1 & -> & Hs1 & _ & Ha1).
  destruct (updateMagvar_Some r1) as (r2 & -> & Hs2 & Ha2 & _).
  destruct (updateDistancesAndCourse_Some r2) as (r3 & -> & Hs3 & Ha3 & _).
  eexists. split; [reflexivity|]. unfold updateBoundingRect.
  split.
  - change (size r3 = size r). congruence.
  - change (activeLeg r3 = (if activeLeg r <? map.INVALID_INDEX_VALUE
                            then Z.max (Z.min (activeLeg r) (size r - 1)) 0
                            else activeLeg r)). congruence.
Qed.

End UpdaterFrame.

(** ** The nearest-leg scan *)

Section NearestScanSpec.

Context {C : Collaborators}.

Lemma legLineDistance_Some (r : Route) (p : geo.Pos) (i : Z) :
  1 <= i < size r -> exists res, legLineDistance r p i = Some res.
Proof.
  intros Hi. unfold legLineDistance.
  destruct (getPositionAt_Some r (i - 1) ltac:(lia)) as [p1 ->].
  destruct (getPositionAt_Some r i ltac:(lia)) as [p2 ->]. eauto.
Qed.

Lemma valid_below_trans (res : geo.LineDistance) (a b : float) :
  valid_below res a = true -> fltb a b = true -> valid_below res b = true.
Proof.
  unfold valid_below. intros H Hab.
  apply andb_true_iff in H. destruct H as [H1 H2].
  rewrite H1. simpl. eapply fltb_trans; eauto.
Qed.

Lemma valid_below_self (res : geo.LineDistance) :
  valid_below res (fabs (geo.distance res)) = false.
Proof. unfold valid_below. rewrite fltb_irrefl. apply andb_false_r. Qed.

Lemma nearestAllLegIndex_body_step (r : Route) (pos : map.PosCourse)
  (j : Z) (s : NearestScan) :
  1 <= j < size r -> scan_upto r (map.pos pos) j s ->
  exists s', nearestAllLegIndex_body r pos j s = Some (s', false)
             /\ scan_upto r (map.pos pos) (j + 1) s'.
Proof.
  intros Hj Hs.
  destruct (legLineDistance_Some r (map.pos pos) j Hj) as [res Hres].
  unfold nearestAllLegIndex_body.
  pose proof Hres as Hres'. unfold legLineDistance in Hres'.
  destruct (getPositionAt r (j - 1)) as [p1|]; [|discriminate].
  destruct (getPositionAt r j) as [p2|]; [|discriminate].
  injection Hres' as Hres'. rewrite Hres'.
  change (negb (geo.status_eqb (geo.status res) geo.INVALID)
          && fltb (fabs (geo.distance res)) (minDistance s))
    with (valid_below res (minDistance s)).
  destruct (valid_below res (minDistance s)) eqn:Hv.
  - (* the pair [j] is kept *)
    eexists. split; [reflexivity|]. right. exists res. simpl.
    assert (Hbelow : valid_below res map.INVALID_DISTANCE_VALUE = true).
    { destruct Hs as [(_ & _ & Hm & _) | (res0 & _ & _ & Hv0 & _ & Hm & _)].
      - rewrite Hm in Hv. exact Hv.
      - eapply valid_below_trans; [exact Hv|]. rewrite Hm.
        unfold valid_below in Hv0. apply andb_true_iff in Hv0. apply Hv0. }
    repeat split; try lia; try assumption.
    intros k res' Hk Hk'.
    destruct (Z.eq_dec k j) as [->|Hne].
    + rewrite Hres in Hk'. injection Hk' as <-. apply valid_below_self.
    + destruct (valid_below res' (fabs (geo.distance res))) eqn:Hc; [|reflexivity].
      assert (Hc' : valid_below res' (minDistance s) = true).
      { eapply valid_below_trans; [exact Hc|].
        unfold valid_below in Hv. apply andb_true_iff in Hv. apply Hv. }
      destruct Hs as [(_ & _ & Hm & Hall) | (res0 & _ & _ & _ & _ & Hm & Hall)];
        rewrite Hm in Hc'; rewrite (Hall k res' ltac:(lia) Hk') in Hc'; discriminate.
  - (* the state stays *)
    eexists. split; [reflexivity|].
    destruct Hs as [(Hi & Hc & Hm & Hall) | (res0 & Hi & Hr0 & Hv0 & Hc & Hm & Hall)].
    + left. repeat split; try assumption.
      intros k res' Hk Hk'. destruct (Z.eq_dec k j) as [->|Hne].
      * rewrite Hres in Hk'. injection Hk' as <-. rewrite <- Hm. exact Hv.
      * apply (Hall k res' ltac:(lia) Hk').
    + right. exists res0. repeat split; try lia; try assumption.
      intros k res' Hk Hk'. destruct (Z.eq_dec k j) as [->|Hne].
      * rewrite Hres in Hk'. injection Hk' as <-. rewrite <- Hm. exact Hv.
      * apply (Hall k res' ltac:(lia) Hk').
Qed.

Lemma nearestAllLegIndex_scan_Some (r : Route) (pos : map.PosCourse) :
  exists s, nearestAllLegIndex_scan r pos = Some s
            /\ scan_upto r (map.pos pos) (Z.max 1 (size r)) s.
Proof.
  unfold nearestAllLegIndex_scan.
  apply for_range_rule with (Inv := fun j s => scan_upto r (map.pos pos) j s).
  - left. repeat split. intros k res Hk. lia.
  - intros j t Hj Ht.
    destruct (nearestAllLegIndex_body_step r pos j t Hj Ht) as (s' & Hs' & Hinv).
    exists s', false. split; assumption.
  - auto.
Qed.

Lemma scan_upto_size (r : Route) (p : geo.Pos) (s : NearestScan) :
  scan_upto r p (Z.max 1 (size r)) s -> scan_upto r p (size r) s.
Proof.
  intros [(Hi & Hc & Hm & Hall) | (res & Hi & Hr & Hv & Hc & Hm & Hall)].
  - left. repeat split; try assumption.
    intros k res Hk. apply Hall. lia.
  - right. exists res. repeat split; try lia; try assumption.
    intros k res' Hk. apply Hall. lia.
Qed.

(** The index the scan keeps is the sentinel or that of a leg pair. *)
Lemma scan_upto_index (r : Route) (p : geo.Pos) (s : NearestScan) :
  scan_upto r p (Z.max 1 (size r)) s ->
  index s = map.INVALID_INDEX_VALUE \/ 1 <= index s < size r.
Proof.
  intros [(Hi & _) | (res & Hi & _)]; [left; exact Hi | right; lia].
Qed.

Lemma nearestAllLegIndex_Some (r : Route) (pos : map.PosCourse) :
  exists d i, nearestAllLegIndex r pos = Some (d, i)
    /\ (i = map.INVALID_INDEX_VALUE \/ 1 <= i < size r).
Proof.
  unfold nearestAllLegIndex.
  destruct (negb (PosCourse_isValid pos)); [eauto|].
  destruct (nearestAllLegIndex_scan_Some r pos) as (s & -> & Hs).
  apply scan_upto_index in Hs.
  destruct (fltb _ _); [destruct (fgtb _ _)|]; eauto.
Qed.

End NearestScanSpec.

(** ** The tracker keeps the active leg inside the sequence *)

Section TrackerRange.

Context {C : Collaborators}.

(** A skipping loop over next legs ends, inside the sequence, when its
    condition can only hold two legs before the end. *)
Lemma skip_loop_Some (r : Route) (cond : Z -> option bool) :
  (forall n, 1 <= n < size r ->
     exists b, cond n = Some b /\ (b = true -> n < size r - 2)) ->
  forall (fuel : nat) (n : Z),
    1 <= n < size r -> size r - n <= Z.of_nat fuel ->
    exists m, while_loop fuel cond Z.succ n = Some m /\ n <= m < size r.
Proof.
  intros Hcond. induction fuel as [|fuel IH]; intros n Hn Hfuel; [lia|].
  destruct (Hcond n Hn) as (b & Hb & Hlt).
  cbn [while_loop]. rewrite Hb. destruct b.
  - specialize (Hlt eq_refl).
    destruct (IH (Z.succ n) ltac:(lia) ltac:(lia)) as (m & Hm & Hr).
    exists m. split; [exact Hm | lia].
  - exists n. split; [reflexivity | lia].
Qed.

Lemma skipPoints_cond_Some (r : Route) (n : Z) :
  1 <= n < size r ->
  exists b, skipPoints_cond r n = Some b /\ (b = true -> n < size r - 2).
Proof.
  intros Hn. unfold skipPoints_cond.
  destruct (at_Some r n ltac:(lia)) as [l ->].
  destruct (contains _ _); [|exists false; split; [reflexivity | discriminate]].
  destruct (getPositionAt_Some r (n - 1) ltac:(lia)) as [p1 ->].
  destruct (getPositionAt_Some r n ltac:(lia)) as [p2 ->].
  destruct (Pos_eq p1 p2); [|exists false; split; [reflexivity | discriminate]].
  eexists. split; [reflexivity|]. intros H. apply Z.ltb_lt in H. exact H.
Qed.

Lemma skipFixes_cond_Some (r : Route) (n : Z) :
  1 <= n < size r ->
  exists b, skipFixes_cond r n = Some b /\ (b = true -> n < size r - 2).
Proof.
  intros Hn. unfold skipFixes_cond.
  destruct (at_Some r n ltac:(lia)) as [l ->].
  destruct (contains _ _); [|exists false; split; [reflexivity | discriminate]].
  eexists. split; [reflexivity|]. intros H. apply Z.ltb_lt in H. exact H.
Qed.

(** The candidate next leg exists and lies from the start index on,
    inside the sequence. *)
Lemma candidateNextLeg_Some (r : Route) (active : RouteLeg) (n : Z) :
  1 <= n < size r ->
  exists m, candidateNextLeg r active n = Some m /\ n <= m < size r.
Proof.
  intros Hn. unfold candidateNextLeg.
  destruct (negb _).
  - apply skip_loop_Some; [apply skipPoints_cond_Some | exact Hn |].
    unfold size. lia.
  - apply skip_loop_Some; [apply skipFixes_cond_Some | exact Hn |].
    unfold size. lia.
Qed.

Lemma updateActiveLegAndPos_init_Some (r : Route) (pos : map.PosCourse) :
  1 <= size r -> 0 <= activeLeg r ->
  exists r1, updateActiveLegAndPos_init r pos = Some r1
    /\ legs r1 = legs r /\ shownTypes r1 = shownTypes r
    /\ (if size r =? 1 then activeLeg r1 = 0 else 1 <= activeLeg r1 < size r).
Proof.
  intros Hsize Hact. unfold updateActiveLegAndPos_init.
  assert (H0 : exists a0,
             (if activeLeg r =? map.INVALID_INDEX_VALUE
              then '(_, i) <- nearestAllLegIndex r pos ;; Some i
              else Some (activeLeg r)) = Some a0 /\ 0 <= a0).
  { destruct (activeLeg r =? map.INVALID_INDEX_VALUE).
    - destruct (nearestAllLegIndex_Some r pos) as (d & i & -> & Hi).
      exists i. split; [reflexivity|].
      destruct Hi as [-> | Hi]; [unfold map.INVALID_INDEX_VALUE|]; lia.
    - eauto. }
  destruct H0 as (a0 & -> & Ha0).
  destruct (size r =? 1) eqn:E1.
  - unfold first. destruct (at_Some r 0 ltac:(lia)) as [f ->].
    eexists. split; [reflexivity|]. simpl. auto.
  - apply Z.eqb_neq in E1.
    set (a1 := if a0 >=? size r then size r - 1 else a0).
    set (a2 := if a1 =? 0 then 1 else a1).
    assert (Ha2 : 1 <= a2 < size r).
    { subst a2 a1. destruct (a0 >=? size r) eqn:E2.
      - destruct (size r - 1 =? 0) eqn:E3; [apply Z.eqb_eq in E3|]; lia.
      - assert (a0 < size r) by (rewrite Z.geb_leb in E2; apply Z.leb_gt in E2; lia).
        destruct (a0 =? 0) eqn:E3; [|apply Z.eqb_neq in E3]; lia. }
    destruct (getPositionAt_Some r (a2 - 1) ltac:(lia)) as [p1 ->].
    destruct (getPositionAt_Some r a2 ltac:(lia)) as [p2 ->].
    eexists. split; [reflexivity|]. simpl. auto.
Qed.

(** On a non-empty route and a valid sample the tracker returns, with the
    sequence unchanged and the active leg inside it. *)
Lemma updateActiveLegAndPos_in_range (r : Route) (pos : map.PosCourse) :
  1 <= size r -> PosCourse_isValid pos = true -> 0 <= activeLeg r ->
  exists r2, updateActiveLegAndPos r pos = Some r2
    /\ legs r2 = legs r /\ 0 <= activeLeg r2 <= size r - 1.
Proof.
  intros Hsize Hvalid Hact. unfold updateActiveLegAndPos.
  replace (isEmpty r) with false
    by (symmetry; unfold isEmpty; apply Z.eqb_neq; lia).
  rewrite Hvalid. simpl.
  destruct (updateActiveLegAndPos_init_Some r pos Hsize Hact)
    as (r1 & -> & Hlegs & _ & Ha1).
  assert (Hs1 : size r1 = size r) by (unfold size; rewrite Hlegs; reflexivity).
  assert (Hr1 : 0 <= activeLeg r1 <= size r - 1).
  { destruct (size r =? 1) eqn:E; [apply Z.eqb_eq in E|]; lia. }
  destruct (activeLeg r1 + 1 <? size r1) eqn:Enext.
  2:{ exists r1. auto. }
  apply Z.ltb_lt in Enext.
  destruct (at_Some r1 (activeLeg r1) ltac:(lia)) as [active ->].
  destruct (candidateNextLeg_Some r1 active (activeLeg r1 + 1) ltac:(lia))
    as (m & -> & Hm).
  destruct (getPositionAt_Some r1 (m - 1) ltac:(lia)) as [pos1 ->].
  destruct (getPositionAt_Some r1 m ltac:(lia)) as [pos2 ->].
  destruct (at_Some r1 m ltac:(lia)) as [next ->].
  destruct (switchToNextLeg _ _ _ _ _ _); [|exists r1; auto].
  destruct (negb _); [|exists r1; auto].
  eexists. split; [reflexivity|]. simpl. split; [exact Hlegs | lia].
Qed.

End TrackerRange.

(** C1.  For every non-empty route and every valid position and course
    sample, [updateAll] and then [updateActiveLegAndPos] both return, the
    sequence keeps its length, and the active leg index lies in
    [[0, size - 1]]; already [updateAll] puts an active leg index that was
    valid (below the sentinel) into that range. *)
Theorem updateAll_updateActiveLegAndPos_activeLeg_in_range
  (C : Collaborators) (r : Route) (pos : map.PosCourse) :
  legs r <> [] ->
  PosCourse_isValid pos = true ->
  exists r1 r2,
    updateAll r = Some r1
    /\ (activeLeg r < map.INVALID_INDEX_VALUE -> 0 <= activeLeg r1 <= size r - 1)
    /\ updateActiveLegAndPos r1 pos = Some r2
    /\ size r2 = size r
    /\ 0 <= activeLeg r2 <= size r2 - 1.
Proof.
  intros Hne Hvalid.
  assert (Hsize : 1 <= size r).
  { unfold size. destruct (legs r); [contradiction | simpl; lia]. }
  destruct (updateAll_Some r) as (r1 & Hr1 & Hs1 & Ha1).
  assert (Hact : 0 <= activeLeg r1).
  { rewrite Ha1. destruct (activeLeg r <? map.INVALID_INDEX_VALUE) eqn:E.
    - lia.
    - apply Z.ltb_ge in E. unfold map.INVALID_INDEX_VALUE in E. lia. }
  destruct (updateActiveLegAndPos_in_range r1 pos ltac:(lia) Hvalid Hact)
    as (r2 & Hr2 & Hlegs & Ha2).
  exists r1, r2.
  assert (Hs2 : size r2 = size r1) by (unfold size; rewrite Hlegs; reflexivity).
  split; [exact Hr1|]. split.
  - intros Hlt. apply Z.ltb_lt in Hlt. rewrite Hlt in Ha1. lia.
  - repeat split; try assumption; lia.
Qed.

(** C6.  [nearestAllLegIndex] scans the leg pairs [(i - 1, i)] for [i] in
    [[1, size)] and keeps the pair of least absolute cross-track distance
    among the results that are not classified invalid (and lie below the
    distance sentinel); it returns the kept distance and index, except
    that for an invalid sample, or when the kept absolute distance
    exceeds 100 nautical miles, both are the sentinels.  In particular a
    point further than 100 nautical miles from every segment gets the
    sentinels. *)
Theorem nearestAllLegIndex_keeps_nearest_within_100nm
  (C : Collaborators) (r : Route) (pos : map.PosCourse) :
  exists s,
    nearestAllLegIndex_scan r pos = Some s
    /\ scan_upto r (map.pos pos) (size r) s
    /\ nearestAllLegIndex r pos =
         Some (if negb (PosCourse_isValid pos)
                  || fgtb (fabs (crossTrackDistanceMeter s)) (nmToMeter f100)
               then (map.INVALID_DISTANCE_VALUE, map.INVALID_INDEX_VALUE)
               else (crossTrackDistanceMeter s, index s))
    /\ ((forall k res, 1 <= k < size r ->
           legLineDistance r (map.pos pos) k = Some res ->
           fgtb (fabs (geo.distance res)) (nmToMeter f100) = true) ->
        nearestAllLegIndex r pos =
          Some (map.INVALID_DISTANCE_VALUE, map.INVALID_INDEX_VALUE)).
Proof.
  destruct (nearestAllLegIndex_scan_Some r pos) as (s & Hscan & Hs).
  apply scan_upto_size in Hs.
  exists s. split; [exact Hscan|]. split; [exact Hs|].
  assert (Hres : nearestAllLegIndex r pos =
                 Some (if negb (PosCourse_isValid pos)
                          || fgtb (fabs (crossTrackDistanceMeter s)) (nmToMeter f100)
                       then (map.INVALID_DISTANCE_VALUE, map.INVALID_INDEX_VALUE)
                       else (crossTrackDistanceMeter s, index s))).
  { unfold nearestAllLegIndex. rewrite Hscan.
    destruct (negb (PosCourse_isValid pos)); [reflexivity|]. cbn [orb].
    destruct Hs as [(Hi & Hc & _) | (res & _ & _ & Hv & Hc & _)].
    - rewrite Hc, Hi, fltb_irrefl. destruct (fgtb _ _); reflexivity.
    - unfold valid_below in Hv. apply andb_true_iff in Hv. destruct Hv as [_ Hv].
      apply fltb_abs_lt in Hv. rewrite Hc, Hv. destruct (fgtb _ _); reflexivity. }
  split; [exact Hres|].
  intros Hfar. rewrite Hres. clear Hres.
  destruct (negb (PosCourse_isValid pos)); [reflexivity|]. cbn [orb].
  destruct Hs as [(Hi & Hc & _) | (res & Hi & Hr & _ & Hc & _)].
  - rewrite Hc, Hi. destruct (fgtb _ _); reflexivity.
  - rewrite Hc, (Hfar (index s) res ltac:(lia) Hr). reflexivity.
Qed.

(** C8.  When the active leg is no hold and the candidate next leg is a
    holding pattern, the tracker decides to switch exactly when the
    absolute cross-track distance to the candidate segment is below half a
    nautical mile: the course difference, the classifications and the
    distance to the active leg play no part.  On a route whose active leg
    [a] is valid and has a successor, the update then moves the active leg
    to the candidate [m] exactly in that case, unless the candidate is a
    missed-approach leg that is not shown.  (The size of a [QList] is an
    [int].) *)
Theorem switchToNextLeg_entering_hold
  (C : Collaborators) (r : Route) (pos : map.PosCourse)
  (active next : RouteLeg) (m : Z) (nextLegResult : geo.LineDistance) :
  PosCourse_isValid pos = true ->
  size r <= map.INVALID_INDEX_VALUE ->
  1 <= activeLeg r -> activeLeg r + 1 < size r ->
  at_ r (activeLeg r) = Some active ->
  candidateNextLeg r active (activeLeg r + 1) = Some m ->
  at_ r m = Some next ->
  legLineDistance r (map.pos pos) m = Some nextLegResult ->
  proc.isHold (getProcedureLeg active) = false ->
  proc.isHold (getProcedureLeg next) = true ->
  (forall activePos activeLegResult courseDiff,
     switchToNextLeg active next activePos activeLegResult nextLegResult courseDiff
     = fltb (fabs (geo.distance nextLegResult)) (nmToMeter f0_5))
  /\ exists r', updateActiveLegAndPos r pos = Some r'
       /\ activeLeg r' =
            (if fltb (fabs (geo.distance nextLegResult)) (nmToMeter f0_5)
                && negb (negb (map.has (shownTypes r) map.MISSED_APPROACH)
                         && proc.isMissed (getProcedureLeg next))
             then m else activeLeg r).
Proof.
  intros Hvalid Hint Ha1 Ha2 Hactive Hcand Hnext Hres Hhold1 Hhold2.
  assert (Hdec : forall activePos activeLegResult courseDiff,
             switchToNextLeg active next activePos activeLegResult nextLegResult courseDiff
             = fltb (fabs (geo.distance nextLegResult)) (nmToMeter f0_5)).
  { intros. unfold switchToNextLeg. rewrite Hhold1, Hhold2. reflexivity. }
  split; [exact Hdec|].
  unfold updateActiveLegAndPos.
  replace (isEmpty r) with false
    by (symmetry; unfold isEmpty; apply Z.eqb_neq; lia).
  rewrite Hvalid. simpl.
  unfold updateActiveLegAndPos_init.
  replace (activeLeg r =? map.INVALID_INDEX_VALUE) with false.
  2:{ symmetry. apply Z.eqb_neq. intros E.
      pose proof (at_Some_inv _ _ _ Hactive) as [Hr _]. lia. }
  replace (activeLeg r >=? size r) with false
    by (symmetry; rewrite Z.geb_leb; apply Z.leb_gt; lia).
  replace (size r =? 1) with false by (symmetry; apply Z.eqb_neq; lia).
  replace (activeLeg r =? 0) with false by (symmetry; apply Z.eqb_neq; lia).
  destruct (getPositionAt_Some r (activeLeg r - 1) ltac:(lia)) as [p1 ->].
  destruct (getPositionAt_Some r (activeLeg r) ltac:(lia)) as [p2 ->].
  set (r1 := set_active r (activeLeg r) pos _).
  change (activeLeg r1) with (activeLeg r).
  change (size r1) with (size r).
  change (at_ r1) with (at_ r).
  change (candidateNextLeg r1) with (candidateNextLeg r).
  change (getPositionAt r1) with (getPositionAt r).
  change (shownTypes r1) with (shownTypes r).
  change (map.pos (activePos r1)) with (map.pos pos).
  replace (activeLeg r + 1 <? size r) with true by (symmetry; apply Z.ltb_lt; lia).
  rewrite Hactive, Hcand.
  unfold legLineDistance in Hres.
  destruct (getPositionAt r (m - 1)) as [pos1|]; [|discriminate].
  destruct (getPositionAt r m) as [pos2|]; [|discriminate].
  injection Hres as Hres. rewrite Hres, Hnext, Hdec.
  destruct (fltb _ _); simpl.
  - destruct (negb _); eexists; split; reflexivity.
  - eexists; split; reflexivity.
Qed.

(** ** The distance reporter and the active leg queries *)

Section ReporterSpec.

Context {C : Collaborators}.

Lemma fromstart_loop_Some (r : Route) (activeIsMissed : bool) (n : Z) :
  n <= size r ->
  exists d, for_range 0 n (fromstart_body r activeIsMissed) fzero = Some d.
Proof.
  intros Hn.
  destruct (for_range_rule (fromstart_body r activeIsMissed)
              (fun _ _ => True) (fun _ => True) 0 n fzero) as (d & Hd & _); auto.
  - intros j t Hj _. unfold fromstart_body.
    destruct (at_Some r j ltac:(lia)) as [l ->].
    destruct (_ || _); eexists _, _; (split; [reflexivity|]); exact I.
  - eauto.
Qed.

Lemma missed_loop_Some (r : Route) (n : Z) :
  0 <= n ->
  exists d, for_range n (size r) (missed_body r) fzero = Some d.
Proof.
  intros Hn.
  destruct (for_range_rule (missed_body r)
              (fun _ _ => True) (fun _ => True) n (size r) fzero) as (d & Hd & _); auto.
  - intros j t Hj _. unfold missed_body.
    destruct (at_Some r j ltac:(lia)) as [l ->].
    destruct (proc.isMissed _); eexists _, _; (split; [reflexivity|]); exact I.
  - eauto.
Qed.

(** With an active leg inside the sequence [getRouteDistances] returns true. *)
Lemma getRouteDistances_active (r : Route) (out : RouteDistances) :
  activeLeg r <> map.INVALID_INDEX_VALUE ->
  0 <= activeLeg r < size r ->
  exists out', getRouteDistances r out = Some (true, out').
Proof.
  intros Hne Hr. unfold getRouteDistances.
  replace (activeLeg r =? map.INVALID_INDEX_VALUE) with false
    by (symmetry; apply Z.eqb_neq; exact Hne).
  destruct (at_Some r (activeLeg r) Hr) as [active Hactive].
  cbn [negb].
  replace (activeLeg r >=? size r) with false
    by (symmetry; rewrite Z.geb_leb; apply Z.leb_gt; lia).
  rewrite !Hactive.
  set (geometryLeg := if isAnyProcedure active && _ then _ else _).
  set (out1 := match crossTrackDistance out with None => out | Some _ => _ end).
  assert (Htail : forall d out2,
             exists out',
               (fromstart <- for_range 0 (activeLeg r + 1)
                               (fromstart_body r (proc.isMissed (getProcedureLeg active)))
                               fzero ;;
                let fromstart := fsub fromstart d in
                let fromstart := fabs fromstart in
                let out := set_distFromStart out2 (fmax fromstart fzero) in
                out <-
                  match distToDest out with
                  | None => Some out
                  | Some _ =>
                      if negb (proc.isMissed (getProcedureLeg active))
                      then Some (set_distToDest out
                                   (fmax (fsub (totalDistance r) fromstart) fzero))
                      else
                        d' <- for_range (activeLeg r + 1) (size r) (missed_body r) fzero ;;
                        Some (set_distToDest out (fabs (fadd d' d)))
                  end ;;
                Some (true, out)) = Some (true, out')).
  { intros d out2.
    destruct (fromstart_loop_Some r (proc.isMissed (getProcedureLeg active))
                (activeLeg r + 1) ltac:(lia)) as [fs ->].
    cbv zeta.
    destruct (distToDest _) as [v|]; [|eauto].
    destruct (negb (proc.isMissed (getProcedureLeg active))); [eauto|].
    destruct (missed_loop_Some r (activeLeg r + 1) ltac:(lia)) as [dd ->]. eauto. }
  destruct (negb (proc.isMissed (getProcedureLeg active)) || _).
  - destruct geometryLeg as [g|].
    + apply Htail.
    + destruct (getPositionAt_Some r (activeLeg r) Hr) as [p ->]. apply Htail.
  - apply Htail.
Qed.

End ReporterSpec.

(** C4.  [getRouteDistances] returns false if and only if there is no
    active leg, and then leaves the four output parameters as they were;
    with an active leg (an index of the sequence) it returns true. *)
Theorem getRouteDistances_false_iff_no_active_leg
  (C : Collaborators) (r : Route) (out : RouteDistances) :
  (activeLeg r = map.INVALID_INDEX_VALUE ->
   getRouteDistances r out = Some (false, out))
  /\ (activeLeg r <> map.INVALID_INDEX_VALUE -> 0 <= activeLeg r < size r ->
      exists out', getRouteDistances r out = Some (true, out'))
  /\ (forall b out', getRouteDistances r out = Some (b, out') ->
      (b = false <-> activeLeg r = map.INVALID_INDEX_VALUE)).
Proof.
  assert (H1 : activeLeg r = map.INVALID_INDEX_VALUE ->
               getRouteDistances r out = Some (false, out)).
  { intros E. unfold getRouteDistances. rewrite E. reflexivity. }
  split; [exact H1|]. split; [apply getRouteDistances_active|].
  intros b out' H. split.
  - intros ->.
    destruct (Z.eq_dec (activeLeg r) map.INVALID_INDEX_VALUE) as [E|E]; [exact E|].
    exfalso. revert H. unfold getRouteDistances.
    replace (activeLeg r =? map.INVALID_INDEX_VALUE) with false
      by (symmetry; apply Z.eqb_neq; exact E).
    cbn [negb].
    repeat match goal with
      | |- match ?x with _ => _ end = _ -> _ =>
          match type of x with
          | option _ => destruct x; [|discriminate]
          end
      end.
    discriminate.
  - intros E. rewrite (H1 E) in H. congruence.
Qed.

(** C9 (amended).  On a route of at least two legs [setActiveLeg(i)] sets the active
    leg to [i] when [0 < i < size] and to 1 otherwise, so to an index of
    [[1, size - 1]], and recomputes the active-leg line-distance result of
    the stored sample against the segment [(leg[active - 1], leg[active])];
    nothing else changes. *)
Theorem setActiveLeg_clamps_and_recomputes
  (C : Collaborators) (r : Route) (value : Z) :
  2 <= size r ->
  exists r',
    setActiveLeg r value = Some r'
    /\ activeLeg r' = (if (0 <? value) && (value <? size r) then value else 1)
    /\ 1 <= activeLeg r' <= size r - 1
    /\ legLineDistance r (map.pos (activePos r)) (activeLeg r')
       = Some (activeLegResult r')
    /\ r' = set_active r (activeLeg r') (activePos r) (activeLegResult r').
Proof.
  intros Hsize. unfold setActiveLeg. rewrite Z.gtb_ltb.
  set (a := if (0 <? value) && (value <? size r) then value else 1).
  assert (Ha : 1 <= a <= size r - 1).
  { subst a. destruct ((0 <? value) && (value <? size r)) eqn:E; [|lia].
    apply andb_true_iff in E. destruct E as [E1 E2].
    apply Z.ltb_lt in E1. apply Z.ltb_lt in E2. lia. }
  destruct (at_Some r (a - 1) ltac:(lia)) as [l1 Hl1].
  destruct (at_Some r a ltac:(lia)) as [l2 Hl2].
  rewrite Hl1, Hl2. eexists. split; [reflexivity|]. cbn [activeLeg set_active].
  repeat split; try lia.
  unfold legLineDistance, getPositionAt. rewrite Hl1, Hl2. reflexivity.
Qed.

(** C10.  [getActiveLegIndexCorrected] returns the sentinel, and leaves
    [*corrected] alone, when there is no active leg; otherwise it returns
    exactly [activeLeg] and stores false: the branch that would return
    [activeLeg + 1] and store true is never taken. *)
Theorem getActiveLegIndexCorrected_never_corrects
  (r : Route) (corrected : option bool) :
  getActiveLegIndexCorrected r corrected =
    Some (if activeLeg r =? map.INVALID_INDEX_VALUE
          then (map.INVALID_INDEX_VALUE, corrected)
          else (activeLeg r, store corrected false)).
Proof.
  unfold getActiveLegIndexCorrected.
  destruct (activeLeg r =? map.INVALID_INDEX_VALUE); [reflexivity|].
  destruct (activeLeg r + 1 <? size r) eqn:E1; [|reflexivity].
  destruct (activeLeg r + 1 =? size r) eqn:E2; [|reflexivity].
  apply Z.ltb_lt in E1. apply Z.eqb_eq in E2. lia.
Qed.

(** ** The total distance *)

Lemma sumDistances_snoc (ls : list RouteLeg) (l : RouteLeg) :
  sumDistances (ls ++ [l]) =
    if negb (proc.isMissed (getProcedureLeg l))
    then fadd (sumDistances ls) (getDistanceTo l)
    else sumDistances ls.
Proof.
  unfold sumDistances. rewrite filter_app. simpl.
  destruct (negb (proc.isMissed (getProcedureLeg l))).
  - rewrite map_app, fold_left_app. reflexivity.
  - rewrite app_nil_r. reflexivity.
Qed.

Lemma list_set_app_mid {A : Type} (a b : list A) (x y : A) (k : nat) :
  length a = k -> list_set (a ++ x :: b) k y = a ++ y :: b.
Proof.
  intros <-. induction a as [|h t IH]; cbn; [|rewrite IH]; reflexivity.
Qed.

Lemma firstn_S_snoc {A : Type} (l : list A) :
  forall (k : nat) (x : A),
  nth_error l k = Some x -> firstn (S k) l = firstn k l ++ [x].
Proof.
  induction l as [|h t IH]; intros [|k] x H; cbn in *; try discriminate.
  - injection H as ->. reflexivity.
  - f_equal. apply IH. exact H.
Qed.

Lemma skipn_nth_error {A : Type} (l : list A) (n : nat) (x : A) :
  nth_error l n = Some x -> skipn n l = x :: skipn (S n) l.
Proof.
  revert n. induction l as [|h t IH]; intros [|n] H; simpl in *; try discriminate.
  - injection H as ->. reflexivity.
  - apply IH. exact H.
Qed.

Section TotalDistance.

Context {C : Collaborators}.

Lemma recomputedLegs_length (ls : list RouteLeg) :
  forall i last, length (recomputedLegs i last ls) = length ls.
Proof.
  induction ls as [|l t IH]; intros i last; cbn; [|rewrite IH]; reflexivity.
Qed.

Lemma recomputedLegs_snoc (ls : list RouteLeg) (x : RouteLeg) :
  forall i last,
  recomputedLegs i last (ls ++ [x])
  = recomputedLegs i last ls
      ++ [updateDistanceAndCourse (i + Z.of_nat (length ls))
            (lastRecomputed i last ls) x].
Proof.
  induction ls as [|l t IH]; intros i last.
  - cbn. rewrite Z.add_0_r. reflexivity.
  - cbn [app recomputedLegs lastRecomputed length]. rewrite IH.
    replace (i + 1 + Z.of_nat (length t)) with (i + Z.of_nat (S (length t)))
      by lia.
    reflexivity.
Qed.

Lemma lastRecomputed_snoc (ls : list RouteLeg) (x : RouteLeg) :
  forall i last,
  lastRecomputed i last (ls ++ [x])
  = Some (updateDistanceAndCourse (i + Z.of_nat (length ls))
            (lastRecomputed i last ls) x).
Proof.
  induction ls as [|l t IH]; intros i last.
  - cbn. rewrite Z.add_0_r. reflexivity.
  - cbn [app lastRecomputed length]. rewrite IH.
    replace (i + 1 + Z.of_nat (length t)) with (i + Z.of_nat (S (length t)))
      by lia.
    reflexivity.
Qed.

(** One pass of the loop: it stops at the last leg when this is the
    airport after an arrival procedure, and recomputes the leg otherwise. *)
Lemma updateDistancesAndCourse_body_step (r : Route) (k : nat) (x : RouteLeg) :
  nth_error (legs r) k = Some x ->
  updateDistancesAndCourse_body (Z.of_nat k) (recomputedUpto r k)
  = if hasAnyArrivalProcedure r && (Z.of_nat k =? size r - 1)
       && map.type_eqb (getMapObjectType x) map.AIRPORT
    then Some (recomputedUpto r k, true)
    else Some (recomputedUpto r (S k), false).
Proof.
  intros Hx.
  assert (Hk : (k < length (legs r))%nat) by (apply nth_error_Some; congruence).
  unfold recomputedUpto.
  rewrite (firstn_S_snoc _ _ _ Hx), (skipn_nth_error _ _ _ Hx).
  set (pre := firstn k (legs r)).
  assert (Hpre : length pre = k) by (subst pre; apply firstn_length_le; lia).
  set (done := recomputedLegs 0 None pre).
  assert (Hdone : length done = k)
    by (subst done; rewrite recomputedLegs_length; exact Hpre).
  set (last := lastRecomputed 0 None pre).
  set (t := set_totalDistance
              (set_legs r (done ++ x :: skipn (S k) (legs r)))
              (sumDistances done)).
  assert (Hsize : size t = size r).
  { unfold size. subst t. cbn [legs set_totalDistance set_legs].
    rewrite length_app. cbn [length]. rewrite Hdone, length_skipn. lia. }
  assert (Hat : at_ t (Z.of_nat k) = Some x).
  { unfold at_. rewrite Hsize.
    replace ((0 <=? Z.of_nat k) && (Z.of_nat k <? size r)) with true
      by (symmetry; apply andb_true_iff; split;
          [apply Z.leb_le | apply Z.ltb_lt]; unfold size; lia).
    rewrite Nat2Z.id. subst t. cbn [legs set_totalDistance set_legs].
    rewrite nth_error_app2 by lia. rewrite Hdone, Nat.sub_diag. reflexivity. }
  assert (Htail :
    (let leg := updateDistanceAndCourse (Z.of_nat k) last x in
     let r1 := set_at t (Z.of_nat k) leg in
     let r2 :=
       if negb (proc.isMissed (getProcedureLeg leg))
       then set_totalDistance r1 (fadd (totalDistance r1) (getDistanceTo leg))
       else r1 in
     Some ((r2, Some leg), false))
    = Some ((set_totalDistance
               (set_legs r
                  (recomputedLegs 0 None (pre ++ [x]) ++ skipn (S k) (legs r)))
               (sumDistances (recomputedLegs 0 None (pre ++ [x]))),
             lastRecomputed 0 None (pre ++ [x])), false)).
  { cbv zeta. unfold set_at. subst t.
    cbn [legs set_totalDistance set_legs totalDistance].
    rewrite Nat2Z.id, list_set_app_mid by exact Hdone.
    rewrite recomputedLegs_snoc, lastRecomputed_snoc, Hpre, Z.add_0_l.
    fold done. fold last. rewrite sumDistances_snoc, <- app_assoc.
    cbn [app].
    destruct (negb (proc.isMissed
                      (getProcedureLeg
                         (updateDistanceAndCourse (Z.of_nat k) last x))));
      reflexivity. }
  unfold updateDistancesAndCourse_body, isAirportAfterArrival.
  change (hasAnyArrivalProcedure t) with (hasAnyArrivalProcedure r).
  rewrite Hsize.
  destruct (hasAnyArrivalProcedure r); cbn [andb].
  - destruct (Z.of_nat k =? size r - 1); cbn [andb].
    + rewrite Hat. cbn beta iota.
      destruct (map.type_eqb (getMapObjectType x) map.AIRPORT); [reflexivity|].
      exact Htail.
    + cbn beta iota. rewrite Hat.
      exact Htail.
  - cbn beta iota. rewrite Hat.
    exact Htail.
Qed.

End TotalDistance.

(** C7.  [updateDistancesAndCourse] returns.  It covers every leg, except
    that it stops before the last leg when an arrival procedure exists and
    that leg's map-object type is airport.  Each covered leg is replaced
    by what [updateDistanceAndCourse(i, last)] makes of it, [i] being its
    index and [last] the covered leg before it as it was replaced (the
    null pointer for the first leg).  The total distance is the sum, from
    the first leg on, of the distance-to of the covered legs, as they were
    replaced, that are not flagged missed approach.  The legs that are not
    covered and every other member stay as they were. *)
Theorem updateDistancesAndCourse_total_is_sum
  (C : Collaborators) (r : Route) :
  exists r',
    updateDistancesAndCourse r = Some r'
    /\ legs r'
       = recomputedLegs 0 None (firstn (accumulatedLegs r) (legs r))
           ++ skipn (accumulatedLegs r) (legs r)
    /\ totalDistance r'
       = sumDistances (recomputedLegs 0 None (firstn (accumulatedLegs r) (legs r)))
    /\ r' = set_totalDistance (set_legs r (legs r')) (totalDistance r')
    /\ length (legs r') = length (legs r)
    /\ totalDistance r' = sumDistances (firstn (accumulatedLegs r) (legs r'))
    /\ skipn (accumulatedLegs r) (legs r') = skipn (accumulatedLegs r) (legs r).
Proof.
  assert (Hacc : (accumulatedLegs r <= length (legs r))%nat)
    by (unfold accumulatedLegs; destruct (endsWithAirportAfterArrival r); lia).
  assert (Hrun : exists s,
             for_range 0 (size r) updateDistancesAndCourse_body
               (set_totalDistance r fzero, None) = Some s
             /\ s = recomputedUpto r (accumulatedLegs r)).
  { apply (for_range_rule updateDistancesAndCourse_body
             (fun j s => 0 <= j <= size r
                         /\ s = recomputedUpto r (Z.to_nat j)
                         /\ (j = size r -> endsWithAirportAfterArrival r = false))
             (fun s => s = recomputedUpto r (accumulatedLegs r))).
    - split; [unfold size; lia|]. split.
      + unfold recomputedUpto. cbn [Z.to_nat firstn skipn recomputedLegs
                                     lastRecomputed app].
        destruct r; reflexivity.
      + intros E. unfold endsWithAirportAfterArrival, at_. rewrite <- E.
        reflexivity.
    - intros j s Hj (_ & -> & _).
      destruct (nth_error (legs r) (Z.to_nat j)) as [x|] eqn:Hx;
        [|apply nth_error_None in Hx; unfold size in Hj; lia].
      pose proof (updateDistancesAndCourse_body_step r (Z.to_nat j) x Hx) as Hstep.
      rewrite Z2Nat.id in Hstep by lia. rewrite Hstep.
      destruct (hasAnyArrivalProcedure r && (j =? size r - 1)
                && map.type_eqb (getMapObjectType x) map.AIRPORT) eqn:Estop.
      + eexists _, true. split; [reflexivity|].
        apply andb_true_iff in Estop. destruct Estop as [Estop Etype].
        apply andb_true_iff in Estop. destruct Estop as [Earr Elast].
        apply Z.eqb_eq in Elast.
        assert (Hends : endsWithAirportAfterArrival r = true).
        { unfold endsWithAirportAfterArrival, at_.
          replace ((0 <=? size r - 1) && (size r - 1 <? size r)) with true
            by (symmetry; apply andb_true_iff; split;
                [apply Z.leb_le | apply Z.ltb_lt]; lia).
          rewrite <- Elast, Hx, Earr, Etype. reflexivity. }
        f_equal. unfold accumulatedLegs. rewrite Hends. unfold size in Elast. lia.
      + eexists _, false. split; [reflexivity|].
        split; [lia|]. split; [f_equal; lia|].
        intros E. unfold endsWithAirportAfterArrival, at_.
        replace ((0 <=? size r - 1) && (size r - 1 <? size r)) with true
          by (symmetry; apply andb_true_iff; split;
              [apply Z.leb_le | apply Z.ltb_lt]; lia).
        replace (size r - 1) with j by lia. rewrite Hx.
        replace (j =? size r - 1) with true in Estop
          by (symmetry; apply Z.eqb_eq; lia).
        rewrite andb_true_r in Estop. exact Estop.
    - intros s (_ & -> & Hend).
      replace (Z.max 0 (size r)) with (size r) in * by (unfold size; lia).
      f_equal. unfold accumulatedLegs. rewrite (Hend eq_refl).
      unfold size. lia. }
  destruct Hrun as (s & Hs & ->).
  unfold updateDistancesAndCourse.
  change (size (set_totalDistance r fzero)) with (size r).
  rewrite Hs. unfold recomputedUpto. eexists. split; [reflexivity|].
  cbn [legs totalDistance set_totalDistance set_legs].
  set (n := accumulatedLegs r) in *.
  set (done := recomputedLegs 0 None (firstn n (legs r))).
  assert (Hdone : length done = n).
  { subst done. rewrite recomputedLegs_length. apply firstn_length_le. exact Hacc. }
  split; [reflexivity|]. split; [reflexivity|]. split; [reflexivity|].
  split; [|split].
  - rewrite length_app, Hdone, length_skipn. lia.
  - pose proof (firstn_app (length done) done (skipn n (legs r))) as Hf.
    rewrite Nat.sub_diag, firstn_all in Hf. cbn [firstn] in Hf.
    rewrite app_nil_r, Hdone in Hf. rewrite Hf. reflexivity.
  - pose proof (skipn_app (length done) done (skipn n (legs r))) as Hk.
    rewrite Nat.sub_diag, skipn_all in Hk. cbn [skipn app] in Hk.
    rewrite Hdone in Hk. exact Hk.
Qed.

(** ** Editable legs *)

(** C3 (amended).  When the end of an existing departure block, its
    start offset plus its length, is an [int]: [canEditLeg(i)] is true
    exactly when [i] is not below that end, not above the start offset of
    an existing STAR block and not above the start offset of an existing
    arrival block.  In particular the index equal to the STAR or arrival
    start offset is editable unless another of the three rules excludes
    it. *)
Theorem canEditLeg_true_iff (r : Route) (i : Z) :
  (hasAnyDepartureProcedure r = true ->
   INT_MIN <= departureLegsOffset r + Z.of_nat (length (departureLegs r))
   <= INT_MAX) ->
  (canEditLeg r i = true <->
     (hasAnyDepartureProcedure r = true ->
        departureLegsOffset r + Z.of_nat (length (departureLegs r)) <= i)
     /\ (hasAnyStarProcedure r = true -> i <= starLegsOffset r)
     /\ (hasAnyArrivalProcedure r = true -> i <= arrivalLegsOffset r))
  /\ ((hasAnyDepartureProcedure r = true ->
       departureLegsOffset r + Z.of_nat (length (departureLegs r))
       <= starLegsOffset r) ->
      (hasAnyArrivalProcedure r = true -> starLegsOffset r <= arrivalLegsOffset r) ->
      canEditLeg r (starLegsOffset r) = true)
  /\ ((hasAnyDepartureProcedure r = true ->
       departureLegsOffset r + Z.of_nat (length (departureLegs r))
       <= arrivalLegsOffset r) ->
      (hasAnyStarProcedure r = true -> arrivalLegsOffset r <= starLegsOffset r) ->
      canEditLeg r (arrivalLegsOffset r) = true).
Proof.
  intros Hint.
  assert (Hiff : forall j,
             canEditLeg r j = true <->
             (hasAnyDepartureProcedure r = true ->
                departureLegsOffset r + Z.of_nat (length (departureLegs r)) <= j)
             /\ (hasAnyStarProcedure r = true -> j <= starLegsOffset r)
             /\ (hasAnyArrivalProcedure r = true -> j <= arrivalLegsOffset r)).
  { intros j. unfold canEditLeg. rewrite ?Z.gtb_ltb.
    destruct (hasAnyDepartureProcedure r) eqn:Ed;
      [rewrite (int_add_id _ _ (Hint eq_refl))|];
      destruct (hasAnyStarProcedure r), (hasAnyArrivalProcedure r); cbn [andb];
      repeat match goal with
        | |- context [?a <? ?b] => destruct (Z.ltb_spec a b)
        end;
      (split;
       [ intros Hc; try discriminate Hc;
         repeat split; intros; try discriminate; lia
       | intros (Hd & Hs & Ha); try reflexivity;
         try specialize (Hd eq_refl); try specialize (Hs eq_refl);
         try specialize (Ha eq_refl); lia ]). }
  split; [apply Hiff|]. split.
  - intros Hdep Harr. apply Hiff. repeat split; intros; auto; lia.
  - intros Hdep Hstar. apply Hiff. repeat split; intros; auto; lia.
Qed.

(** ** Position at a distance *)

Lemma fsub_zero_zero : fsub fzero fzero = fzero.
Proof. reflexivity. Qed.

(** For a finite positive [d]: [0 - ((0 + d) - d)] divided by [d] is [+0]. *)
Lemma fraction_at_start (d : float) :
  fltb fzero d = true -> is_finite d = true ->
  fdiv (fsub fzero (fsub (fadd fzero d) d)) d = fzero.
Proof.
  intros Hpos Hfin. rewrite (fadd_zero_l d Hpos).
  destruct d as [s|s| |s m e]; try discriminate.
  destruct s; [discriminate|].
  rewrite fsub_diag, fsub_zero_zero. reflexivity.
Qed.

Lemma fadd_zero_zero (s : bool) : fadd fzero (S754_zero s) = fzero.
Proof. destruct s; reflexivity. Qed.

(** The search of [positionAtDistance(0)] runs over the legs of distance
    zero and stops at the first leg [k] of positive distance. *)
Lemma positionAtDistance_search_start (C : Collaborators) (r : Route) (k : Z)
  (lk : RouteLeg) :
  1 <= k ->
  (forall i li, 1 <= i < k -> at_ r i = Some li ->
     exists s, getDistanceTo li = S754_zero s) ->
  at_ r k = Some lk ->
  fltb fzero (getDistanceTo lk) = true ->
  for_range 0 (size r - 1) (positionAtDistance_body r fzero)
    (fzero, map.INVALID_INDEX_VALUE)
  = Some (getDistanceTo lk, k - 1).
Proof.
  intros Hk Hzero Hlk Hpos.
  pose proof (at_Some_inv _ _ _ Hlk) as [Hrk _].
  destruct (for_range_rule (positionAtDistance_body r fzero)
              (fun j s => j <= k - 1 /\ s = (fzero, map.INVALID_INDEX_VALUE))
              (fun s => s = (getDistanceTo lk, k - 1))
              0 (size r - 1) (fzero, map.INVALID_INDEX_VALUE))
    as (t & Ht & ->).
  - split; [lia | reflexivity].
  - intros j t Hj [Hjk ->]. unfold positionAtDistance_body.
    destruct (Z.eq_dec j (k - 1)) as [->|Hne].
    + replace (k - 1 + 1) with k by lia. rewrite Hlk.
      unfold fgtb. rewrite (fadd_zero_l _ Hpos), Hpos.
      eexists _, true. split; reflexivity.
    + destruct (at_Some r (j + 1) ltac:(lia)) as [li Hli]. rewrite Hli.
      destruct (Hzero (j + 1) li ltac:(lia) Hli) as [s ->].
      rewrite fadd_zero_zero. unfold fgtb. rewrite fltb_irrefl.
      eexists _, false. split; [reflexivity|]. split; [lia | reflexivity].
  - intros t [Hle _]. lia.
  - exact Ht.
Qed.

(** C2 (amended).  [positionAtDistance(d)] returns the empty position for
    every [d] below zero or above the total distance.  On a route whose
    total distance is not negative and whose first leg of non-zero
    distance, the leg [k], has a finite positive distance and a geometry
    of at most two points, [positionAtDistance(0)] is the interpolation at
    fraction 0 from the position of the leg [k - 1] to that of the leg
    [k], which is the position of the leg [k - 1] when the interpolation
    at fraction 0 gives its start: the first leg's position when the
    second leg has a positive distance. *)
Theorem positionAtDistance_bounds_and_start
  (C : Collaborators) (r : Route) (d : float) :
  (fltb d fzero = true \/ fltb (totalDistance r) d = true ->
   positionAtDistance r d = Some EMPTY_POS)
  /\ (forall k lprev lk,
        1 <= k ->
        (forall i li, 1 <= i < k -> at_ r i = Some li ->
           exists s, getDistanceTo li = S754_zero s) ->
        at_ r (k - 1) = Some lprev -> at_ r k = Some lk ->
        fltb fzero (getDistanceTo lk) = true ->
        is_finite (getDistanceTo lk) = true ->
        (Z.of_nat (length (getGeometry lk)) >? 2) = false ->
        fltb (totalDistance r) fzero = false ->
        positionAtDistance r fzero
          = Some (interpolate (getPosition lprev) (getPosition lk) fzero)
        /\ ((forall p q, interpolate p q fzero = p) ->
            positionAtDistance r fzero = Some (getPosition lprev))).
Proof.
  split.
  - intros Hout. unfold positionAtDistance, fgtb.
    destruct Hout as [-> | ->]; [reflexivity | rewrite orb_true_r; reflexivity].
  - intros k lprev lk Hk Hzero Hprev Hlk Hpos Hfin Hgeo Htot.
    assert (Hres : positionAtDistance r fzero
                   = Some (interpolate (getPosition lprev) (getPosition lk) fzero)).
    { unfold positionAtDistance, fgtb. rewrite Htot, fltb_irrefl. cbn [orb].
      rewrite (positionAtDistance_search_start C r k lk Hk Hzero Hlk Hpos).
      pose proof (at_Some_inv _ _ _ Hlk) as [Hrk _].
      replace (k - 1 <? size r - 1) with true by (symmetry; apply Z.ltb_lt; lia).
      replace (k - 1 + 1) with k by lia. rewrite Hlk, Hgeo.
      unfold getPositionAt. rewrite Hprev, Hlk.
      rewrite <- (fadd_zero_l _ Hpos) at 1.
      rewrite (fraction_at_start _ Hpos Hfin). reflexivity. }
    split; [exact Hres|]. intros Hstart. rewrite Hres, Hstart. reflexivity.
Qed.

(** ** Distance from start of a position *)

Section DistanceFromStart.

Context {C : Collaborators}.

Lemma getNearestRouteLegResult_body_step (r : Route) (p : geo.Pos) (b : bool)
  (j : Z) (s : geo.LineDistance * Z) :
  1 <= j < size r -> nearest_upto r p b j s ->
  exists s', getNearestRouteLegResult_body r p b j s = Some (s', false)
             /\ nearest_upto r p b (j + 1) s'.
Proof.
  intros Hj Hs. destruct s as [minResult i].
  unfold getNearestRouteLegResult_body.
  replace (b && negb (canEditLeg r j)) with (negb (considered r b j))
    by (unfold considered; apply negb_involutive).
  destruct (considered r b j) eqn:Hcons; cbn [negb].
  2:{ (* the pair is skipped *)
      eexists. split; [reflexivity|].
      destruct Hs as [(Hi & Hst & Hd & Hall) | (Hi & Hc & Hr & Hv & Hall)].
      - left. repeat split; try assumption.
        intros k res' Hk Hck Hk'. destruct (Z.eq_dec k j) as [->|Hne];
          [congruence | apply (Hall k res' ltac:(lia) Hck Hk')].
      - right. repeat split; try lia; try assumption.
        intros k res' Hk Hck Hk'. destruct (Z.eq_dec k j) as [->|Hne];
          [congruence | apply (Hall k res' ltac:(lia) Hck Hk')]. }
  destruct (legLineDistance_Some r p j Hj) as [res Hres].
  pose proof Hres as Hres'. unfold legLineDistance in Hres'.
  destruct (getPositionAt r (j - 1)) as [p1|]; [|discriminate].
  destruct (getPositionAt r j) as [p2|]; [|discriminate].
  injection Hres' as Hres'. rewrite Hres'.
  change (negb (geo.status_eqb (geo.status res) geo.INVALID)
          && fltb (fabs (geo.distance res)) (fabs (geo.distance minResult)))
    with (valid_below res (fabs (geo.distance minResult))).
  destruct (valid_below res (fabs (geo.distance minResult))) eqn:Hv.
  - (* the pair [j] is kept *)
    eexists. split; [reflexivity|]. right.
    assert (Hbelow : valid_below res (fabs map.INVALID_DISTANCE_VALUE) = true).
    { destruct Hs as [(_ & _ & Hd & _) | (_ & _ & _ & Hv0 & _)].
      - rewrite Hd in Hv. exact Hv.
      - eapply valid_below_trans; [exact Hv|].
        unfold valid_below in Hv0. apply andb_true_iff in Hv0. apply Hv0. }
    repeat split; try lia; try assumption.
    intros k res' Hk Hck Hk'.
    destruct (Z.eq_dec k j) as [->|Hne].
    + rewrite Hres in Hk'. injection Hk' as <-. apply valid_below_self.
    + destruct (valid_below res' (fabs (geo.distance res))) eqn:Hc; [|reflexivity].
      assert (Hc' : valid_below res' (fabs (geo.distance minResult)) = true).
      { eapply valid_below_trans; [exact Hc|].
        unfold valid_below in Hv. apply andb_true_iff in Hv. apply Hv. }
      destruct Hs as [(_ & _ & Hd & Hall) | (_ & _ & _ & _ & Hall)].
      * rewrite Hd in Hc'. rewrite (Hall k res' ltac:(lia) Hck Hk') in Hc'.
        discriminate.
      * rewrite (Hall k res' ltac:(lia) Hck Hk') in Hc'. discriminate.
  - (* the state stays *)
    eexists. split; [reflexivity|].
    destruct Hs as [(Hi & Hst & Hd & Hall) | (Hi & Hc & Hr & Hv0 & Hall)].
    + left. repeat split; try assumption.
      intros k res' Hk Hck Hk'. destruct (Z.eq_dec k j) as [->|Hne].
      * rewrite Hres in Hk'. injection Hk' as <-. rewrite <- Hd. exact Hv.
      * apply (Hall k res' ltac:(lia) Hck Hk').
    + right. repeat split; try lia; try assumption.
      intros k res' Hk Hck Hk'. destruct (Z.eq_dec k j) as [->|Hne].
      * rewrite Hres in Hk'. injection Hk' as <-. exact Hv.
      * apply (Hall k res' ltac:(lia) Hck Hk').
Qed.

(** What [getNearestRouteLegResult] returns: for an invalid position the
    sentinel index and an invalid result; else the state of its scan. *)
Lemma getNearestRouteLegResult_Some (r : Route) (p : geo.Pos)
  (res0 : geo.LineDistance) (b : bool) :
  size r <= map.INVALID_INDEX_VALUE ->
  exists i res,
    getNearestRouteLegResult r p res0 b = Some (i, res)
    /\ (Pos_isValid p = false ->
        i = map.INVALID_INDEX_VALUE /\ geo.status res = geo.INVALID)
    /\ (Pos_isValid p = true -> nearest_upto r p b (Z.max 1 (size r)) (res, i)).
Proof.
  intros Hint. unfold getNearestRouteLegResult.
  destruct (Pos_isValid p) eqn:Hvalid; cbn [negb].
  2:{ eexists _, _. split; [reflexivity|]. split; [auto | discriminate]. }
  destruct (for_range_rule (getNearestRouteLegResult_body r p b)
              (nearest_upto r p b) (nearest_upto r p b (Z.max 1 (size r)))
              1 (size r)
              (set_status_distance LineDistance_ctor geo.INVALID
                 map.INVALID_DISTANCE_VALUE, map.INVALID_INDEX_VALUE))
    as ([res i] & Hloop & Hs).
  - left. repeat split. intros k res' Hk. lia.
  - intros j t Hj Ht.
    destruct (getNearestRouteLegResult_body_step r p b j t Hj Ht) as (s' & Hs' & Hinv).
    exists s', false. split; assumption.
  - auto.
  - rewrite Hloop.
    destruct Hs as [(Hi & Hst & Hd & Hall) | (Hi & Hc & Hr & Hv & Hall)].
    + subst i. rewrite Z.eqb_refl. cbn [negb].
      eexists _, _. split; [reflexivity|]. split; [discriminate|].
      intros _. left. repeat split. exact Hall.
    + replace (i =? map.INVALID_INDEX_VALUE) with false
        by (symmetry; apply Z.eqb_neq; lia).
      cbn [negb]. eexists _, _. split; [reflexivity|]. split; [discriminate|].
      intros _. right. repeat split; try lia; assumption.
Qed.

(** Without the restriction to editable legs the scan ends with the
    nearest of all pairs. *)
Lemma nearest_upto_all (r : Route) (p : geo.Pos) (leg : Z)
  (result : geo.LineDistance) :
  nearest_upto r p false (Z.max 1 (size r)) (result, leg) ->
  nearest_of_all r p leg result.
Proof.
  intros [(Hi & _ & _ & Hall) | (Hi & _ & Hr & Hv & Hall)].
  - left. split; [exact Hi|]. intros k res Hk. apply Hall; [lia | reflexivity].
  - right. repeat split; try lia; try assumption.
    + intros E. unfold valid_below in Hv. rewrite E in Hv. discriminate.
    + intros k res Hk. apply Hall; [lia | reflexivity].
Qed.

(** The summing loop of [getDistanceFromStart] is [sumUntilMissed] over
    the legs it runs through. *)
Lemma getDistanceFromStart_loop (r : Route) (n : nat) : forall (i : Z) (acc : float),
  0 <= i -> i + Z.of_nat n <= size r ->
  for_loop n i (getDistanceFromStart_body r) acc
  = Some (sumUntilMissed (firstn n (skipn (Z.to_nat i) (legs r))) acc).
Proof.
  induction n as [|n IH]; intros i acc Hi Hn; [reflexivity|].
  destruct (at_Some r i ltac:(lia)) as [l Hl].
  cbn [for_loop]. unfold getDistanceFromStart_body at 1. rewrite Hl.
  apply at_Some_inv in Hl. destruct Hl as [_ Hl].
  rewrite (skipn_nth_error _ _ _ Hl). cbn [firstn sumUntilMissed].
  destruct (negb (proc.isMissed (getProcedureLeg l))); [|reflexivity].
  rewrite IH by lia.
  replace (Z.to_nat (i + 1)) with (S (Z.to_nat i)) by lia. reflexivity.
Qed.

End DistanceFromStart.

(** C5 (amended).  [getDistanceFromStart(pos)] locates, by
    [getNearestRouteLegResult] without the restriction to editable legs,
    the nearest segment of all leg pairs: the pair kept is valid and no
    pair of the route, editable or not, is valid and closer.  When a pair
    [leg] is found and its result is classified along-track, it returns,
    converted from metres to nautical miles, the absolute value of the sum
    of the distances of the legs [1 .. leg - 1] up to the first one flagged
    missed approach plus the along-track offset into the segment. *)
Theorem getDistanceFromStart_nearest_of_all_legs
  (C : Collaborators) (r : Route) (pos : geo.Pos) :
  size r <= map.INVALID_INDEX_VALUE ->
  exists leg result,
    getNearestRouteLegResult r pos LineDistance_ctor false = Some (leg, result)
    /\ (Pos_isValid pos = true -> nearest_of_all r pos leg result)
    /\ (leg < map.INVALID_INDEX_VALUE ->
        geo.status result = geo.ALONG_TRACK ->
        getDistanceFromStart r pos =
          Some (meterToNm
                  (fmax (fabs (fadd (sumUntilMissed
                                       (firstn (Z.to_nat (leg - 1)) (tl (legs r)))
                                       fzero)
                                    (geo.distanceFrom1 result)))
                        fzero))).
Proof.
  intros Hint.
  destruct (getNearestRouteLegResult_Some r pos LineDistance_ctor false Hint)
    as (leg & result & Hnear & Hinvalid & Hvalid).
  exists leg, result. split; [exact Hnear|].
  split; [intros Ev; apply nearest_upto_all, Hvalid, Ev|].
  intros Elt Est.
  unfold getDistanceFromStart. rewrite Hnear.
  replace (leg <? map.INVALID_INDEX_VALUE) with true
    by (symmetry; apply Z.ltb_lt; exact Elt).
  rewrite Est. cbn [andb geo.status_eqb].
  assert (Hleg : 1 <= leg < size r).
  { destruct (Pos_isValid pos) eqn:Ev.
    - destruct (Hvalid eq_refl) as [(Hi & _) | (Hi & _)]; lia.
    - destruct (Hinvalid eq_refl) as [_ Hst]. rewrite Hst in Est. discriminate. }
  unfold for_range.
  rewrite (getDistanceFromStart_loop r (Z.to_nat (leg - 1)) 1 fzero) by lia.
  replace (skipn (Z.to_nat 1) (legs r)) with (tl (legs r))
    by (destruct (legs r); reflexivity).
  reflexivity.
Qed.

(** ** Further properties of the updater, the locator and the tracker *)

(** [updateAll] returns on every route: its four passes index only legs of
    the sequence, whose length they keep. *)
Theorem updateAll_returns (C : Collaborators) (r : Route) :
  exists r', updateAll r = Some r' /\ length (legs r') = length (legs r).
Proof.
  destruct (updateAll_Some r) as (r' & Hr' & Hs & _).
  exists r'. split; [exact Hr'|]. unfold size in Hs. lia.
Qed.

(** [nearestAllLegIndex] returns on every route and sample, with the
    sentinel index or the index of the second leg of a leg pair. *)
Theorem nearestAllLegIndex_index_range
  (C : Collaborators) (r : Route) (pos : map.PosCourse) :
  exists d i,
    nearestAllLegIndex r pos = Some (d, i)
    /\ (i = map.INVALID_INDEX_VALUE \/ 1 <= i < size r).
Proof. apply nearestAllLegIndex_Some. Qed.

(** On an empty route or for an invalid sample [updateActiveLegAndPos]
    resets the navigation state to its sentinels. *)
Theorem updateActiveLegAndPos_resets
  (C : Collaborators) (r : Route) (pos : map.PosCourse) :
  legs r = [] \/ PosCourse_isValid pos = false ->
  updateActiveLegAndPos r pos = Some (resetActive r)
  /\ activeLeg (resetActive r) = map.INVALID_INDEX_VALUE
  /\ geo.status (activeLegResult (resetActive r)) = geo.INVALID.
Proof.
  intros H. split; [|split; reflexivity].
  unfold updateActiveLegAndPos, isEmpty, size.
  destruct H as [-> | ->]; [reflexivity | rewrite orb_true_r; reflexivity].
Qed.

(** On a point route (one leg) and a valid sample the active leg is 0, the
    sample is stored and the line-distance result is that against the
    line from the leg's position to itself. *)
Theorem updateActiveLegAndPos_point_route
  (C : Collaborators) (r : Route) (pos : map.PosCourse) (l : RouteLeg) :
  legs r = [l] ->
  PosCourse_isValid pos = true ->
  updateActiveLegAndPos r pos
  = Some (set_active r 0 pos
            (distanceMeterToLine (map.pos pos) (getPosition l) (getPosition l))).
Proof.
  intros Hl Hvalid.
  assert (Hsize : size r = 1) by (unfold size; rewrite Hl; reflexivity).
  unfold updateActiveLegAndPos, isEmpty. rewrite Hsize, Hvalid. cbn [Z.eqb orb negb].
  unfold updateActiveLegAndPos_init. rewrite Hsize. cbn [Z.eqb Pos.eqb].
  assert (Hfirst : first r = Some l)
    by (unfold first, at_; rewrite Hsize, Hl; reflexivity).
  rewrite Hfirst.
  assert (Hlast : forall res,
             (activeLeg (set_active r 0 pos res) + 1 <? size (set_active r 0 pos res))
             = false).
  { intros res. change ((0 + 1 <? size r) = false). rewrite Hsize. reflexivity. }
  destruct (activeLeg r =? map.INVALID_INDEX_VALUE).
  - destruct (nearestAllLegIndex_Some r pos) as (d & i & -> & _).
    rewrite Hlast. reflexivity.
  - rewrite Hlast. reflexivity.
Qed.

(** When [getNearestRouteLegResult] is asked to ignore legs that cannot be
    edited, the index it returns for a valid position is the sentinel or
    that of a leg that can be edited. *)
Theorem getNearestRouteLegResult_editable_only
  (C : Collaborators) (r : Route) (p : geo.Pos) (res0 : geo.LineDistance) :
  size r <= map.INVALID_INDEX_VALUE ->
  Pos_isValid p = true ->
  exists i res,
    getNearestRouteLegResult r p res0 true = Some (i, res)
    /\ (i = map.INVALID_INDEX_VALUE
        \/ (1 <= i < size r /\ canEditLeg r i = true
            /\ legLineDistance r p i = Some res)).
Proof.
  intros Hint Hvalid.
  destruct (getNearestRouteLegResult_Some r p res0 true Hint)
    as (i & res & Hres & _ & Hscan).
  exists i, res. split; [exact Hres|].
  destruct (Hscan Hvalid) as [(Hi & _) | (Hi & Hc & Hr & _)]; [left; exact Hi|].
  right. repeat split; try lia; try assumption.
  unfold considered in Hc. cbn [andb] in Hc.
  rewrite negb_involutive in Hc. exact Hc.
Qed.

(** ** Runs on concrete routes *)

Section Runs.

#[local] Existing Instance planar.

(** The route A, B, C and a sample on the way from A to B. *)
Lemma updateAll_updateActiveLegAndPos_activeLeg_in_range_witness :
  exists r1 r2,
    @updateAll planar Examples.routeABC = Some r1
    /\ (activeLeg Examples.routeABC < map.INVALID_INDEX_VALUE ->
        0 <= activeLeg r1 <= size Examples.routeABC - 1)
    /\ @updateActiveLegAndPos planar r1 (Examples.sample 14816 0 90) = Some r2
    /\ size r2 = size Examples.routeABC
    /\ 0 <= activeLeg r2 <= size r2 - 1.
Proof.
  apply (updateAll_updateActiveLegAndPos_activeLeg_in_range planar
           Examples.routeABC (Examples.sample 14816 0 90)).
  - discriminate.
  - reflexivity.
Defined.

(** On the point route of A no position is found for the distance 0, and
    on the route A, B, of ten nautical miles, none for the total distance:
    both calls return the default-constructed position, which is invalid
    and differs from the position of the first and of the last leg. *)
Lemma positionAtDistance_counterexample :
  (@positionAtDistance planar Examples.routeA_updated fzero = Some Planar.Pos_ctor
   /\ @first Examples.routeA_updated = Some (Examples.routeLeg map.AIRPORT 0 0)
   /\ Planar.Pos_ctor <> getPosition (Examples.routeLeg map.AIRPORT 0 0))
  /\ (totalDistance Examples.routeAB_updated = f10
      /\ @positionAtDistance planar Examples.routeAB_updated f10 = Some Planar.Pos_ctor
      /\ getPositionAt Examples.routeAB_updated (size Examples.routeAB_updated - 1)
         = Some (Planar.P 18520 0)
      /\ Planar.Pos_ctor <> Planar.P 18520 0
      /\ Planar.Pos_isValid Planar.Pos_ctor = false).
Proof.
  repeat split; try reflexivity; discriminate.
Qed.

(** On the route A, B of ten nautical miles the position at distance 0 is
    that of A. *)
Lemma positionAtDistance_bounds_and_start_witness :
  @positionAtDistance planar Examples.routeAB_updated fzero = Some (Planar.P 0 0).
Proof.
  destruct (positionAtDistance_bounds_and_start planar Examples.routeAB_updated fzero)
    as [_ Hstart].
  edestruct (Hstart 1) as [_ Hfirst].
  - reflexivity.
  - intros i li Hi. exfalso. lia.
  - reflexivity.
  - reflexivity.
  - reflexivity.
  - reflexivity.
  - reflexivity.
  - reflexivity.
  - rewrite Hfirst; [reflexivity|]. intros p q. reflexivity.
Defined.

(** After [updateAll] the STAR of the route A, B, S1, S2, C starts at
    index 2, and the leg at index 2 can be edited; the departure procedure
    of the route A, D, B, C is the leg at index 1, and the leg at index 0,
    which is outside of it, cannot be edited. *)
Lemma canEditLeg_counterexample :
  (@updateAll planar Examples.routeStar = Some Examples.routeStar_updated
   /\ hasAnyStarProcedure Examples.routeStar_updated = true
   /\ starLegsOffset Examples.routeStar_updated = 2
   /\ canEditLeg Examples.routeStar_updated 2 = true)
  /\ (@updateAll planar Examples.routeSid = Some Examples.routeSid_updated
      /\ departureLegsOffset Examples.routeSid_updated = 1
      /\ length (departureLegs Examples.routeSid_updated) = 1%nat
      /\ hasAnyStarProcedure Examples.routeSid_updated = false
      /\ hasAnyArrivalProcedure Examples.routeSid_updated = false
      /\ canEditLeg Examples.routeSid_updated 0 = false).
Proof.
  repeat split; vm_compute; reflexivity.
Qed.

(** The route A, D, B, C after [updateAll]: the departure block ends at
    index 2, and the leg at index 2 can be edited. *)
Lemma canEditLeg_true_iff_witness :
  departureLegsOffset Examples.routeSid_updated
  + Z.of_nat (length (departureLegs Examples.routeSid_updated)) = 2
  /\ canEditLeg Examples.routeSid_updated 2 = true.
Proof.
  split; [reflexivity|].
  destruct (canEditLeg_true_iff Examples.routeSid_updated 2) as [Hiff _].
  - intros _. vm_compute. split; discriminate.
  - apply Hiff. repeat split; intros H; vm_compute; vm_compute in H;
      discriminate.
Defined.

(** On the route A, D, B, C the point half way from A to D is nearest
    to the pair [(0, 1)], which cannot be edited; the nearest pair that can
    be edited is [(1, 2)], before whose start the point lies; the distance
    from start is five nautical miles, taken from the pair [(0, 1)].  On
    the route A, B, M1, M2 the point half way from M1 to M2 gets fifteen
    nautical miles, the ten of the leg from B to M1 left out. *)
Lemma getDistanceFromStart_counterexample :
  (exists res res',
      @getNearestRouteLegResult planar Examples.routeSid_updated (Planar.P 9260 0)
        Planar.LineDistance_ctor false = Some (1, res)
      /\ canEditLeg Examples.routeSid_updated 1 = false
      /\ @getNearestRouteLegResult planar Examples.routeSid_updated (Planar.P 9260 0)
           Planar.LineDistance_ctor true = Some (2, res')
      /\ geo.status res' = geo.BEFORE_START
      /\ @getDistanceFromStart planar Examples.routeSid_updated (Planar.P 9260 0)
         = Some (f32_of_Z 5)
      /\ f32_of_Z 5 <> map.INVALID_DISTANCE_VALUE)
  /\ (exists res,
        @getNearestRouteLegResult planar Examples.routeMissed_updated (Planar.P 46300 0)
          Planar.LineDistance_ctor false = Some (3, res)
        /\ geo.status res = geo.ALONG_TRACK
        /\ List.map getDistanceTo (legs Examples.routeMissed_updated)
           = [fzero; f10; f10; f10]
        /\ geo.distanceFrom1 res = Planar.nmToMeter (f32_of_Z 5)
        /\ @getDistanceFromStart planar Examples.routeMissed_updated (Planar.P 46300 0)
           = Some (f32_of_Z 15)
        /\ f32_of_Z 15 <> f32_of_Z 25).
Proof.
  split.
  - eexists _, _. repeat split; try (vm_compute; reflexivity). discriminate.
  - eexists. repeat split; try (vm_compute; reflexivity). discriminate.
Qed.

(** The route A, D, B, C, of ten nautical miles a leg, and the point half
    way from B to C: the nearest pair is the pair [(2, 3)], the sum runs
    over the legs 1 and 2, and the distance from start is 25 nautical
    miles. *)
Lemma getDistanceFromStart_nearest_of_all_legs_witness :
  size Examples.routeSid_updated <= map.INVALID_INDEX_VALUE
  /\ List.map getDistanceTo (legs Examples.routeSid_updated)
     = [fzero; f10; f10; f10]
  /\ exists result,
       @getNearestRouteLegResult planar Examples.routeSid_updated (Planar.P 46300 0)
         LineDistance_ctor false = Some (3, result)
       /\ geo.status result = geo.ALONG_TRACK
       /\ geo.distanceFrom1 result = Planar.nmToMeter (f32_of_Z 5)
       /\ @getDistanceFromStart planar Examples.routeSid_updated (Planar.P 46300 0)
          = Some (f32_of_Z 25).
Proof.
  assert (H : size Examples.routeSid_updated <= map.INVALID_INDEX_VALUE)
    by (vm_compute; discriminate).
  split; [exact H|]. split; [reflexivity|].
  destruct (getDistanceFromStart_nearest_of_all_legs planar
              Examples.routeSid_updated (Planar.P 46300 0) H)
    as (leg & result & Hnear & _ & Hdist).
  vm_compute in Hnear. injection Hnear as Hleg Hres. subst leg result.
  eexists. split; [vm_compute; reflexivity|].
  split; [reflexivity|]. split; [vm_compute; reflexivity|].
  rewrite Hdist; [vm_compute; reflexivity | vm_compute; reflexivity | reflexivity].
Defined.

(** The route A, B, H, C with the active leg from A to B, and a sample
    500 metres beside the segment from B to the hold H: the hold becomes
    the active leg. *)
Lemma switchToNextLeg_entering_hold_witness :
  activeLeg Examples.routeHold_tracked = 1
  /\ exists r',
       @updateActiveLegAndPos planar Examples.routeHold_tracked
         (Examples.sample 18020 100 90) = Some r'
       /\ activeLeg r' = 2.
Proof.
  split; [reflexivity|].
  edestruct (switchToNextLeg_entering_hold planar Examples.routeHold_tracked
               (Examples.sample 18020 100 90)) as [_ (r' & Hr' & Ha)].
  - reflexivity.
  - vm_compute. discriminate.
  - vm_compute. discriminate.
  - vm_compute. reflexivity.
  - vm_compute. reflexivity.
  - vm_compute. reflexivity.
  - vm_compute. reflexivity.
  - vm_compute. reflexivity.
  - reflexivity.
  - reflexivity.
  - exists r'. split; [exact Hr'|]. rewrite Ha. reflexivity.
Defined.

(** On the point route of A there is no index in [[1, size - 1]], and
    [setActiveLeg] reads the leg 1, which is outside of the sequence, for
    the value 1 as for a value out of range. *)
Lemma setActiveLeg_counterexample :
  size Examples.routeA_updated = 1
  /\ (forall a, ~ (1 <= a <= size Examples.routeA_updated - 1))
  /\ @setActiveLeg planar Examples.routeA_updated 1 = None
  /\ @setActiveLeg planar Examples.routeA_updated 7 = None.
Proof.
  split; [reflexivity|]. split; [|split; reflexivity].
  intros a. change (size Examples.routeA_updated) with 1. lia.
Qed.

(** The route A, B, C: an index outside of it selects the leg 1. *)
Lemma setActiveLeg_clamps_and_recomputes_witness :
  2 <= size Examples.routeABC_updated
  /\ exists r',
       @setActiveLeg planar Examples.routeABC_updated 7 = Some r'
       /\ activeLeg r' =
            (if (0 <? 7) && (7 <? size Examples.routeABC_updated) then 7 else 1)
       /\ 1 <= activeLeg r' <= size Examples.routeABC_updated - 1
       /\ legLineDistance Examples.routeABC_updated
            (map.pos (activePos Examples.routeABC_updated)) (activeLeg r')
          = Some (activeLegResult r')
       /\ r' = set_active Examples.routeABC_updated (activeLeg r')
                 (activePos Examples.routeABC_updated) (activeLegResult r').
Proof.
  assert (H : 2 <= size Examples.routeABC_updated) by (vm_compute; discriminate).
  split; [exact H|].
  exact (setActiveLeg_clamps_and_recomputes planar Examples.routeABC_updated 7 H).
Defined.

(** The route A, B, C: without an active leg the outputs stay, with the
    active leg from A to B they are written. *)
Lemma getRouteDistances_false_iff_no_active_leg_witness :
  let out := {| distFromStart := Some f100; distToDest := Some f100;
                nextLegDistance := Some f100; crossTrackDistance := Some f100 |} in
  @getRouteDistances planar Examples.routeABC_updated out = Some (false, out)
  /\ exists out', @getRouteDistances planar Examples.routeABC_tracked out
                  = Some (true, out').
Proof.
  intros out.
  destruct (getRouteDistances_false_iff_no_active_leg planar
              Examples.routeABC_updated out) as (Hnone & _ & _).
  destruct (getRouteDistances_false_iff_no_active_leg planar
              Examples.routeABC_tracked out) as (_ & Hsome & _).
  split.
  - apply Hnone. reflexivity.
  - apply Hsome; vm_compute; [discriminate | split; [discriminate | reflexivity]].
Defined.

(** The empty route. *)
Lemma updateActiveLegAndPos_resets_witness :
  @updateActiveLegAndPos planar (Examples.newRoute [] [] [] [])
    (Examples.sample 0 0 90)
  = Some (resetActive (Examples.newRoute [] [] [] []))
  /\ activeLeg (resetActive (Examples.newRoute [] [] [] []))
     = map.INVALID_INDEX_VALUE
  /\ geo.status (activeLegResult (resetActive (Examples.newRoute [] [] [] [])))
     = geo.INVALID.
Proof.
  apply (updateActiveLegAndPos_resets planar (Examples.newRoute [] [] [] [])
           (Examples.sample 0 0 90)).
  left. reflexivity.
Defined.

(** The point route of A. *)
Lemma updateActiveLegAndPos_point_route_witness :
  exists r',
    @updateActiveLegAndPos planar Examples.routeA_updated (Examples.sample 100 0 90)
    = Some r'
    /\ activeLeg r' = 0
    /\ geo.status (activeLegResult r') = geo.INVALID.
Proof.
  eexists. split.
  - apply (updateActiveLegAndPos_point_route planar Examples.routeA_updated
             (Examples.sample 100 0 90) (Examples.routeLeg map.AIRPORT 0 0));
      reflexivity.
  - split; reflexivity.
Defined.

(** The route A, D, B, C and the point half way from A to D. *)
Lemma getNearestRouteLegResult_editable_only_witness :
  exists i res,
    @getNearestRouteLegResult planar Examples.routeSid_updated (Planar.P 9260 0)
      LineDistance_ctor true = Some (i, res)
    /\ (i = map.INVALID_INDEX_VALUE
        \/ (1 <= i < size Examples.routeSid_updated
            /\ canEditLeg Examples.routeSid_updated i = true
            /\ legLineDistance Examples.routeSid_updated (Planar.P 9260 0) i
               = Some res)).
Proof.
  apply (getNearestRouteLegResult_editable_only planar Examples.routeSid_updated
           (Planar.P 9260 0) LineDistance_ctor).
  - vm_compute. discriminate.
  - reflexivity.
Defined.

(** The route A, B, C and a point 150 nautical miles north of the leg
    from A to B: no leg is found. *)
Lemma nearestAllLegIndex_keeps_nearest_within_100nm_witness :
  @nearestAllLegIndex planar Examples.routeABC_updated (Examples.sample 9260 277800 90)
  = Some (map.INVALID_DISTANCE_VALUE, map.INVALID_INDEX_VALUE).
Proof.
  destruct (nearestAllLegIndex_keeps_nearest_within_100nm planar
              Examples.routeABC_updated (Examples.sample 9260 277800 90))
    as (s & _ & _ & _ & Hfar).
  apply Hfar. intros k res Hk Hres.
  change (size Examples.routeABC_updated) with 3 in Hk.
  assert (Hcases : k = 1 \/ k = 2) by lia.
  destruct Hcases as [-> | ->]; vm_compute in Hres; injection Hres as <-;
    vm_compute; reflexivity.
Defined.

(** The route A, D, B, C before its first update, with a departure block
    and the sentinel as its offset: the end of the block is no [int], the
    sum wraps around, and the departure rule excludes no index. *)
Example canEditLeg_sentinel_offset :
  hasAnyDepartureProcedure Examples.routeSid = true
  /\ departureLegsOffset Examples.routeSid = map.INVALID_INDEX_VALUE
  /\ int_add (departureLegsOffset Examples.routeSid)
       (Z.of_nat (length (departureLegs Examples.routeSid))) = INT_MIN
  /\ canEditLeg Examples.routeSid 0 = true
  /\ canEditLeg Examples.routeSid 1 = true.
Proof. repeat split. Qed.

(** The route A, B of ten nautical miles before its first update: the leg
    B gets its distance to A, and the total distance is that distance. *)
Example updateDistancesAndCourse_on_two_legs :
  exists r',
    @updateDistancesAndCourse planar Examples.routeAB = Some r'
    /\ List.map getDistanceTo (legs Examples.routeAB) = [fzero; fzero]
    /\ List.map getDistanceTo (legs r') = [fzero; f10]
    /\ totalDistance r' = f10.
Proof. eexists. repeat split; vm_compute; reflexivity. Qed.

(** The route A, B, C with a sample on the leg from A to B, two nautical
    miles before B and on its course: the active leg is the leg 1, the
    cross-track distance is zero. *)
Example tracker_stays_on_leg :
  activeLeg Examples.routeABC_tracked = 1
  /\ geo.status (activeLegResult Examples.routeABC_tracked) = geo.ALONG_TRACK
  /\ geo.distance (activeLegResult Examples.routeABC_tracked) = fzero.
Proof. repeat split. Qed.

(** The same route with the next sample 11 metres past B on the leg from B
    to C and on its course: the active leg advances to the leg 2. *)
Example tracker_advances :
  exists r',
    @updateActiveLegAndPos planar Examples.routeABC_tracked (Examples.sample 18520 11 0)
    = Some r'
    /\ activeLeg r' = 2.
Proof. eexists. split; vm_compute; reflexivity. Qed.

End Runs.

(** * Properties of the splicer and of the remaining functions *)

(** ** Lists *)

Lemma removeAt_nat {A : Type} (l : list A) (i : nat) :
  removeAt l (Z.of_nat i) = firstn i l ++ skipn (S i) l.
Proof.
  unfold removeAt, zlength. rewrite Nat2Z.id.
  destruct ((0 <=? Z.of_nat i) && (Z.of_nat i <? Z.of_nat (length l))) eqn:E;
    [reflexivity|].
  apply andb_false_iff in E. destruct E as [E|E].
  - apply Z.leb_gt in E. lia.
  - apply Z.ltb_ge in E.
    rewrite firstn_all2 by lia. rewrite skipn_all2 by lia.
    rewrite app_nil_r. reflexivity.
Qed.

Lemma keep_from_done {A : Type} (hit : nat -> bool) (n k : nat) (l : list A) :
  (n <= k)%nat -> keep_from hit n k l = l.
Proof.
  revert k. induction l as [|x t IH]; intros k Hk; [reflexivity|].
  cbn [keep_from].
  replace (k <? n)%nat with false by (symmetry; apply Nat.ltb_ge; lia).
  cbn [andb]. rewrite IH by lia. reflexivity.
Qed.

(** One more index [n] under the selection is the removal at [n] when
    [hit] selects it. *)
Lemma keep_from_S {A : Type} (hit : nat -> bool) (n : nat) (l : list A) :
  forall k, (k <= n)%nat ->
  keep_from hit (S n) k l
  = keep_from hit n k
      (if hit n then firstn (n - k) l ++ skipn (S (n - k)) l else l).
Proof.
  induction l as [|x t IH]; intros k Hk.
  - destruct (hit n); [|reflexivity].
    rewrite firstn_nil, skipn_nil. reflexivity.
  - destruct (Nat.eq_dec k n) as [->|Hne].
    + rewrite Nat.sub_diag. cbn [firstn skipn app keep_from].
      replace (n <? S n)%nat with true by (symmetry; apply Nat.ltb_lt; lia).
      cbn [andb].
      destruct (hit n).
      * rewrite !keep_from_done by lia. reflexivity.
      * cbn [keep_from].
        replace (n <? n)%nat with false by (symmetry; apply Nat.ltb_ge; lia).
        cbn [andb]. rewrite !keep_from_done by lia. reflexivity.
    + assert (Hlt : (k < n)%nat) by lia.
      specialize (IH (S k) ltac:(lia)).
      replace (n - k)%nat with (S (n - S k)) by lia.
      cbn [keep_from].
      replace (k <? S n)%nat with true by (symmetry; apply Nat.ltb_lt; lia).
      destruct (hit n) eqn:Hn.
      * cbn [firstn skipn app keep_from].
        replace (k <? n)%nat with true by (symmetry; apply Nat.ltb_lt; lia).
        cbn [andb]. rewrite IH. destruct (hit k); reflexivity.
      * cbn [keep_from].
        replace (k <? n)%nat with true by (symmetry; apply Nat.ltb_lt; lia).
        cbn [andb]. rewrite IH. destruct (hit k); reflexivity.
Qed.

(** Removing at the selected indexes below [n], the largest first, leaves
    the elements that are not selected. *)
Lemma fold_removeAt_keep {A : Type} (hit : nat -> bool) (n : nat) :
  forall l : list A,
  fold_left removeAt (List.map Z.of_nat (rev (filter hit (seq 0 n)))) l
  = keep_from hit n 0 l.
Proof.
  induction n as [|n IH]; intros l.
  - cbn. rewrite keep_from_done by lia. reflexivity.
  - rewrite seq_S, filter_app, rev_app_distr. cbn [filter Nat.add].
    rewrite keep_from_S by lia. rewrite Nat.sub_0_r.
    destruct (hit n).
    + cbn [rev app List.map fold_left]. rewrite removeAt_nat. apply IH.
    + cbn [rev app]. apply IH.
Qed.

(** With the selection read off the elements of the list itself, the
    elements that stay are a filter of the list. *)
Lemma keep_from_filter {A : Type} (p : A -> bool) (hit : nat -> bool) (l : list A) :
  forall k n,
  (k + length l <= n)%nat ->
  (forall i x, nth_error l i = Some x -> hit (k + i)%nat = p x) ->
  keep_from hit n k l = filter (fun x => negb (p x)) l.
Proof.
  induction l as [|x t IH]; intros k n Hn Hhit; [reflexivity|].
  cbn [keep_from filter]. cbn [length] in Hn.
  replace (k <? n)%nat with true by (symmetry; apply Nat.ltb_lt; lia).
  cbn [andb].
  rewrite <- (Hhit 0%nat x eq_refl), Nat.add_0_r.
  rewrite (IH (S k) n) by
    (try lia; intros i y Hy; rewrite <- (Hhit (S i) y Hy); f_equal; lia).
  destruct (hit k); reflexivity.
Qed.

(** The selection acts alike on two lists and on their pairs. *)
Lemma keep_from_combine {A B : Type} (hit : nat -> bool) (n : nat)
  (l1 : list A) : forall (l2 : list B) k,
  combine (keep_from hit n k l1) (keep_from hit n k l2)
  = keep_from hit n k (combine l1 l2).
Proof.
  induction l1 as [|x t IH]; intros [|y u] k; cbn [keep_from combine];
    try reflexivity.
  - destruct ((k <? n)%nat && hit k); cbn [combine]; try reflexivity.
    destruct (keep_from hit n (S k) t); reflexivity.
  - destruct ((k <? n)%nat && hit k); cbn [combine]; [|f_equal]; apply IH.
Qed.

Lemma keep_from_length {A B : Type} (hit : nat -> bool) (n : nat)
  (l1 : list A) : forall (l2 : list B) k,
  length l1 = length l2 ->
  length (keep_from hit n k l1) = length (keep_from hit n k l2).
Proof.
  induction l1 as [|x t IH]; intros [|y u] k Hlen; cbn [keep_from];
    try discriminate; [reflexivity|].
  cbn [length] in Hlen.
  destruct ((k <? n)%nat && hit k); cbn [length]; [|f_equal]; apply IH; lia.
Qed.

(** ** [eraseProcedureLegs] *)

Section EraseSpec.

Context {C : Collaborators} {M : MoreCollaborators}.

Lemma erasedAt_nth (type : Z) (ls : list RouteLeg) (k : nat) (l : RouteLeg) :
  nth_error ls k = Some l -> erasedAt type ls k = procedureTypeMatches type l.
Proof. intros H. unfold erasedAt. rewrite H. reflexivity. Qed.

(** The collecting loop gives the positions of the matching legs, the
    largest first. *)
Lemma eraseProcedureLegs_collect_loop (r : Route) (type : Z) (m : nat) :
  forall acc,
  (m <= length (legs r))%nat ->
  for_down_loop m (Z.of_nat m - 1) (eraseProcedureLegs_collect r type) acc
  = Some (acc ++ List.map Z.of_nat
                   (rev (filter (erasedAt type (legs r)) (seq 0 m)))).
Proof.
  induction m as [|m IH]; intros acc Hm.
  - cbn. rewrite app_nil_r. reflexivity.
  - cbn [for_down_loop].
    replace (Z.of_nat (S m) - 1) with (Z.of_nat m) by lia.
    unfold eraseProcedureLegs_collect at 1.
    destruct (at_Some r (Z.of_nat m)) as [l Hl]; [unfold size; lia|].
    rewrite Hl. cbn beta iota.
    assert (Hn : nth_error (legs r) m = Some l).
    { apply at_Some_inv in Hl. rewrite Nat2Z.id in Hl. apply Hl. }
    rewrite seq_S, filter_app, rev_app_distr. cbn [filter Nat.add].
    rewrite (erasedAt_nth _ _ _ _ Hn).
    destruct (procedureTypeMatches type l).
    + rewrite IH by lia. cbn [rev app List.map]. rewrite <- app_assoc.
      reflexivity.
    + rewrite IH by lia. reflexivity.
Qed.

(** The removing loop removes at the collected indexes in their order. *)
Lemma eraseProcedureLegs_remove_loop (indexes : list Z) (n : nat) :
  forall (i : Z) (rp : RouteWithPlan),
  0 <= i -> i + Z.of_nat n = zlength indexes ->
  exists rp',
    for_loop n i (eraseProcedureLegs_remove indexes) rp = Some rp' /\
    route rp' =
      set_legs (route rp)
        (fold_left removeAt (skipn (Z.to_nat i) indexes) (legs (route rp))) /\
    flightplan rp' =
      pln.set_entries (flightplan rp)
        (fold_left removeAt (skipn (Z.to_nat i) indexes)
           (pln.getEntries (flightplan rp))).
Proof.
  induction n as [|n IH]; intros i rp Hi Hn.
  - exists rp. cbn [for_loop]. unfold zlength in Hn.
    rewrite skipn_all2 by lia. cbn [fold_left].
    destruct rp as [r f]; destruct r; destruct f. repeat split.
  - cbn [for_loop]. unfold eraseProcedureLegs_remove at 1, list_at.
    unfold zlength in *.
    replace ((0 <=? i) && (i <? Z.of_nat (length indexes))) with true
      by (symmetry; apply andb_true_iff; split;
          [apply Z.leb_le | apply Z.ltb_lt]; lia).
    destruct (nth_error indexes (Z.to_nat i)) as [idx|] eqn:E;
      [|apply nth_error_None in E; lia].
    cbn beta iota.
    destruct (IH (i + 1)
                {| route := set_legs (route rp) (removeAt (legs (route rp)) idx);
                   flightplan :=
                     pln.set_entries (flightplan rp)
                       (removeAt (pln.getEntries (flightplan rp)) idx) |})
      as (rp' & Hrun & Hr & Hf); [lia|lia|].
    exists rp'. split; [exact Hrun|].
    rewrite (skipn_nth_error _ _ _ E). cbn [fold_left].
    replace (S (Z.to_nat i)) with (Z.to_nat (i + 1)) by lia.
    rewrite Hr, Hf. cbn [route flightplan]. split; reflexivity.
Qed.

(** [eraseProcedureLegs] returns on every route; the legs that stay are
    the legs that do not match, in their order, and the flight plan loses
    the entries at the positions of the legs that go. *)
Lemma eraseProcedureLegs_Some (type : Z) (rp : RouteWithPlan) :
  exists rp',
    eraseProcedureLegs type rp = Some rp' /\
    route rp' = set_legs (route rp) (keptLegs type (legs (route rp))) /\
    flightplan rp' =
      pln.set_entries (flightplan rp)
        (keptEntries type (legs (route rp)) (pln.getEntries (flightplan rp))).
Proof.
  unfold eraseProcedureLegs, for_down.
  replace (Z.to_nat (size (route rp) - 1 - 0 + 1)) with (length (legs (route rp)))
    by (unfold size; lia).
  replace (size (route rp) - 1) with (Z.of_nat (length (legs (route rp))) - 1)
    by reflexivity.
  rewrite eraseProcedureLegs_collect_loop by lia.
  cbn [app]. cbn beta iota.
  set (idx := List.map Z.of_nat
                (rev (filter (erasedAt type (legs (route rp)))
                        (seq 0 (length (legs (route rp))))))).
  unfold for_range.
  destruct (eraseProcedureLegs_remove_loop idx (Z.to_nat (zlength idx - 0)) 0 rp)
    as (rp' & Hrun & Hr & Hf); [lia|unfold zlength; lia|].
  exists rp'. split; [exact Hrun|].
  change (Z.to_nat 0) with 0%nat in Hr, Hf. cbn [skipn] in Hr, Hf.
  unfold idx in Hr, Hf. rewrite fold_removeAt_keep in Hr.
  rewrite fold_removeAt_keep in Hf.
  split; [|exact Hf].
  rewrite Hr. f_equal. unfold keptLegs.
  apply keep_from_filter with (p := procedureTypeMatches type).
  - cbn. lia.
  - intros i x Hx. unfold erasedAt. cbn [Nat.add]. rewrite Hx. reflexivity.
Qed.

End EraseSpec.

(** ** [updateIndicesAndOffsets] *)

Lemma indexFrom_length (ls : list RouteLeg) :
  forall i, length (indexFrom i ls) = length ls.
Proof. induction ls as [|l t IH]; intros i; cbn; [|rewrite IH]; reflexivity. Qed.

Lemma indexFrom_app (a b : list RouteLeg) :
  forall i,
  indexFrom i (a ++ b) = indexFrom i a ++ indexFrom (i + Z.of_nat (length a)) b.
Proof.
  induction a as [|l t IH]; intros i.
  - cbn. rewrite Z.add_0_r. reflexivity.
  - cbn [app indexFrom length]. rewrite IH. do 3 f_equal. lia.
Qed.

Lemma firstIndex_bound (p : RouteLeg -> bool) (ls : list RouteLeg) :
  forall i,
  firstIndex p i ls = map.INVALID_INDEX_VALUE
  \/ i <= firstIndex p i ls < i + Z.of_nat (length ls).
Proof.
  induction ls as [|l t IH]; intros i; [left; reflexivity|].
  cbn [firstIndex length]. destruct (p l); [right; lia|].
  destruct (IH (i + 1)) as [H|H]; [left; exact H | right; lia].
Qed.

Lemma firstIndex_app (p : RouteLeg -> bool) (a b : list RouteLeg) :
  forall i,
  i + Z.of_nat (length a) <= map.INVALID_INDEX_VALUE ->
  firstIndex p i (a ++ b)
  = if firstIndex p i a =? map.INVALID_INDEX_VALUE
    then firstIndex p (i + Z.of_nat (length a)) b
    else firstIndex p i a.
Proof.
  induction a as [|l t IH]; intros i Hi.
  - cbn. rewrite Z.add_0_r. reflexivity.
  - cbn [app firstIndex length] in *. destruct (p l).
    + replace (i =? map.INVALID_INDEX_VALUE) with false
        by (symmetry; apply Z.eqb_neq; intros Heq; rewrite Heq in Hi; lia).
      reflexivity.
    + rewrite IH by lia.
      replace (i + Z.of_nat (S (length t))) with (i + 1 + Z.of_nat (length t))
        by lia.
      reflexivity.
Qed.

Section IndicesSpec.

Context {C : Collaborators}.

(** The state of the loop of [updateIndicesAndOffsets] before the pass for
    the index [k], on the route [r] whose offsets were reset. *)
Let stateAt (r : Route) (k : nat) : Route :=
  set_offsets
    (set_legs r (indexFrom 0 (firstn k (legs r)) ++ skipn k (legs r)))
    (firstIndex legIsAnyDeparture 0 (firstn k (legs r)))
    (firstIndex legIsAnyStar 0 (firstn k (legs r)))
    (firstIndex legIsArrival 0 (firstn k (legs r))).

Lemma updateIndicesAndOffsets_body_step (r : Route) (k : nat) :
  size r <= map.INVALID_INDEX_VALUE ->
  (k < length (legs r))%nat ->
  updateIndicesAndOffsets_body (Z.of_nat k) (stateAt r k)
  = Some (stateAt r (S k), false).
Proof.
  intros Hmax Hk.
  destruct (nth_error (legs r) k) as [x|] eqn:Hx;
    [|apply nth_error_None in Hx; lia].
  unfold stateAt.
  rewrite (firstn_S_snoc _ _ _ Hx), (skipn_nth_error _ _ _ Hx).
  set (pre := firstn k (legs r)).
  assert (Hpre : length pre = k) by (subst pre; apply firstn_length_le; lia).
  set (A := indexFrom 0 pre).
  assert (HA : length A = k) by (subst A; rewrite indexFrom_length; exact Hpre).
  unfold updateIndicesAndOffsets_body, at_, size.
  cbn [legs set_offsets set_legs].
  replace ((0 <=? Z.of_nat k)
           && (Z.of_nat k <? Z.of_nat (length (A ++ x :: skipn (S k) (legs r)))))
    with true
    by (symmetry; apply andb_true_iff; split;
        [apply Z.leb_le; lia
        |apply Z.ltb_lt; rewrite length_app; cbn [length]; lia]).
  rewrite Nat2Z.id.
  rewrite nth_error_app2 by lia. rewrite HA, Nat.sub_diag. cbn [nth_error].
  cbn beta iota. unfold set_at. rewrite Nat2Z.id.
  cbn [legs set_offsets set_legs departureLegsOffset starLegsOffset
       arrivalLegsOffset getProcedureLeg setFlightplanEntryIndex].
  rewrite list_set_app_mid by exact HA.
  rewrite indexFrom_app. fold A. rewrite Hpre. cbn [indexFrom].
  rewrite <- app_assoc. cbn [app].
  unfold size in Hmax.
  rewrite !firstIndex_app by lia. rewrite Hpre. cbn [firstIndex].
  rewrite Z.add_0_l.
  do 2 f_equal. unfold set_offsets, set_legs.
  destruct (Z.eqb_spec (firstIndex legIsAnyDeparture 0 pre)
              map.INVALID_INDEX_VALUE) as [Ed|Ed]; rewrite ?Ed;
    destruct (Z.eqb_spec (firstIndex legIsAnyStar 0 pre)
                map.INVALID_INDEX_VALUE) as [Es|Es]; rewrite ?Es;
    destruct (Z.eqb_spec (firstIndex legIsArrival 0 pre)
                map.INVALID_INDEX_VALUE) as [Ea|Ea]; rewrite ?Ea;
    unfold legIsAnyDeparture, legIsAnyStar, legIsArrival;
    destruct (proc.isAnyDeparture (getProcedureLeg x)),
      (proc.isAnyStar (getProcedureLeg x)),
      (proc.isArrival (getProcedureLeg x)); reflexivity.
Qed.

(** [updateIndicesAndOffsets] whole: every leg carries its position as its
    flight plan entry index, each offset is the index of the first leg
    with the flag of its block or the sentinel, the active leg is put
    back into bounds, and nothing else changes. *)
Lemma updateIndicesAndOffsets_spec (r : Route) :
  size r <= map.INVALID_INDEX_VALUE ->
  updateIndicesAndOffsets r
  = Some (set_offsets
            (set_legs
               (set_activeLeg r (boundedActiveLeg (activeLeg r) (size r)))
               (indexFrom 0 (legs r)))
            (firstIndex legIsAnyDeparture 0 (legs r))
            (firstIndex legIsAnyStar 0 (legs r))
            (firstIndex legIsArrival 0 (legs r))).
Proof.
  intros Hmax. unfold updateIndicesAndOffsets.
  set (r0 := set_offsets _ _ _ _).
  assert (Hlegs : legs r0 = legs r)
    by (subst r0; destruct (activeLeg r <? map.INVALID_INDEX_VALUE); reflexivity).
  assert (Hsize : size r0 = size r) by (unfold size; rewrite Hlegs; reflexivity).
  destruct (for_range_rule updateIndicesAndOffsets_body
              (fun j t => 0 <= j <= size r0 /\ t = stateAt r0 (Z.to_nat j))
              (fun t => t = stateAt r0 (length (legs r0)))
              0 (size r0) r0) as (t & Ht & Hf).
  - split; [unfold size; lia|].
    unfold stateAt. cbn [firstn skipn indexFrom firstIndex app Z.to_nat].
    subst r0. destruct (activeLeg r <? map.INVALID_INDEX_VALUE); reflexivity.
  - intros j t Hj (_ & ->).
    exists (stateAt r0 (S (Z.to_nat j))), false. split.
    + rewrite <- (Z2Nat.id j) at 1 by lia.
      apply updateIndicesAndOffsets_body_step; [lia|unfold size in Hj; lia].
    + split; [lia|]. f_equal. lia.
  - intros t (_ & ->). f_equal. unfold size. lia.
  - rewrite Ht, Hf. f_equal. unfold stateAt.
    rewrite firstn_all, skipn_all, app_nil_r, Hlegs.
    subst r0. unfold boundedActiveLeg.
    destruct (activeLeg r <? map.INVALID_INDEX_VALUE); reflexivity.
Qed.

End IndicesSpec.

(** ** [updateProcedureLegs] *)

(** A loop whose passes walk through the states [state 0], [state 1], ...
    ends in [state n]. *)
Lemma for_loop_steps {St : Type} (body : Z -> St -> option (St * bool))
  (state : nat -> St) (n : nat) :
  (forall j, (j < n)%nat -> body (Z.of_nat j) (state j) = Some (state (S j), false)) ->
  forall m k, (k + m = n)%nat ->
  for_loop m (Z.of_nat k) body (state k) = Some (state n).
Proof.
  intros Hstep. induction m as [|m IH]; intros k Hk.
  - cbn. f_equal. f_equal. lia.
  - cbn [for_loop]. rewrite Hstep by lia.
    replace (Z.of_nat k + 1) with (Z.of_nat (S k)) by lia.
    apply IH. lia.
Qed.

Lemma for_range_steps {St : Type} (body : Z -> St -> option (St * bool))
  (state : nat -> St) (n : nat) :
  (forall j, (j < n)%nat -> body (Z.of_nat j) (state j) = Some (state (S j), false)) ->
  for_range 0 (Z.of_nat n) body (state 0%nat) = Some (state n).
Proof.
  intros Hstep. unfold for_range.
  replace (Z.to_nat (Z.of_nat n - 0)) with n by lia.
  apply (for_loop_steps body state n Hstep n 0%nat). lia.
Qed.

Lemma last_or_cons {A : Type} (prev : option A) (x : A) (l : list A) :
  last_or prev (x :: l) = last_or (Some x) l.
Proof.
  unfold last_or. cbn [rev]. destruct (rev l); reflexivity.
Qed.

Lemma last_or_snoc {A : Type} (prev : option A) (l : list A) (x : A) :
  last_or prev (l ++ [x]) = Some x.
Proof. unfold last_or. rewrite rev_app_distr. reflexivity. Qed.

Lemma last_or_app {A : Type} (prev : option A) (a b : list A) :
  last_or prev (a ++ b) = last_or (last_or prev a) b.
Proof.
  unfold last_or. rewrite rev_app_distr.
  destruct (rev b); [|reflexivity]. cbn [app].
  destruct (rev a); reflexivity.
Qed.

Lemma last_or_Some {A : Type} (x : A) (l : list A) :
  exists y, last_or (Some x) l = Some y.
Proof. unfold last_or. destruct (rev l); eauto. Qed.

Lemma chain_length (mk : Z -> option RouteLeg -> RouteLeg) (n : nat) :
  forall i prev, length (chain mk i prev n) = n.
Proof. induction n as [|n IH]; intros i prev; cbn; [|rewrite IH]; reflexivity. Qed.

Lemma chain_S_snoc (mk : Z -> option RouteLeg -> RouteLeg) (n : nat) :
  forall i prev,
  chain mk i prev (S n)
  = chain mk i prev n
      ++ [mk (i + Z.of_nat n) (last_or prev (chain mk i prev n))].
Proof.
  induction n as [|n IH]; intros i prev.
  - cbn. rewrite Z.add_0_r. reflexivity.
  - change (chain mk i prev (S (S n)))
      with (mk i prev :: chain mk (i + 1) (Some (mk i prev)) (S n)).
    rewrite IH.
    change (chain mk i prev (S n))
      with (mk i prev :: chain mk (i + 1) (Some (mk i prev)) n).
    rewrite last_or_cons. cbn [app].
    replace (i + 1 + Z.of_nat n) with (i + Z.of_nat (S n)) by lia.
    reflexivity.
Qed.

Lemma nth_error_last_or {A : Type} (a b : list A) :
  forall x, nth_error (x :: a ++ b) (length a) = last_or (Some x) a.
Proof.
  induction a as [|y a IH]; intros x; [reflexivity|].
  cbn [length nth_error app]. rewrite last_or_cons. apply IH.
Qed.

Lemma insert_app {A : Type} (a b : list A) (x : A) (i : Z) :
  i = Z.of_nat (length a) -> insert (a ++ b) i x = Some (a ++ x :: b).
Proof.
  intros ->. unfold insert, zlength. rewrite length_app.
  replace ((0 <=? Z.of_nat (length a))
           && (Z.of_nat (length a) <=? Z.of_nat (length a + length b)))
    with true
    by (symmetry; apply andb_true_iff; split; apply Z.leb_le; lia).
  rewrite Nat2Z.id.
  rewrite firstn_app, skipn_app, Nat.sub_diag, firstn_all, skipn_all.
  cbn [firstn skipn]. rewrite app_nil_r. reflexivity.
Qed.

Lemma list_at_nth {A : Type} (l : list A) (k : nat) (i : Z) (x : A) :
  i = Z.of_nat k -> nth_error l k = Some x -> list_at l i = Some x.
Proof.
  intros -> H. unfold list_at, zlength.
  assert (Hk : (k < length l)%nat) by (apply nth_error_Some; congruence).
  replace ((0 <=? Z.of_nat k) && (Z.of_nat k <? Z.of_nat (length l))) with true
    by (symmetry; apply andb_true_iff; split;
        [apply Z.leb_le | apply Z.ltb_lt]; lia).
  rewrite Nat2Z.id. exact H.
Qed.

Section SplicerSpec.

Context {C : Collaborators} {M : MoreCollaborators}.

(** The state of the departure loop before the pass [j]. *)
Let depState (rp0 : RouteWithPlan) (b0 : RouteLeg) (rest : list RouteLeg)
  (e0 : pln.FlightplanEntry) (erest : list pln.FlightplanEntry) (j : nat)
  : RouteWithPlan :=
  let dep := departureLegs (route rp0) in
  {| route :=
       set_legs (route rp0)
         (b0 :: chain (fun i p => createFromApproachLeg i dep p) 0 (Some b0) j
             ++ rest);
     flightplan :=
       pln.set_entries (flightplan rp0)
         (e0 :: List.map buildFlightplanEntry (firstn j dep) ++ erest) |}.

Lemma insertDeparture_body_step (rp0 : RouteWithPlan) b0 rest e0 erest (j : nat) :
  (j < length (departureLegs (route rp0)))%nat ->
  insertDeparture_body (Z.of_nat j) (depState rp0 b0 rest e0 erest j)
  = Some (depState rp0 b0 rest e0 erest (S j), false).
Proof.
  intros Hj. unfold depState, insertDeparture_body.
  set (dep := departureLegs (route rp0)).
  set (mk := fun i p => createFromApproachLeg i dep p).
  set (D := chain mk 0 (Some b0) j).
  assert (HD : length D = j) by (subst D; apply chain_length).
  cbn [route flightplan].
  assert (Hat : at_ (set_legs (route rp0) (b0 :: D ++ rest)) (Z.of_nat j)
                = last_or (Some b0) D).
  { unfold at_, size. cbn [legs set_legs].
    replace ((0 <=? Z.of_nat j)
             && (Z.of_nat j <? Z.of_nat (length (b0 :: D ++ rest)))) with true
      by (symmetry; apply andb_true_iff; split;
          [apply Z.leb_le; lia
          |apply Z.ltb_lt; cbn [length]; rewrite length_app; lia]).
    rewrite Nat2Z.id. rewrite <- HD. apply nth_error_last_or. }
  rewrite Hat.
  destruct (last_or_Some b0 D) as [p Hp]. rewrite Hp. cbn beta iota.
  cbn [legs set_legs departureLegs]. fold dep.
  rewrite (insert_app (b0 :: D) rest) by (cbn [length]; lia).
  cbn beta iota.
  destruct (nth_error dep j) as [d|] eqn:Hd;
    [|apply nth_error_None in Hd; subst dep; lia].
  rewrite (list_at_nth dep j _ d) by (try lia; exact Hd).
  cbn beta iota. cbn [pln.getEntries pln.set_entries].
  change (e0 :: List.map buildFlightplanEntry (firstn j dep) ++ erest)
    with ((e0 :: List.map buildFlightplanEntry (firstn j dep)) ++ erest).
  rewrite (insert_app (e0 :: List.map buildFlightplanEntry (firstn j dep)) erest)
    by (cbn [length]; rewrite length_map, firstn_length_le by (subst dep; lia); lia).
  cbn beta iota.
  rewrite (chain_S_snoc mk j 0 (Some b0)). fold D. rewrite Hp, Z.add_0_l.
  rewrite (firstn_S_snoc _ _ _ Hd), map_app.
  unfold set_legs, pln.set_entries.
  cbn [legs totalDistance shownTypes boundingRect activePos trueCourse
       arrivalLegs starLegs departureLegs departureLegsOffset starLegsOffset
       arrivalLegsOffset activeLeg activeLegResult
       pln.getEntries pln.getProperties pln.getCruisingAltitude].
  rewrite <- !app_assoc. reflexivity.
Qed.

(** The state of the loop that puts a block before the last leg, before
    its pass [j]. *)
Let lastState (block : proc.MapProcedureLegs) (rp1 : RouteWithPlan)
  (init : list RouteLeg) (lst : RouteLeg)
  (einit : list pln.FlightplanEntry) (elast : pln.FlightplanEntry) (j : nat)
  : RouteWithPlan :=
  {| route :=
       set_legs (route rp1)
         (init
            ++ chain (fun i p => createFromApproachLeg i block p) 0
                 (last_or None init) j
            ++ [lst]);
     flightplan :=
       pln.set_entries (flightplan rp1)
         (einit ++ List.map buildFlightplanEntry (firstn j block) ++ [elast]) |}.

(** The leg before the last one, as the loops read it. *)
Lemma prev_before_last (r : Route) (a : list RouteLeg) (x : RouteLeg) :
  legs r = a ++ [x] ->
  (if size r >=? 2
   then p <- at_ r (size r - 2) ;; Some (Some p)
   else Some None) = Some (last_or None a).
Proof.
  intros Hl. unfold at_, size. rewrite Hl.
  destruct a as [|h t] using rev_ind; [reflexivity|].
  clear IHt. rewrite last_or_snoc. rewrite !length_app. cbn [length].
  replace (Z.of_nat (length t + 1 + 1) >=? 2) with true
    by (symmetry; apply Z.geb_le; lia).
  replace ((0 <=? Z.of_nat (length t + 1 + 1) - 2)
           && (Z.of_nat (length t + 1 + 1) - 2 <? Z.of_nat (length t + 1 + 1)))
    with true
    by (symmetry; apply andb_true_iff; split;
        [apply Z.leb_le | apply Z.ltb_lt]; lia).
  replace (Z.to_nat (Z.of_nat (length t + 1 + 1) - 2)) with (length t) by lia.
  rewrite <- app_assoc. rewrite nth_error_app2 by lia.
  rewrite Nat.sub_diag. reflexivity.
Qed.

Lemma insertBeforeLast_body_step (block : proc.MapProcedureLegs)
  (rp1 : RouteWithPlan) init lst einit elast (j : nat) :
  (j < length block)%nat ->
  insertBeforeLast_body block (Z.of_nat j)
    (lastState block rp1 init lst einit elast j)
  = Some (lastState block rp1 init lst einit elast (S j), false).
Proof.
  intros Hj. unfold lastState, insertBeforeLast_body.
  set (mk := fun i p => createFromApproachLeg i block p).
  set (B := chain mk 0 (last_or None init) j).
  assert (HB : length B = j) by (subst B; apply chain_length).
  cbn [route flightplan].
  rewrite (prev_before_last _ (init ++ B) lst)
    by (cbn [legs set_legs]; rewrite app_assoc; reflexivity).
  cbn beta iota. unfold size. cbn [legs set_legs].
  rewrite (app_assoc init B [lst]).
  rewrite (insert_app (init ++ B) [lst])
    by (rewrite !length_app; cbn [length]; lia).
  cbn beta iota.
  destruct (nth_error block j) as [d|] eqn:Hd;
    [|apply nth_error_None in Hd; lia].
  rewrite (list_at_nth block j _ d) by (try lia; exact Hd).
  cbn beta iota. cbn [pln.getEntries pln.set_entries].
  rewrite (app_assoc einit _ [elast]).
  rewrite (insert_app (einit ++ List.map buildFlightplanEntry (firstn j block))
             [elast])
    by (unfold zlength; rewrite !length_app; cbn [length]; lia).
  cbn beta iota.
  rewrite (chain_S_snoc mk j 0 (last_or None init)). fold B.
  rewrite last_or_app, Z.add_0_l.
  rewrite (firstn_S_snoc _ _ _ Hd), map_app.
  unfold set_legs, pln.set_entries.
  cbn [legs totalDistance shownTypes boundingRect activePos trueCourse
       arrivalLegs starLegs departureLegs departureLegsOffset starLegsOffset
       arrivalLegsOffset activeLeg activeLegResult
       pln.getEntries pln.getProperties pln.getCruisingAltitude].
  rewrite <- !app_assoc. reflexivity.
Qed.

(** The loop that puts a block before the last leg, whole. *)
Lemma insertBeforeLast_loop (block : proc.MapProcedureLegs) (rp1 : RouteWithPlan) :
  legs (route rp1) <> [] ->
  pln.getEntries (flightplan rp1) <> [] ->
  for_range 0 (zlength block) (insertBeforeLast_body block) rp1
  = Some {| route :=
              set_legs (route rp1) (spliceBeforeLast block (legs (route rp1)));
            flightplan :=
              pln.set_entries (flightplan rp1)
                (entriesBeforeLast block (pln.getEntries (flightplan rp1))) |}.
Proof.
  intros Hl He.
  destruct (legs (route rp1)) as [|x t] eqn:Hlegs; [congruence|].
  destruct (pln.getEntries (flightplan rp1)) as [|y u] eqn:Hentries; [congruence|].
  remember (removelast (x :: t)) as init eqn:Hinit.
  remember (last (x :: t) x) as lst eqn:Hlst.
  remember (removelast (y :: u)) as einit eqn:Heinit.
  remember (last (y :: u) y) as elast eqn:Helast.
  assert (Hsplit : x :: t = init ++ [lst])
    by (subst init lst; apply app_removelast_last; discriminate).
  assert (Hesplit : y :: u = einit ++ [elast])
    by (subst einit elast; apply app_removelast_last; discriminate).
  assert (H0 : lastState block rp1 init lst einit elast 0 = rp1).
  { unfold lastState. cbn [chain firstn List.map app].
    rewrite <- Hsplit, <- Hesplit, <- Hlegs, <- Hentries.
    destruct rp1 as [r1 f1]; destruct r1; destruct f1; reflexivity. }
  rewrite <- H0 at 1.
  unfold zlength.
  rewrite (for_range_steps (insertBeforeLast_body block)
             (lastState block rp1 init lst einit elast) (length block))
    by (intros j Hj; apply insertBeforeLast_body_step; exact Hj).
  unfold lastState, spliceBeforeLast, entriesBeforeLast, procedureChain.
  rewrite firstn_all. subst init lst einit elast. reflexivity.
Qed.

(** [updateProcedureLegs] whole, on a route that keeps a leg and a flight
    plan entry when its procedure legs are erased. *)
Lemma updateProcedureLegs_spec (rp : RouteWithPlan)
  (b0 : RouteLeg) (rest : list RouteLeg)
  (e0 : pln.FlightplanEntry) (erest : list pln.FlightplanEntry) :
  keptLegs PROCEDURE_ALL (legs (route rp)) = b0 :: rest ->
  keptEntries PROCEDURE_ALL (legs (route rp)) (pln.getEntries (flightplan rp))
  = e0 :: erest ->
  let r := route rp in
  let L1 := spliceAfterFirst (departureLegs r) (b0 :: rest) in
  let L2 := spliceBeforeLast (starLegs r) L1 in
  let L3 := spliceBeforeLast (arrivalLegs r) L2 in
  let E1 := entriesAfterFirst (departureLegs r) (e0 :: erest) in
  let E2 := entriesBeforeLast (starLegs r) E1 in
  let E3 := entriesBeforeLast (arrivalLegs r) E2 in
  updateProcedureLegs rp
  = Some {| route :=
              set_offsets (set_legs r L3)
                (blockOffset (departureLegs r) 1)
                (blockOffset (starLegs r) (zlength L1 - 1))
                (blockOffset (arrivalLegs r) (zlength L2 - 1));
            flightplan :=
              {| pln.getEntries := E3;
                 pln.getProperties :=
                   extractLegsForFlightplanProperties
                     (ProcedureQuery_clearFlightplanProcedureProperties
                        (pln.getProperties (flightplan rp)) PROCEDURE_ALL)
                     (arrivalLegs r) (starLegs r) (departureLegs r);
                 pln.getCruisingAltitude :=
                   pln.getCruisingAltitude (flightplan rp) |} |}.
Proof.
  intros Hb He r L1 L2 L3 E1 E2 E3.
  unfold updateProcedureLegs.
  destruct (eraseProcedureLegs_Some PROCEDURE_ALL rp) as (rp0 & Hrun & Hr & Hf).
  rewrite Hrun. cbn beta iota.
  rewrite Hb in Hr. rewrite He in Hf.
  assert (Hdep : departureLegs (route rp0) = departureLegs r)
    by (rewrite Hr; reflexivity).
  assert (Hstar : starLegs (route rp0) = starLegs r) by (rewrite Hr; reflexivity).
  assert (Harr : arrivalLegs (route rp0) = arrivalLegs r)
    by (rewrite Hr; reflexivity).
  assert (H0 : depState rp0 b0 rest e0 erest 0 = rp0).
  { unfold depState. cbn [chain firstn List.map app].
    destruct rp0 as [r0 f0]. cbn [route flightplan] in *. subst r0 f0.
    reflexivity. }
  assert (Hloop :
    for_range 0 (zlength (departureLegs (route rp0))) insertDeparture_body rp0
    = Some (depState rp0 b0 rest e0 erest (length (departureLegs (route rp0))))).
  { etransitivity;
      [|apply (for_range_steps insertDeparture_body
                 (depState rp0 b0 rest e0 erest)
                 (length (departureLegs (route rp0))));
        intros j Hj; apply insertDeparture_body_step; exact Hj].
    rewrite H0. reflexivity. }
  rewrite Hloop. cbn beta iota.
  set (rp1 := depState rp0 b0 rest e0 erest (length (departureLegs (route rp0)))).
  assert (Hl1 : legs (route rp1) = L1).
  { subst rp1 L1. unfold depState, spliceAfterFirst, procedureChain.
    cbn [route legs set_legs]. rewrite Hdep. reflexivity. }
  assert (He1 : pln.getEntries (flightplan rp1) = E1).
  { subst rp1 E1. unfold depState, entriesAfterFirst.
    cbn [flightplan pln.getEntries pln.set_entries].
    rewrite firstn_all, Hdep. reflexivity. }
  rewrite Hstar.
  rewrite (insertBeforeLast_loop (starLegs r) rp1)
    by (rewrite ?Hl1, ?He1; discriminate).
  cbn beta iota.
  set (rp2 := {| route := set_legs (route rp1) _; flightplan := _ |}).
  assert (Hl2 : legs (route rp2) = L2)
    by (subst rp2 L2; cbn [route legs set_legs]; rewrite Hl1; reflexivity).
  assert (He2 : pln.getEntries (flightplan rp2) = E2)
    by (subst rp2 E2; cbn [flightplan pln.getEntries pln.set_entries];
        rewrite He1; reflexivity).
  rewrite Harr.
  assert (HL1 : L1 <> []) by (subst L1; discriminate).
  assert (HE1 : E1 <> []) by (subst E1; discriminate).
  assert (HL2 : L2 <> []).
  { subst L2. unfold spliceBeforeLast. destruct L1; [congruence|].
    intros Habs. apply app_eq_nil in Habs. destruct Habs as [_ Habs].
    apply app_eq_nil in Habs. destruct Habs as [_ Habs]. discriminate. }
  assert (HE2 : E2 <> []).
  { subst E2. unfold entriesBeforeLast. destruct E1; [congruence|].
    intros Habs. apply app_eq_nil in Habs. destruct Habs as [_ Habs].
    apply app_eq_nil in Habs. destruct Habs as [_ Habs]. discriminate. }
  rewrite (insertBeforeLast_loop (arrivalLegs r) rp2)
    by (rewrite ?Hl2, ?He2; assumption).
  cbn beta iota. rewrite Hl2, He2.
  unfold size. rewrite Hl2, Hl1. rewrite Hdep.
  f_equal.
  subst rp2 rp1. unfold depState, clearFlightplanProcedureProperties, set_route,
    blockOffset, zlength.
  cbn [route flightplan]. rewrite Hr, Hf.
  reflexivity.
Qed.

End SplicerSpec.

(** ** The outcome of a tracker update *)

Section TrackerOutcome.

Context {C : Collaborators}.

(** A skipping loop ends at its start index or at least two legs before
    the end of the sequence. *)
Lemma skip_loop_bound (r : Route) (cond : Z -> option bool) :
  (forall n b, cond n = Some b -> b = true -> n < size r - 2) ->
  forall (fuel : nat) (n m : Z),
    while_loop fuel cond Z.succ n = Some m ->
    m = n \/ (n < m /\ m <= size r - 2).
Proof.
  intros Hcond. induction fuel as [|fuel IH]; intros n m H; [discriminate|].
  cbn [while_loop] in H.
  destruct (cond n) as [b|] eqn:Hb; [|discriminate]. cbn beta iota in H.
  destruct b.
  - specialize (Hcond n true Hb eq_refl).
    destruct (IH _ _ H) as [-> | [Hlt Hle]]; right; lia.
  - injection H as <-. left. reflexivity.
Qed.

Lemma candidateNextLeg_bound (r : Route) (active : RouteLeg) (n m : Z) :
  candidateNextLeg r active n = Some m ->
  m = n \/ (n < m /\ m <= size r - 2).
Proof.
  unfold candidateNextLeg. destruct (negb _); apply skip_loop_bound.
  - intros k b Hk ->. unfold skipPoints_cond in Hk.
    destruct (at_ r k); [|discriminate]. cbn beta iota in Hk.
    destruct (contains _ _); [|discriminate].
    destruct (getPositionAt r (k - 1)); [|discriminate].
    destruct (getPositionAt r k); [|discriminate]. cbn beta iota in Hk.
    destruct (Pos_eq _ _); [|discriminate].
    injection Hk as Hk. apply Z.ltb_lt in Hk. exact Hk.
  - intros k b Hk ->. unfold skipFixes_cond in Hk.
    destruct (at_ r k); [|discriminate]. cbn beta iota in Hk.
    destruct (contains _ _); [|discriminate].
    injection Hk as Hk. apply Z.ltb_lt in Hk. exact Hk.
Qed.

(** The first half of the update on a route of two legs or more. *)
Lemma updateActiveLegAndPos_init_spec (r : Route) (pos : map.PosCourse) :
  2 <= size r -> 0 <= activeLeg r ->
  exists a1 res1,
    updateActiveLegAndPos_init r pos = Some (set_active r a1 pos res1)
    /\ 1 <= a1 < size r
    /\ legLineDistance r (map.pos pos) a1 = Some res1
    /\ (activeLeg r <> map.INVALID_INDEX_VALUE ->
        1 <= activeLeg r < size r -> a1 = activeLeg r).
Proof.
  intros Hsize Hact. unfold updateActiveLegAndPos_init.
  assert (H0 : exists a0,
             (if activeLeg r =? map.INVALID_INDEX_VALUE
              then '(_, i) <- nearestAllLegIndex r pos ;; Some i
              else Some (activeLeg r)) = Some a0 /\ 0 <= a0
             /\ (activeLeg r <> map.INVALID_INDEX_VALUE -> a0 = activeLeg r)).
  { destruct (Z.eqb_spec (activeLeg r) map.INVALID_INDEX_VALUE) as [E|E].
    - destruct (nearestAllLegIndex_Some r pos) as (d & i & -> & Hi).
      exists i. split; [reflexivity|]. split.
      + destruct Hi as [-> | Hi]; [unfold map.INVALID_INDEX_VALUE|]; lia.
      + intros Hne. congruence.
    - exists (activeLeg r). auto. }
  destruct H0 as (a0 & -> & Ha0 & Hsame). cbn beta iota.
  replace (size r =? 1) with false by (symmetry; apply Z.eqb_neq; lia).
  set (a1 := if a0 >=? size r then size r - 1 else a0).
  set (a2 := if a1 =? 0 then 1 else a1).
  assert (Ha2 : 1 <= a2 < size r
                /\ (activeLeg r <> map.INVALID_INDEX_VALUE ->
                    1 <= activeLeg r < size r -> a2 = activeLeg r)).
  { subst a2 a1. destruct (a0 >=? size r) eqn:E2.
    - rewrite Z.geb_leb in E2. apply Z.leb_le in E2.
      destruct (size r - 1 =? 0) eqn:E3; [apply Z.eqb_eq in E3|]; split;
        try lia; intros Hne Hin; specialize (Hsame Hne); lia.
    - assert (a0 < size r)
        by (rewrite Z.geb_leb in E2; apply Z.leb_gt in E2; lia).
      destruct (a0 =? 0) eqn:E3; [apply Z.eqb_eq in E3|apply Z.eqb_neq in E3];
        split; try lia; intros Hne Hin; specialize (Hsame Hne); lia. }
  destruct Ha2 as [Ha2 Hsame2].
  unfold legLineDistance.
  destruct (getPositionAt_Some r (a2 - 1) ltac:(lia)) as [p1 Hp1].
  destruct (getPositionAt_Some r a2 ltac:(lia)) as [p2 Hp2].
  exists a2, (distanceMeterToLine (map.pos pos) p1 p2).
  rewrite Hp1, Hp2. cbn beta iota. auto.
Qed.

(** The update whole on a route of two legs or more and a valid sample:
    only the three members of the navigation state change; the sample is
    stored; the active leg [a] lies from the start leg [a1] on, inside the
    sequence; the stored result is the one of the sample against the
    segment that ends at [a]; and a move goes to a leg that is not a
    hidden missed approach leg, the next one or one at least two legs
    before the end. *)
Lemma updateActiveLegAndPos_outcome (r : Route) (pos : map.PosCourse) :
  2 <= size r -> PosCourse_isValid pos = true -> 0 <= activeLeg r ->
  exists a1 a res,
    updateActiveLegAndPos r pos = Some (set_active r a pos res)
    /\ 1 <= a1 /\ a1 <= a /\ a < size r
    /\ legLineDistance r (map.pos pos) a = Some res
    /\ (activeLeg r <> map.INVALID_INDEX_VALUE ->
        1 <= activeLeg r < size r -> a1 = activeLeg r)
    /\ (a <> a1 ->
        (a = a1 + 1 \/ a <= size r - 2)
        /\ exists next, at_ r a = Some next /\ trackable r next = true).
Proof.
  intros Hsize Hvalid Hact. unfold updateActiveLegAndPos.
  replace (isEmpty r) with false
    by (symmetry; unfold isEmpty; apply Z.eqb_neq; lia).
  rewrite Hvalid. cbn [negb orb].
  destruct (updateActiveLegAndPos_init_spec r pos Hsize Hact)
    as (a1 & res1 & -> & Ha1 & Hres1 & Hsame).
  cbn beta iota.
  set (r1 := set_active r a1 pos res1).
  assert (Hstay : exists a res,
             Some r1 = Some (set_active r a pos res)
             /\ 1 <= a1 /\ a1 <= a /\ a < size r
             /\ legLineDistance r (map.pos pos) a = Some res
             /\ (activeLeg r <> map.INVALID_INDEX_VALUE ->
                 1 <= activeLeg r < size r -> a1 = activeLeg r)
             /\ (a <> a1 ->
                 (a = a1 + 1 \/ a <= size r - 2)
                 /\ exists next, at_ r a = Some next /\ trackable r next = true)).
  { exists a1, res1. repeat split; try lia; try assumption.
    all: intros Hne; exfalso; apply Hne; reflexivity. }
  change (size r1) with (size r). change (activeLeg r1) with a1.
  destruct (a1 + 1 <? size r) eqn:Enext; [|exists a1; exact Hstay].
  apply Z.ltb_lt in Enext.
  change (at_ r1 a1) with (at_ r a1).
  destruct (at_Some r a1 ltac:(lia)) as [active ->]. cbn beta iota.
  destruct (candidateNextLeg r1 active (a1 + 1)) as [m|] eqn:Hcand.
  2:{ destruct (candidateNextLeg_Some r1 active (a1 + 1)) as (m & Hm & _);
        [change (size r1) with (size r); lia | congruence]. }
  destruct (candidateNextLeg_Some r1 active (a1 + 1)
              ltac:(change (size r1) with (size r); lia)) as (m' & Hm' & Hm).
  rewrite Hcand in Hm'. injection Hm' as <-.
  change (size r1) with (size r) in Hm.
  pose proof (candidateNextLeg_bound r1 active _ _ Hcand) as Hbound.
  change (size r1) with (size r) in Hbound.
  cbn beta iota.
  change (getPositionAt r1) with (getPositionAt r).
  destruct (getPositionAt_Some r (m - 1) ltac:(lia)) as [pos1 Hpos1].
  destruct (getPositionAt_Some r m ltac:(lia)) as [pos2 Hpos2].
  rewrite Hpos1, Hpos2. cbn beta iota.
  change (at_ r1 m) with (at_ r m).
  destruct (at_Some r m ltac:(lia)) as [next Hnext]. rewrite Hnext.
  cbn beta iota.
  destruct (switchToNextLeg _ _ _ _ _ _); [|exists a1; exact Hstay].
  change (shownTypes r1) with (shownTypes r).
  fold (trackable r next).
  destruct (trackable r next) eqn:Htrack; [|exists a1; exact Hstay].
  exists a1, m, (distanceMeterToLine (map.pos pos) pos1 pos2).
  split; [reflexivity|].
  split; [lia|]. split; [lia|]. split; [lia|].
  split; [unfold legLineDistance; rewrite Hpos1, Hpos2; reflexivity|].
  split; [exact Hsame|].
  intros _. split; [lia|]. exists next. auto.
Qed.

End TrackerOutcome.

(** ** The outputs of [getRouteDistances] *)

Lemma fmax_not_below_zero (x : float) : fltb (fmax x fzero) fzero = false.
Proof.
  unfold fmax. destruct (fltb x fzero) eqn:E; [apply fltb_irrefl | exact E].
Qed.

Lemma fabs_not_below_zero (x : float) : fltb (fabs x) fzero = false.
Proof. destruct x as [s|s| |s m e]; reflexivity. Qed.

(** ** [positionAtDistance] reads only legs of the sequence *)

Section PositionSpec.

Context {C : Collaborators}.

Lemma positionAtDistance_Some (r : Route) (d : float) :
  size r <= map.INVALID_INDEX_VALUE ->
  exists p, positionAtDistance r d = Some p.
Proof.
  intros Hmax. unfold positionAtDistance.
  destruct (fltb d fzero || fgtb d (totalDistance r)); [eauto|].
  destruct (for_range_rule (positionAtDistance_body r d)
              (fun _ s => snd s = map.INVALID_INDEX_VALUE)
              (fun s => snd s = map.INVALID_INDEX_VALUE
                        \/ 0 <= snd s < size r - 1)
              0 (size r - 1) (fzero, map.INVALID_INDEX_VALUE))
    as ([total found] & -> & Hfound).
  - reflexivity.
  - intros j [t f] Hj Hf. unfold positionAtDistance_body.
    destruct (at_Some r (j + 1) ltac:(lia)) as [l ->]. cbn beta iota.
    destruct (fgtb _ d); eexists _, _; (split; [reflexivity|]); cbn [snd].
    + right. lia.
    + exact Hf.
  - intros t Ht. left. exact Ht.
  - cbn [snd] in Hfound. cbn beta iota.
    destruct (found <? size r - 1) eqn:E; [|eauto].
    apply Z.ltb_lt in E.
    assert (Hr : 0 <= found < size r - 1) by (destruct Hfound; lia).
    destruct (at_Some r (found + 1) ltac:(lia)) as [l ->]. cbn beta iota.
    destruct (_ >? 2); [eauto|].
    replace (found + 1 - 1) with found by lia.
    destruct (getPositionAt_Some r found ltac:(lia)) as [p1 ->].
    destruct (getPositionAt_Some r (found + 1) ltac:(lia)) as [p2 ->].
    eauto.
Qed.

End PositionSpec.

(** * Further properties of the model *)

Lemma keep_from_none {A : Type} (hit : nat -> bool) (n : nat) (l : list A) :
  forall k, (forall i, hit i = false) -> keep_from hit n k l = l.
Proof.
  induction l as [|x t IH]; intros k Hhit; [reflexivity|].
  cbn [keep_from]. rewrite Hhit, andb_false_r, IH by exact Hhit. reflexivity.
Qed.

Lemma filter_idem {A : Type} (p : A -> bool) (l : list A) :
  filter p (filter p l) = filter p l.
Proof.
  induction l as [|x t IH]; [reflexivity|].
  cbn [filter]. destruct (p x) eqn:E; [|exact IH].
  cbn [filter]. rewrite E, IH. reflexivity.
Qed.

Lemma nth_error_combine {A B : Type} (l1 : list A) :
  forall (l2 : list B) (i : nat) (x : A) (y : B),
  nth_error (combine l1 l2) i = Some (x, y) -> nth_error l1 i = Some x.
Proof.
  induction l1 as [|a t IH]; intros [|b u] [|i] x y H; cbn in *;
    try discriminate.
  - injection H as -> _. reflexivity.
  - eapply IH. exact H.
Qed.

Lemma set_legs_same (r : Route) : set_legs r (legs r) = r.
Proof. destruct r; reflexivity. Qed.

Lemma set_entries_same (f : pln.Flightplan) :
  pln.set_entries f (pln.getEntries f) = f.
Proof. destruct f; reflexivity. Qed.

Section EraseFacts.

Context {C : Collaborators} {M : MoreCollaborators}.

Lemma keptLegs_no_match (type : Z) (ls : list RouteLeg) (l : RouteLeg) :
  In l (keptLegs type ls) -> procedureTypeMatches type l = false.
Proof.
  unfold keptLegs. intros H. apply filter_In in H. destruct H as [_ H].
  apply negb_true_iff in H. exact H.
Qed.

Lemma erasedAt_keptLegs (type : Z) (ls : list RouteLeg) (k : nat) :
  erasedAt type (keptLegs type ls) k = false.
Proof.
  unfold erasedAt.
  destruct (nth_error (keptLegs type ls) k) as [l|] eqn:E; [|reflexivity].
  apply nth_error_In in E. eapply keptLegs_no_match. exact E.
Qed.

(** Legs and entries at the same index go together. *)
Lemma keptEntries_combine (type : Z) (ls : list RouteLeg)
  (es : list pln.FlightplanEntry) :
  length es = length ls ->
  combine (keptLegs type ls) (keptEntries type ls es)
  = filter (fun p => negb (procedureTypeMatches type (fst p))) (combine ls es)
  /\ length (keptEntries type ls es) = length (keptLegs type ls).
Proof.
  intros Hlen.
  assert (Hk : keptLegs type ls
               = keep_from (erasedAt type ls) (length ls) 0 ls).
  { unfold keptLegs. symmetry.
    apply keep_from_filter with (p := procedureTypeMatches type).
    - cbn. lia.
    - intros i x Hx. cbn [Nat.add]. apply erasedAt_nth. exact Hx. }
  split.
  - rewrite Hk. unfold keptEntries. rewrite keep_from_combine.
    apply keep_from_filter
      with (p := fun p : RouteLeg * pln.FlightplanEntry =>
                   procedureTypeMatches type (fst p)).
    + rewrite length_combine. lia.
    + intros i [x y] Hxy. cbn [Nat.add fst]. apply erasedAt_nth.
      eapply nth_error_combine. exact Hxy.
  - rewrite Hk. unfold keptEntries. apply keep_from_length. exact Hlen.
Qed.

End EraseFacts.

(** X6.  [eraseProcedureLegs(type)] returns on every route.  The legs that
    stay are the legs whose procedure type shares no bit with [type], in
    their order, so that no leg that stays matches; the flight plan loses
    the entries at the indexes of the legs that go; nothing else of the
    route and of the flight plan changes.  When the flight plan has as
    many entries as the route has legs, leg and entry of an index stay or
    go together and the two sequences keep the same length. *)
Theorem eraseProcedureLegs_removes_matching_legs
  (M : MoreCollaborators) (type : Z) (rp : RouteWithPlan) :
  exists rp',
    eraseProcedureLegs type rp = Some rp'
    /\ route rp' = set_legs (route rp) (keptLegs type (legs (route rp)))
    /\ (forall l, In l (legs (route rp')) ->
          Z.land type (mapType (getProcedureLeg l)) = 0)
    /\ flightplan rp'
       = pln.set_entries (flightplan rp)
           (keptEntries type (legs (route rp)) (pln.getEntries (flightplan rp)))
    /\ (length (pln.getEntries (flightplan rp)) = length (legs (route rp)) ->
        combine (legs (route rp')) (pln.getEntries (flightplan rp'))
        = filter (fun p => negb (procedureTypeMatches type (fst p)))
            (combine (legs (route rp)) (pln.getEntries (flightplan rp)))
        /\ length (pln.getEntries (flightplan rp')) = length (legs (route rp'))).
Proof.
  destruct (eraseProcedureLegs_Some type rp) as (rp' & Hrun & Hr & Hf).
  exists rp'. split; [exact Hrun|]. split; [exact Hr|]. split; [|split].
  - intros l Hl. rewrite Hr in Hl. cbn [legs set_legs] in Hl.
    apply keptLegs_no_match in Hl. unfold procedureTypeMatches in Hl.
    apply negb_false_iff in Hl. apply Z.eqb_eq in Hl. exact Hl.
  - exact Hf.
  - intros Hlen. rewrite Hr, Hf. cbn [legs set_legs pln.getEntries pln.set_entries].
    apply keptEntries_combine. exact Hlen.
Qed.

(** X7.  Erasing twice is erasing once: on the result of
    [eraseProcedureLegs(type)] a second call with the same [type] removes
    nothing, from the legs and from the flight plan. *)
Theorem eraseProcedureLegs_idempotent
  (M : MoreCollaborators) (type : Z)
  (rp rp' : RouteWithPlan) :
  eraseProcedureLegs type rp = Some rp' ->
  eraseProcedureLegs type rp' = Some rp'.
Proof.
  intros H.
  destruct (eraseProcedureLegs_Some type rp) as (rp1 & Hrun & Hr & _).
  rewrite Hrun in H. injection H as ->.
  destruct (eraseProcedureLegs_Some type rp') as (rp2 & Hrun2 & Hr2 & Hf2).
  rewrite Hrun2. f_equal.
  assert (Hlegs : legs (route rp') = keptLegs type (legs (route rp)))
    by (rewrite Hr; reflexivity).
  assert (Hsame : keptLegs type (legs (route rp')) = legs (route rp')).
  { rewrite Hlegs. unfold keptLegs. apply filter_idem. }
  unfold keptEntries in Hf2. rewrite Hlegs in Hf2.
  rewrite keep_from_none in Hf2 by (intros i; apply erasedAt_keptLegs).
  rewrite Hsame, set_legs_same in Hr2. rewrite set_entries_same in Hf2.
  destruct rp2 as [r2 f2], rp' as [r' f']. cbn [route flightplan] in *.
  congruence.
Qed.

(** X8.  [clearProcedures(type)] returns on every route: the legs that
    stay are as many as the legs that do not match [type], the flight
    plan keeps the entries at their indexes, its properties are the ones
    [ProcedureQuery::clearFlightplanProcedureProperties] leaves, and the
    active leg index, unless it is the sentinel, is put back into the
    bounds of the shorter sequence. *)
Theorem clearProcedures_returns_in_bounds
  (C : Collaborators) (M : MoreCollaborators) (type : Z) (rp : RouteWithPlan) :
  exists rp',
    clearProcedures type rp = Some rp'
    /\ length (legs (route rp')) = length (keptLegs type (legs (route rp)))
    /\ pln.getEntries (flightplan rp')
       = keptEntries type (legs (route rp)) (pln.getEntries (flightplan rp))
    /\ pln.getProperties (flightplan rp')
       = ProcedureQuery_clearFlightplanProcedureProperties
           (pln.getProperties (flightplan rp)) type
    /\ activeLeg (route rp')
       = boundedActiveLeg (activeLeg (route rp))
           (Z.of_nat (length (keptLegs type (legs (route rp))))).
Proof.
  unfold clearProcedures.
  set (rp0 := clearFlightplanProcedureProperties type _).
  destruct (eraseProcedureLegs_Some type rp0) as (rp1 & Hrun & Hr & Hf).
  rewrite Hrun. cbn beta iota.
  destruct (updateAll_Some (route rp1)) as (r2 & Hup & Hsize & Hact).
  rewrite Hup. cbn beta iota.
  eexists. split; [reflexivity|].
  cbn [route flightplan set_route].
  assert (Hlegs : legs (route rp1) = keptLegs type (legs (route rp)))
    by (rewrite Hr; reflexivity).
  split; [|split; [|split]].
  - unfold size in Hsize. rewrite Hlegs in Hsize. lia.
  - rewrite Hf. reflexivity.
  - rewrite Hf. reflexivity.
  - rewrite Hact. unfold boundedActiveLeg, size. rewrite Hlegs, Hr. reflexivity.
Qed.

Lemma firstIndex_firstWith (p : RouteLeg -> bool) (ls : list RouteLeg) :
  forall i,
  (firstIndex p i ls = map.INVALID_INDEX_VALUE
   /\ forall l, In l ls -> p l = false)
  \/ (exists n l,
        firstIndex p i ls = i + Z.of_nat n /\ nth_error ls n = Some l
        /\ p l = true
        /\ forall j l', (j < n)%nat -> nth_error ls j = Some l' -> p l' = false).
Proof.
  induction ls as [|x t IH]; intros i.
  - left. split; [reflexivity|]. intros l [].
  - cbn [firstIndex]. destruct (p x) eqn:Ex.
    + right. exists 0%nat, x.
      repeat split; try lia; try assumption; intros j l' Hj; lia.
    + destruct (IH (i + 1)) as [[Hk Hall] | (n & l & Hk & Hn & Hp & Hbefore)].
      * left. split; [exact Hk|]. intros l [<- | Hl]; auto.
      * right. exists (S n), l. repeat split; try assumption; [lia|].
        intros [|j] l' Hj Hl'; cbn in Hl'.
        -- injection Hl' as <-. exact Ex.
        -- apply (Hbefore j l'); [lia | exact Hl'].
Qed.

Lemma indexFrom_nth (ls : list RouteLeg) :
  forall (k : Z) (n : nat) (l : RouteLeg),
  nth_error (indexFrom k ls) n = Some l ->
  getFlightplanEntryIndex l = k + Z.of_nat n.
Proof.
  induction ls as [|x t IH]; intros k [|n] l H; cbn in H; try discriminate.
  - injection H as <-. cbn. lia.
  - rewrite (IH _ _ _ H). lia.
Qed.

(** X9.  [updateIndicesAndOffsets] on a sequence whose size is an [int]:
    every leg carries its position in the sequence as its flight plan
    entry index and is otherwise unchanged; each of the three offsets is
    the index of the first leg with the flag of its block (any departure,
    any STAR, arrival) or the sentinel when no leg has the flag. *)
Theorem updateIndicesAndOffsets_indexes_and_offsets
  (r : Route) :
  size r <= map.INVALID_INDEX_VALUE ->
  exists r',
    updateIndicesAndOffsets r = Some r'
    /\ legs r' = indexFrom 0 (legs r)
    /\ (forall i l, at_ r' i = Some l -> getFlightplanEntryIndex l = i)
    /\ firstWith legIsAnyDeparture (legs r) (departureLegsOffset r')
    /\ firstWith legIsAnyStar (legs r) (starLegsOffset r')
    /\ firstWith legIsArrival (legs r) (arrivalLegsOffset r').
Proof.
  intros Hmax. rewrite (updateIndicesAndOffsets_spec r Hmax).
  eexists. split; [reflexivity|].
  cbn [legs set_offsets set_legs departureLegsOffset starLegsOffset
       arrivalLegsOffset].
  split; [reflexivity|]. split.
  - intros i l Hl. apply at_Some_inv in Hl. destruct Hl as [Hi Hl].
    cbn [legs set_offsets set_legs] in Hl.
    apply indexFrom_nth in Hl. lia.
  - repeat split.
    + destruct (firstIndex_firstWith legIsAnyDeparture (legs r) 0)
        as [H | (n & l & H)]; [left; exact H | right; exists n, l; exact H].
    + destruct (firstIndex_firstWith legIsAnyStar (legs r) 0)
        as [H | (n & l & H)]; [left; exact H | right; exists n, l; exact H].
    + destruct (firstIndex_firstWith legIsArrival (legs r) 0)
        as [H | (n & l & H)]; [left; exact H | right; exists n, l; exact H].
Qed.

(** ** The sizes of the spliced sequences *)

Lemma removelast_length_nonempty {A : Type} (l : list A) (d : A) :
  l <> [] -> length l = S (length (removelast l)).
Proof.
  intros H. rewrite (app_removelast_last d H) at 1.
  rewrite length_app. cbn [length]. lia.
Qed.

Section SplicerSizes.

Context {M : MoreCollaborators}.

Lemma procedureChain_length (block : proc.MapProcedureLegs) prev :
  length (procedureChain block prev) = length block.
Proof. unfold procedureChain. apply chain_length. Qed.

Lemma spliceAfterFirst_length (block : proc.MapProcedureLegs) (ls : list RouteLeg) :
  ls <> [] ->
  length (spliceAfterFirst block ls) = (length ls + length block)%nat.
Proof.
  destruct ls as [|b0 rest]; [congruence|]. intros _.
  cbn [spliceAfterFirst length]. rewrite length_app, procedureChain_length. lia.
Qed.

Lemma spliceBeforeLast_length (block : proc.MapProcedureLegs) (ls : list RouteLeg) :
  ls <> [] ->
  length (spliceBeforeLast block ls) = (length ls + length block)%nat.
Proof.
  destruct ls as [|x t] eqn:E; [congruence|]. intros Hne.
  unfold spliceBeforeLast.
  rewrite !length_app, procedureChain_length. cbn [length].
  pose proof (removelast_length_nonempty (x :: t) x Hne) as H.
  cbn [length] in H. lia.
Qed.

Lemma entriesAfterFirst_length (block : proc.MapProcedureLegs)
  (es : list pln.FlightplanEntry) :
  es <> [] ->
  length (entriesAfterFirst block es) = (length es + length block)%nat.
Proof.
  destruct es as [|e0 rest]; [congruence|]. intros _.
  cbn [entriesAfterFirst length]. rewrite length_app, length_map. lia.
Qed.

Lemma entriesBeforeLast_length (block : proc.MapProcedureLegs)
  (es : list pln.FlightplanEntry) :
  es <> [] ->
  length (entriesBeforeLast block es) = (length es + length block)%nat.
Proof.
  destruct es as [|x t] eqn:E; [congruence|]. intros Hne.
  unfold entriesBeforeLast.
  rewrite !length_app, length_map. cbn [length].
  pose proof (removelast_length_nonempty (x :: t) x Hne) as H.
  cbn [length] in H. lia.
Qed.

End SplicerSizes.


(** X11.  [updateProcedureLegs] keeps route and flight plan in step: on a
    route whose flight plan has as many entries as the route has legs and
    that keeps a leg when its procedure legs are erased, the call
    returns; the sequence then has the kept legs and one leg for every
    leg of the three blocks, the flight plan has as many entries, the
    departure block starts at index 1, the STAR block where the last leg
    was after the departure legs were put in, and the arrival block where
    the last leg was after the STAR legs were put in. *)
Theorem updateProcedureLegs_sizes
  (M : MoreCollaborators) (rp : RouteWithPlan) :
  length (pln.getEntries (flightplan rp)) = length (legs (route rp)) ->
  keptLegs PROCEDURE_ALL (legs (route rp)) <> [] ->
  let r := route rp in
  let kept := length (keptLegs PROCEDURE_ALL (legs r)) in
  let nd := length (departureLegs r) in
  let ns := length (starLegs r) in
  let na := length (arrivalLegs r) in
  exists rp',
    updateProcedureLegs rp = Some rp'
    /\ length (legs (route rp')) = (kept + nd + ns + na)%nat
    /\ length (pln.getEntries (flightplan rp')) = length (legs (route rp'))
    /\ departureLegsOffset (route rp') = blockOffset (departureLegs r) 1
    /\ starLegsOffset (route rp')
       = blockOffset (starLegs r) (Z.of_nat (kept + nd) - 1)
    /\ arrivalLegsOffset (route rp')
       = blockOffset (arrivalLegs r) (Z.of_nat (kept + nd + ns) - 1).
Proof.
  intros Hlen Hne. cbv zeta.
  destruct (keptEntries_combine PROCEDURE_ALL (legs (route rp))
              (pln.getEntries (flightplan rp)) Hlen) as [_ Hklen].
  destruct (keptLegs PROCEDURE_ALL (legs (route rp))) as [|b0 rest] eqn:Hb;
    [congruence|].
  destruct (keptEntries PROCEDURE_ALL (legs (route rp))
              (pln.getEntries (flightplan rp)))
    as [|e0 erest] eqn:He; [discriminate|].
  rewrite (updateProcedureLegs_spec rp b0 rest e0 erest Hb He).
  eexists. split; [reflexivity|].
  cbn [route flightplan legs set_offsets set_legs pln.getEntries
       departureLegsOffset starLegsOffset arrivalLegsOffset].
  set (r := route rp).
  set (L1 := spliceAfterFirst (departureLegs r) (b0 :: rest)).
  set (L2 := spliceBeforeLast (starLegs r) L1).
  set (E1 := entriesAfterFirst (departureLegs r) (e0 :: erest)).
  set (E2 := entriesBeforeLast (starLegs r) E1).
  assert (HL1 : length L1 = (length (b0 :: rest) + length (departureLegs r))%nat)
    by (subst L1; apply spliceAfterFirst_length; discriminate).
  assert (HE1 : length E1 = (length (b0 :: rest) + length (departureLegs r))%nat).
  { subst E1. rewrite entriesAfterFirst_length by discriminate.
    rewrite Hklen. reflexivity. }
  cbn [length] in HL1, HE1.
  assert (HL1ne : L1 <> []) by (intros Habs; rewrite Habs in HL1; discriminate).
  assert (HE1ne : E1 <> []) by (intros Habs; rewrite Habs in HE1; discriminate).
  assert (HL2 : length L2 = (length L1 + length (starLegs r))%nat)
    by (subst L2; apply spliceBeforeLast_length; exact HL1ne).
  assert (HE2 : length E2 = (length E1 + length (starLegs r))%nat)
    by (subst E2; apply entriesBeforeLast_length; exact HE1ne).
  assert (HL2ne : L2 <> [])
    by (intros Habs; rewrite Habs, HL1 in HL2; discriminate).
  assert (HE2ne : E2 <> [])
    by (intros Habs; rewrite Habs, HE1 in HE2; discriminate).
  rewrite spliceBeforeLast_length by exact HL2ne.
  rewrite entriesBeforeLast_length by exact HE2ne.
  unfold zlength. rewrite HL2, HE2, HL1, HE1. cbn [length].
  repeat split; reflexivity.
Qed.

(** X12.  A tracker update on a route of two legs or more, with a valid
    sample and an active leg index that is not negative: the call
    returns; only [activeLeg], [activePos] and [activeLegResult] change;
    the sample is stored; the active leg index lies in [[1, size - 1]];
    and [activeLegResult] is the line distance of the sample to the
    segment from the leg before the active leg to the active leg. *)
Theorem updateActiveLegAndPos_stores_consistent_state
  (C : Collaborators) (r : Route) (pos : map.PosCourse) :
  2 <= size r -> PosCourse_isValid pos = true -> 0 <= activeLeg r ->
  exists a res,
    updateActiveLegAndPos r pos = Some (set_active r a pos res)
    /\ 1 <= a < size r
    /\ legLineDistance r (map.pos pos) a = Some res.
Proof.
  intros Hsize Hvalid Hact.
  destruct (updateActiveLegAndPos_outcome r pos Hsize Hvalid Hact)
    as (a1 & a & res & Hrun & H1 & H2 & H3 & Hres & _).
  exists a, res. repeat split; try assumption; lia.
Qed.

(** X13.  The tracker never moves back.  With an active leg inside
    [[1, size - 1]] and a valid sample, the new active leg index is the
    old one or a larger one; when it moves, it moves to a leg that is not
    a missed approach leg hidden on the map, and that is the next leg or
    a leg at least two before the end of the sequence; on the last leg
    it stays. *)
Theorem updateActiveLegAndPos_never_moves_back
  (C : Collaborators) (r : Route) (pos : map.PosCourse) :
  PosCourse_isValid pos = true ->
  activeLeg r <> map.INVALID_INDEX_VALUE ->
  1 <= activeLeg r < size r ->
  exists r2,
    updateActiveLegAndPos r pos = Some r2
    /\ activeLeg r <= activeLeg r2 < size r
    /\ (activeLeg r2 <> activeLeg r ->
        (activeLeg r2 = activeLeg r + 1 \/ activeLeg r2 <= size r - 2)
        /\ exists next,
             at_ r (activeLeg r2) = Some next /\ trackable r next = true)
    /\ (activeLeg r = size r - 1 -> activeLeg r2 = activeLeg r).
Proof.
  intros Hvalid Hne Hin.
  destruct (updateActiveLegAndPos_outcome r pos ltac:(lia) Hvalid ltac:(lia))
    as (a1 & a & res & Hrun & H1 & H2 & H3 & _ & Hsame & Hmove).
  specialize (Hsame Hne Hin). subst a1.
  exists (set_active r a pos res). split; [exact Hrun|].
  cbn [activeLeg set_active]. split; [lia|]. split; [exact Hmove | lia].
Qed.

(** X14.  After a tracker update on a route of two legs or more (its size
    an [int]) with a valid sample, the reporter has an active leg to
    report on: [getActiveLeg] gives a leg of the sequence and
    [getRouteDistances] returns true. *)
Theorem updateActiveLegAndPos_then_getRouteDistances
  (C : Collaborators) (r : Route) (pos : map.PosCourse) (out : RouteDistances) :
  2 <= size r -> size r <= map.INVALID_INDEX_VALUE ->
  PosCourse_isValid pos = true -> 0 <= activeLeg r ->
  exists r2 l out',
    updateActiveLegAndPos r pos = Some r2
    /\ getActiveLeg r2 = Some (Some l)
    /\ at_ r (activeLeg r2) = Some l
    /\ getRouteDistances r2 out = Some (true, out').
Proof.
  intros Hsize Hmax Hvalid Hact.
  destruct (updateActiveLegAndPos_outcome r pos Hsize Hvalid Hact)
    as (a1 & a & res & Hrun & H1 & H2 & H3 & _).
  set (r2 := set_active r a pos res).
  assert (Hne : activeLeg r2 <> map.INVALID_INDEX_VALUE)
    by (subst r2; cbn [activeLeg set_active]; lia).
  assert (Hin : 0 <= activeLeg r2 < size r2)
    by (subst r2; cbn [activeLeg set_active]; change (size (set_active r a pos res)) with (size r); lia).
  destruct (at_Some r2 (activeLeg r2) Hin) as [l Hl].
  destruct (getRouteDistances_active r2 out Hne Hin) as [out' Hout].
  exists r2, l, out'. split; [exact Hrun|]. split; [|split].
  - unfold getActiveLeg.
    replace (activeLeg r2 =? map.INVALID_INDEX_VALUE) with false
      by (symmetry; apply Z.eqb_neq; exact Hne).
    cbn [negb]. rewrite Hl. reflexivity.
  - exact Hl.
  - exact Hout.
Qed.

(** X15.  The output parameters of [getRouteDistances]: a null pointer
    stays null and a pointer that is not null stays so; when the function
    returns false nothing is written; when it returns true the values
    written to [distFromStart] and [distToDest] never compare below
    zero. *)
Theorem getRouteDistances_outputs_kept_and_not_negative
  (C : Collaborators) (r : Route) (out out' : RouteDistances) (b : bool) :
  getRouteDistances r out = Some (b, out') ->
  isNull (distFromStart out') = isNull (distFromStart out)
  /\ isNull (distToDest out') = isNull (distToDest out)
  /\ isNull (nextLegDistance out') = isNull (nextLegDistance out)
  /\ isNull (crossTrackDistance out') = isNull (crossTrackDistance out)
  /\ (b = true ->
      pointsTo (fun v => fltb v fzero = false) (distFromStart out')
      /\ pointsTo (fun v => fltb v fzero = false) (distToDest out'))
  /\ (b = false -> out' = out).
Proof.
  intros H. unfold getRouteDistances in H.
  destruct (activeLeg r =? map.INVALID_INDEX_VALUE).
  { injection H as <- <-. repeat split; discriminate. }
  destruct (at_ r (activeLeg r)) as [active|]; [|discriminate].
  cbn [negb] in H. cbn beta iota in H.
  destruct (at_ r _) as [current|]; [|discriminate]. cbn beta iota in H.
  match type of H with
  | context [ (' dtc <- ?c ;; _) ] => destruct c as [dtc|]; [|discriminate]
  end.
  cbn beta iota in H.
  destruct (for_range 0 _ _ fzero) as [fs|]; [|discriminate].
  cbn beta iota zeta in H.
  set (geometryLeg := if isAnyProcedure active && _ then _ else _) in H.
  clearbody geometryLeg.
  destruct out as [a1 a2 a3 a4].
  cbn [distFromStart distToDest nextLegDistance crossTrackDistance] in *.
  destruct geometryLeg as [g|];
    destruct a1 as [v1|], a2 as [v2|], a3 as [v3|], a4 as [v4|];
    repeat match type of H with
           | context [ if geo.status_eqb ?a ?b then _ else _ ] =>
               destruct (geo.status_eqb a b)
           end;
    cbn [distFromStart distToDest nextLegDistance crossTrackDistance
         set_crossTrackDistance set_nextLegDistance set_distFromStart
         set_distToDest store] in H;
    repeat match type of H with
           | context [ if negb ?a then _ else _ ] => destruct a; cbn [negb] in H
           end;
    repeat match type of H with
           | context [ for_range ?a ?b ?c ?d ] =>
               destruct (for_range a b c d); [|discriminate]
           end;
    cbn beta iota in H;
    injection H as <- <-;
    cbn [distFromStart distToDest nextLegDistance crossTrackDistance
         set_crossTrackDistance set_nextLegDistance set_distFromStart
         set_distToDest store isNull pointsTo];
    repeat split; try discriminate;
    auto using fmax_not_below_zero, fabs_not_below_zero.
Qed.

Lemma at_None (r : Route) (i : Z) : ~ (0 <= i < size r) -> at_ r i = None.
Proof.
  intros H. unfold at_.
  destruct ((0 <=? i) && (i <? size r)) eqn:E; [|reflexivity].
  apply andb_true_iff in E. destruct E as [E1 E2].
  apply Z.leb_le in E1. apply Z.ltb_lt in E2. exfalso. apply H. lia.
Qed.

(** X16.  [setActiveLeg] needs a route of two legs: on a shorter route it
    reads a leg outside the sequence, whatever the value, and on a route
    of two legs or more it returns for every value. *)
Theorem setActiveLeg_aborts_iff_fewer_than_two_legs
  (C : Collaborators) (r : Route) (value : Z) :
  setActiveLeg r value = None <-> size r < 2.
Proof.
  unfold setActiveLeg. split.
  - intros H. destruct (Z.lt_ge_cases (size r) 2) as [Hlt|Hge]; [exact Hlt|].
    exfalso.
    set (a := if (value >? 0) && (value <? size r) then value else 1) in H.
    assert (Ha : 1 <= a < size r).
    { subst a. destruct ((value >? 0) && (value <? size r)) eqn:E; [|lia].
      apply andb_true_iff in E. destruct E as [E1 E2].
      apply Z.gtb_lt in E1. apply Z.ltb_lt in E2. lia. }
    destruct (at_Some r (a - 1) ltac:(lia)) as [l1 Hl1].
    destruct (at_Some r a ltac:(lia)) as [l2 Hl2].
    rewrite Hl1, Hl2 in H. discriminate.
  - intros Hlt.
    replace ((value >? 0) && (value <? size r)) with false.
    2:{ symmetry. apply andb_false_iff.
        destruct (Z.gtb_spec value 0) as [Hv|Hv]; [right|left; reflexivity].
        apply Z.ltb_ge. lia. }
    destruct (at_ r (1 - 1)) as [l1|] eqn:E1; [|reflexivity].
    apply at_Some_inv in E1. rewrite (at_None r 1) by lia. reflexivity.
Qed.

(** X17.  [getActiveLegCorrected] gives the leg that [getActiveLeg]
    gives: the null pointer, with [*corrected] untouched, when there is
    no active leg, and otherwise the active leg with [*corrected] set to
    false; it aborts exactly when [getActiveLeg] does. *)
Theorem getActiveLegCorrected_is_getActiveLeg
  (r : Route) (corrected : option bool) :
  getActiveLegCorrected r corrected
  = (leg <- getActiveLeg r ;;
     Some (leg, match leg with
                | Some _ => store corrected false
                | None => corrected
                end)).
Proof.
  unfold getActiveLegCorrected, getActiveLegIndexCorrected, getActiveLeg.
  destruct (activeLeg r =? map.INVALID_INDEX_VALUE) eqn:E.
  - cbn. reflexivity.
  - cbn [negb].
    assert (Hguard :
      (if activeLeg r + 1 <? size r
       then if activeLeg r + 1 =? size r
            then l <- at_ r (activeLeg r + 1) ;; Some (isAnyProcedure l)
            else Some false
       else Some false) = Some false).
    { destruct (activeLeg r + 1 <? size r) eqn:E1; [|reflexivity].
      destruct (activeLeg r + 1 =? size r) eqn:E2; [|reflexivity].
      apply Z.ltb_lt in E1. apply Z.eqb_eq in E2. lia. }
    cbv zeta. rewrite Hguard. cbn beta iota. rewrite E. cbn [negb].
    destruct (at_ r (activeLeg r)); reflexivity.
Qed.

(** X18.  [positionAtDistance] returns for every distance on every route
    (its size an [int]): it reads no leg outside the sequence. *)
Theorem positionAtDistance_returns
  (C : Collaborators) (r : Route) (distFromStartNm : float) :
  size r <= map.INVALID_INDEX_VALUE ->
  exists p, positionAtDistance r distFromStartNm = Some p.
Proof. apply positionAtDistance_Some. Qed.

(** X19.  The three top of descent functions return on every route (its
    size an [int]).  On the empty route they give 0, 0 and the empty
    position.  On a route with a leg the distance from the start is the
    total distance less the distance from the destination, and the
    position is [positionAtDistance] of the distance from the start. *)
Theorem getTopOfDescent_returns
  (C : Collaborators) (M : MoreCollaborators) (rp : RouteWithPlan) :
  size (route rp) <= map.INVALID_INDEX_VALUE ->
  exists dd ds p,
    getTopOfDescentFromDestination rp = Some dd
    /\ getTopOfDescentFromStart rp = Some ds
    /\ getTopOfDescent rp = Some p
    /\ (legs (route rp) = [] -> dd = fzero /\ ds = fzero /\ p = EMPTY_POS)
    /\ (legs (route rp) <> [] ->
        ds = fsub (totalDistance (route rp)) dd
        /\ positionAtDistance (route rp) ds = Some p).
Proof.
  intros Hmax.
  unfold getTopOfDescent, getTopOfDescentFromStart,
    getTopOfDescentFromDestination, isEmpty, last_.
  destruct (Z.eqb_spec (size (route rp)) 0) as [E|E]; cbn [negb].
  - exists fzero, fzero, EMPTY_POS.
    split; [reflexivity|]. split; [reflexivity|]. split; [reflexivity|].
    split; [intros _; repeat split|].
    intros Hne. exfalso. apply Hne. unfold size in E.
    destruct (legs (route rp)); [reflexivity | cbn in E; lia].
  - assert (Hpos : 0 < size (route rp)) by (unfold size in *; lia).
    destruct (at_Some (route rp) (size (route rp) - 1) ltac:(lia)) as [l Hl].
    rewrite Hl. cbn beta iota.
    match goal with
    | |- context [ positionAtDistance ?r ?d ] =>
        destruct (positionAtDistance_Some r d Hmax) as [p Hp]
    end.
    eexists _, _, p. split; [reflexivity|]. split; [reflexivity|].
    split; [exact Hp|]. split.
    + intros Hnil. exfalso. apply E. unfold size. rewrite Hnil. reflexivity.
    + intros _. split; [reflexivity | exact Hp].
Qed.

(** ** User waypoint numbers *)

Section UserWaypoints.

Context {C : Collaborators} {M : MoreCollaborators}.

Lemma getNextUserWaypointNumber_fold (es : list pln.FlightplanEntry) :
  forall acc,
  let n := fold_left getNextUserWaypointNumber_body es acc in
  acc <= n
  /\ (forall e, In e es -> pln.getWaypointType e = pln.USER ->
        userWaypointNumber (pln.getWaypointId e) <= n)
  /\ ((forall e, In e es -> pln.getWaypointType e <> pln.USER) -> n = acc).
Proof.
  induction es as [|x t IH]; intros acc; cbn [fold_left].
  - repeat split; try lia. intros e [].
  - destruct (IH (getNextUserWaypointNumber_body acc x)) as (Hle & Hall & Hnone).
    assert (Hstep : acc <= getNextUserWaypointNumber_body acc x).
    { unfold getNextUserWaypointNumber_body.
      destruct (pln.type_eqb _ _); lia. }
    split; [lia|]. split.
    + intros e [<- | He] Hu; [|apply Hall; assumption].
      assert (userWaypointNumber (pln.getWaypointId x)
              <= getNextUserWaypointNumber_body acc x).
      { unfold getNextUserWaypointNumber_body. rewrite Hu. cbn. lia. }
      lia.
    + intros Hno. rewrite Hnone by (intros e He; apply Hno; right; exact He).
      unfold getNextUserWaypointNumber_body.
      destruct (pln.getWaypointType x) eqn:Ex; try reflexivity.
      exfalso. apply (Hno x); [left; reflexivity | exact Ex].
Qed.

(** The running maximum stays below a bound of the start value and of the
    numbers of the user waypoints. *)
Lemma getNextUserWaypointNumber_fold_le (es : list pln.FlightplanEntry) :
  forall acc b,
  acc <= b ->
  (forall e, In e es -> pln.getWaypointType e = pln.USER ->
     userWaypointNumber (pln.getWaypointId e) <= b) ->
  fold_left getNextUserWaypointNumber_body es acc <= b.
Proof.
  induction es as [|x t IH]; intros acc b Hacc Hall; cbn [fold_left];
    [exact Hacc|].
  apply IH.
  - unfold getNextUserWaypointNumber_body.
    destruct (pln.getWaypointType x) eqn:Ex; cbn; try exact Hacc.
    specialize (Hall x (or_introl eq_refl) Ex). lia.
  - intros e He. apply Hall. right. exact He.
Qed.

End UserWaypoints.

(** X20.  [getNextUserWaypointNumber] gives a fresh number when the
    number of every user waypoint of the flight plan is below the largest
    [int]: it is at least 1, it is larger than the number of every user
    waypoint of the flight plan, and it is 1 when the flight plan has no
    user waypoint. *)
Theorem getNextUserWaypointNumber_is_fresh
  (M : MoreCollaborators) (rp : RouteWithPlan) :
  (forall e, In e (pln.getEntries (flightplan rp)) ->
     pln.getWaypointType e = pln.USER ->
     userWaypointNumber (pln.getWaypointId e) < INT_MAX) ->
  1 <= getNextUserWaypointNumber rp
  /\ (forall e, In e (pln.getEntries (flightplan rp)) ->
        pln.getWaypointType e = pln.USER ->
        userWaypointNumber (pln.getWaypointId e) < getNextUserWaypointNumber rp)
  /\ ((forall e, In e (pln.getEntries (flightplan rp)) ->
         pln.getWaypointType e <> pln.USER) ->
      getNextUserWaypointNumber rp = 1).
Proof.
  intros Hbound. unfold getNextUserWaypointNumber.
  destruct (getNextUserWaypointNumber_fold (pln.getEntries (flightplan rp)) 0)
    as (Hle & Hall & Hnone).
  pose proof (getNextUserWaypointNumber_fold_le
                (pln.getEntries (flightplan rp)) 0 (INT_MAX - 1)) as Hmax.
  cbv zeta in *.
  assert (Hn : fold_left getNextUserWaypointNumber_body
                 (pln.getEntries (flightplan rp)) 0 <= INT_MAX - 1).
  { apply Hmax; [unfold INT_MAX; lia|].
    intros e He Hu. specialize (Hbound e He Hu). lia. }
  rewrite int_add_id by (unfold INT_MIN, INT_MAX in *; lia).
  split; [lia|]. split.
  - intros e He Hu. specialize (Hall e He Hu). lia.
  - intros Hno. rewrite (Hnone Hno). reflexivity.
Qed.

(** X21.  The departure tests.  A helipad needs a start position, a start
    position or a parking needs a valid departure, and a valid departure
    needs a flight plan with an entry and a route with a leg;
    [hasValidDeparture] reads the first leg of an empty sequence exactly
    when the flight plan starts with an airport and the route has no leg;
    and a flight plan with more than two entries can be calculated. *)
Theorem departure_tests_are_nested
  (M : MoreCollaborators) (rp : RouteWithPlan) :
  (hasDepartureHelipad rp = Some true -> hasDepartureStart rp = Some true)
  /\ (hasDepartureStart rp = Some true -> hasValidDeparture rp = Some true)
  /\ (hasDepartureParking rp = Some true -> hasValidDeparture rp = Some true)
  /\ (hasValidDeparture rp = Some true ->
      isFlightplanEmpty rp = false /\ legs (route rp) <> [])
  /\ (hasValidDeparture rp = None <->
      (exists e rest,
         pln.getEntries (flightplan rp) = e :: rest
         /\ pln.getWaypointType e = pln.AIRPORT)
      /\ legs (route rp) = [])
  /\ (hasEntries rp = true -> canCalcRoute rp = true).
Proof.
  split; [|split; [|split; [|split; [|split]]]].
  - unfold hasDepartureHelipad.
    destruct (hasDepartureStart rp) as [[|]|]; cbn; congruence.
  - unfold hasDepartureStart.
    destruct (hasValidDeparture rp) as [[|]|]; cbn; congruence.
  - unfold hasDepartureParking.
    destruct (hasValidDeparture rp) as [[|]|]; cbn; congruence.
  - unfold hasValidDeparture, isFlightplanEmpty, pln.isEmpty, and_then, first,
      list_at, at_, size, zlength.
    destruct (pln.getEntries (flightplan rp)) as [|e rest]; cbn;
      [discriminate|].
    destruct (pln.type_eqb (pln.getWaypointType e) pln.AIRPORT);
      [|discriminate].
    destruct (legs (route rp)) as [|l t]; cbn; [discriminate|].
    intros _. split; [reflexivity | discriminate].
  - unfold hasValidDeparture, pln.isEmpty, and_then, first,
      list_at, at_, size, zlength.
    destruct (pln.getEntries (flightplan rp)) as [|e rest]; cbn.
    + split; [discriminate|]. intros [(e & rest & H & _) _]. discriminate.
    + destruct (pln.getWaypointType e) eqn:Et; cbn;
        try (split; [discriminate|];
             intros [(e' & rest' & H & Ha) _]; injection H as <- _;
             congruence).
      destruct (legs (route rp)) as [|l t]; cbn.
      * split; [|reflexivity]. intros _. split; [|reflexivity].
        exists e, rest. auto.
      * split; [discriminate|]. intros [_ H]. discriminate.
  - unfold hasEntries, canCalcRoute. intros H.
    apply Z.gtb_lt in H. apply Z.geb_le. lia.
Qed.

(** ** Copies *)

Lemma nth_error_list_set_eq {A : Type} (l : list A) :
  forall (n : nat) (x : A),
  (n < length l)%nat -> nth_error (list_set l n x) n = Some x.
Proof.
  induction l as [|h t IH]; intros [|n] x H; cbn in *; try lia.
  - reflexivity.
  - apply IH. lia.
Qed.

Lemma nth_error_list_set_neq {A : Type} (l : list A) :
  forall (n m : nat) (x : A),
  m <> n -> nth_error (list_set l n x) m = nth_error l m.
Proof.
  induction l as [|h t IH]; intros [|n] [|m] x H; cbn; try reflexivity;
    try congruence.
  apply IH. congruence.
Qed.

(** X22.  [copy] between two different route objects: the object copied
    to gets the legs of the other one, each bound to the flight plan of
    the object copied to, and every other member and the flight plan of
    the other one; no other object changes. *)
Theorem copy_between_different_objects
  (M : MoreCollaborators) (h : Heap) (this other : nat)
  (t o : RouteWithPlan) :
  this <> other ->
  nth_error h this = Some t ->
  nth_error h other = Some o ->
  exists h',
    copy h this other = Some h'
    /\ nth_error h' this
       = Some {| route :=
                   set_legs (route o)
                     (List.map (setFlightplan this) (legs (route o)));
                 flightplan := flightplan o |}
    /\ (forall a, a <> this -> nth_error h' a = nth_error h a).
Proof.
  intros Hne Ht Ho. unfold copy. rewrite Ht. cbn beta iota zeta.
  assert (Hlen : (this < length h)%nat) by (apply nth_error_Some; congruence).
  rewrite nth_error_list_set_neq by congruence. rewrite Ho. cbn beta iota zeta.
  rewrite !nth_error_list_set_neq by congruence. rewrite Ho. cbn beta iota zeta.
  eexists. split; [reflexivity|]. split.
  - rewrite nth_error_list_set_eq by (rewrite !list_set_length; exact Hlen).
    reflexivity.
  - intros a Ha. rewrite !nth_error_list_set_neq by exact Ha. reflexivity.
Qed.

(** X23.  [copy] of a route object to itself, as in the assignment
    [r = r], loses the legs: [clear()] empties the sequence before
    [append(other)] reads it.  Every other member and the flight plan
    stay, and no other object changes. *)
Theorem copy_to_itself_loses_the_legs
  (M : MoreCollaborators) (h : Heap) (this : nat)
  (t : RouteWithPlan) :
  nth_error h this = Some t ->
  exists h',
    assign h this this = Some h'
    /\ nth_error h' this
       = Some {| route := set_legs (route t) []; flightplan := flightplan t |}
    /\ (forall a, a <> this -> nth_error h' a = nth_error h a).
Proof.
  intros Ht. unfold assign, copy. rewrite Ht. cbn beta iota zeta.
  assert (Hlen : (this < length h)%nat) by (apply nth_error_Some; congruence).
  rewrite nth_error_list_set_eq by exact Hlen. cbn beta iota zeta.
  rewrite nth_error_list_set_eq by (rewrite !list_set_length; exact Hlen).
  cbn beta iota zeta.
  eexists. split; [reflexivity|]. split.
  - rewrite nth_error_list_set_eq by (rewrite !list_set_length; exact Hlen).
    destruct t as [r f]; destruct r; reflexivity.
  - intros a Ha. rewrite !nth_error_list_set_neq by exact Ha. reflexivity.
Qed.

(** X24.  After [resetActive] every query reports that there is no
    navigation state: [getActiveLeg] gives the null pointer,
    [getActiveLegIndexCorrected] the sentinel with [*corrected]
    untouched, [isActiveMissed] false, [getRouteDistances] false with no
    output written, and [isPassedLastLeg] false on a sequence whose size
    is an [int]. *)
Theorem resetActive_queries
  (C : Collaborators) (r : Route) (out : RouteDistances)
  (corrected : option bool) :
  getActiveLeg (resetActive r) = Some None
  /\ getActiveLegIndexCorrected (resetActive r) corrected
     = Some (map.INVALID_INDEX_VALUE, corrected)
  /\ isActiveMissed (resetActive r) = Some false
  /\ getRouteDistances (resetActive r) out = Some (false, out)
  /\ (size r <= map.INVALID_INDEX_VALUE ->
      isPassedLastLeg (resetActive r) = Some false).
Proof.
  split; [reflexivity|]. split; [reflexivity|]. split; [reflexivity|].
  split; [reflexivity|].
  intros Hmax. unfold isPassedLastLeg.
  change (size (resetActive r)) with (size r).
  change (activeLeg (resetActive r)) with map.INVALID_INDEX_VALUE.
  replace (map.INVALID_INDEX_VALUE >=? size r - 1) with true
    by (symmetry; apply Z.geb_le; lia).
  reflexivity.
Qed.

(** ** Erasing what the splicer put in *)

Section SplicerRoundTrip.

Context {M : MoreCollaborators}.

Lemma keptEntries_keepBy_from (type : Z) (ls : list RouteLeg) :
  forall (pre : list RouteLeg) (es : list pln.FlightplanEntry),
  keep_from (erasedAt type (pre ++ ls)) (length (pre ++ ls)) (length pre) es
  = keepBy type ls es.
Proof.
  induction ls as [|l t IH]; intros pre es.
  - rewrite app_nil_r. rewrite keep_from_done by lia.
    destruct es; reflexivity.
  - destruct es as [|e es']; [reflexivity|].
    cbn [keep_from keepBy].
    replace (length pre <? length (pre ++ l :: t))%nat with true
      by (symmetry; apply Nat.ltb_lt; rewrite length_app; cbn [length]; lia).
    cbn [andb].
    rewrite (erasedAt_nth type (pre ++ l :: t) (length pre) l)
      by (rewrite nth_error_app2 by lia; rewrite Nat.sub_diag; reflexivity).
    specialize (IH (pre ++ [l]) es').
    assert (E1 : (pre ++ [l]) ++ t = pre ++ l :: t)
      by (rewrite <- app_assoc; reflexivity).
    assert (E2 : length (pre ++ [l]) = S (length pre))
      by (rewrite length_app; cbn [length]; lia).
    rewrite E1, E2 in IH. rewrite IH.
    destruct (procedureTypeMatches type l); reflexivity.
Qed.

Lemma keptEntries_keepBy (type : Z) (ls : list RouteLeg)
  (es : list pln.FlightplanEntry) :
  keptEntries type ls es = keepBy type ls es.
Proof. exact (keptEntries_keepBy_from type ls [] es). Qed.

Lemma keepBy_app (type : Z) (a : list RouteLeg) :
  forall (ea : list pln.FlightplanEntry) b eb,
  length a = length ea ->
  keepBy type (a ++ b) (ea ++ eb) = keepBy type a ea ++ keepBy type b eb.
Proof.
  induction a as [|l t IH]; intros [|e ea] b eb Hlen; cbn in Hlen;
    try discriminate.
  - reflexivity.
  - cbn [app keepBy]. rewrite IH by lia.
    destruct (procedureTypeMatches type l); reflexivity.
Qed.

Lemma keepBy_all (type : Z) (a : list RouteLeg) :
  forall ea : list pln.FlightplanEntry,
  (forall l, In l a -> procedureTypeMatches type l = true) ->
  length a = length ea ->
  keepBy type a ea = [].
Proof.
  induction a as [|l t IH]; intros [|e ea] Hall Hlen; cbn in Hlen;
    try discriminate; [reflexivity|].
  cbn [keepBy]. rewrite (Hall l) by (left; reflexivity).
  apply IH; [|lia]. intros x Hx. apply Hall. right. exact Hx.
Qed.

Lemma keepBy_none (type : Z) (a : list RouteLeg) :
  forall ea : list pln.FlightplanEntry,
  (forall l, In l a -> procedureTypeMatches type l = false) ->
  keepBy type a ea = ea.
Proof.
  induction a as [|l t IH]; intros [|e ea] Hnone; try reflexivity.
  cbn [keepBy]. rewrite (Hnone l) by (left; reflexivity).
  rewrite IH; [reflexivity|]. intros x Hx. apply Hnone. right. exact Hx.
Qed.

Lemma keptLegs_all (type : Z) (a : list RouteLeg) :
  (forall l, In l a -> procedureTypeMatches type l = true) ->
  keptLegs type a = [].
Proof.
  induction a as [|l t IH]; intros Hall; [reflexivity|].
  unfold keptLegs in *. cbn [filter].
  rewrite (Hall l) by (left; reflexivity). cbn [negb].
  apply IH. intros x Hx. apply Hall. right. exact Hx.
Qed.

(** Legs that match, put in the middle with as many entries, go again
    when the legs that match are erased. *)
Lemma erase_inserted (type : Z) (a mid b : list RouteLeg)
  (ea emid eb : list pln.FlightplanEntry) :
  length a = length ea ->
  length mid = length emid ->
  (forall l, In l mid -> procedureTypeMatches type l = true) ->
  keptLegs type (a ++ mid ++ b) = keptLegs type (a ++ b)
  /\ keepBy type (a ++ mid ++ b) (ea ++ emid ++ eb)
     = keepBy type (a ++ b) (ea ++ eb).
Proof.
  intros Ha Hmid Hall. split.
  - unfold keptLegs. rewrite !filter_app.
    fold (keptLegs type mid). rewrite (keptLegs_all type mid Hall).
    reflexivity.
  - rewrite !keepBy_app by assumption.
    rewrite (keepBy_all type mid emid Hall Hmid). reflexivity.
Qed.

Lemma chain_all_match (mk : Z -> option RouteLeg -> RouteLeg) (n : nat) :
  forall i0 prev,
  (forall i p, i0 <= i < i0 + Z.of_nat n ->
     procedureTypeMatches PROCEDURE_ALL (mk i p) = true) ->
  forall l, In l (chain mk i0 prev n) ->
  procedureTypeMatches PROCEDURE_ALL l = true.
Proof.
  induction n as [|n IH]; intros i0 prev Hmk l Hl; [destruct Hl|].
  cbn [chain] in Hl. destruct Hl as [<- | Hl].
  - apply Hmk. lia.
  - apply (IH (i0 + 1) _) with (l := l) in Hl; [exact Hl|].
    intros i p Hi. apply Hmk. lia.
Qed.

Lemma procedureChain_all_match (block : proc.MapProcedureLegs) prev :
  createsProcedureLegs block ->
  forall l, In l (procedureChain block prev) ->
  procedureTypeMatches PROCEDURE_ALL l = true.
Proof.
  intros Hc. unfold procedureChain. apply chain_all_match.
  intros i p Hi. apply Hc. unfold zlength. lia.
Qed.

Lemma erase_spliceAfterFirst (block : proc.MapProcedureLegs)
  (ls : list RouteLeg) (es : list pln.FlightplanEntry) :
  createsProcedureLegs block ->
  ls <> [] -> length ls = length es ->
  keptLegs PROCEDURE_ALL (spliceAfterFirst block ls) = keptLegs PROCEDURE_ALL ls
  /\ keepBy PROCEDURE_ALL (spliceAfterFirst block ls) (entriesAfterFirst block es)
     = keepBy PROCEDURE_ALL ls es.
Proof.
  intros Hc Hne Hlen.
  destruct ls as [|b0 rest]; [congruence|].
  destruct es as [|e0 erest]; [discriminate|].
  unfold spliceAfterFirst, entriesAfterFirst.
  apply (erase_inserted PROCEDURE_ALL [b0] (procedureChain block (Some b0)) rest
           [e0] (List.map buildFlightplanEntry block) erest).
  - reflexivity.
  - rewrite procedureChain_length, length_map. reflexivity.
  - apply procedureChain_all_match. exact Hc.
Qed.

Lemma erase_spliceBeforeLast (block : proc.MapProcedureLegs)
  (ls : list RouteLeg) (es : list pln.FlightplanEntry) :
  createsProcedureLegs block ->
  ls <> [] -> length ls = length es ->
  keptLegs PROCEDURE_ALL (spliceBeforeLast block ls) = keptLegs PROCEDURE_ALL ls
  /\ keepBy PROCEDURE_ALL (spliceBeforeLast block ls) (entriesBeforeLast block es)
     = keepBy PROCEDURE_ALL ls es.
Proof.
  intros Hc Hne Hlen.
  destruct ls as [|x t] eqn:El; [congruence|].
  destruct es as [|y u] eqn:Ee; [discriminate|].
  unfold spliceBeforeLast, entriesBeforeLast.
  assert (Hes : y :: u <> []) by discriminate.
  pose proof (app_removelast_last x Hne) as Hl.
  pose proof (app_removelast_last y Hes) as He.
  assert (Hrl : length (removelast (x :: t)) = length (removelast (y :: u))).
  { pose proof (removelast_length_nonempty (x :: t) x Hne).
    pose proof (removelast_length_nonempty (y :: u) y Hes). lia. }
  remember (removelast (x :: t)) as init eqn:Hinit.
  remember (last (x :: t) x) as lst eqn:Hlst.
  remember (removelast (y :: u)) as einit eqn:Heinit.
  remember (last (y :: u) y) as elast eqn:Helast.
  rewrite Hl, He.
  apply erase_inserted.
  - exact Hrl.
  - rewrite procedureChain_length, length_map. reflexivity.
  - apply procedureChain_all_match. exact Hc.
Qed.

(** On the result of [updateProcedureLegs] the legs and the entries that
    [eraseProcedureLegs(PROCEDURE_ALL)] keeps are those it kept before. *)
Lemma updateProcedureLegs_erase_back (rp : RouteWithPlan)
  (b0 : RouteLeg) (rest : list RouteLeg)
  (e0 : pln.FlightplanEntry) (erest : list pln.FlightplanEntry) :
  createsProcedureLegs (departureLegs (route rp)) ->
  createsProcedureLegs (starLegs (route rp)) ->
  createsProcedureLegs (arrivalLegs (route rp)) ->
  length (b0 :: rest) = length (e0 :: erest) ->
  keptLegs PROCEDURE_ALL (legs (route rp)) = b0 :: rest ->
  let r := route rp in
  let L1 := spliceAfterFirst (departureLegs r) (b0 :: rest) in
  let L2 := spliceBeforeLast (starLegs r) L1 in
  let L3 := spliceBeforeLast (arrivalLegs r) L2 in
  let E1 := entriesAfterFirst (departureLegs r) (e0 :: erest) in
  let E2 := entriesBeforeLast (starLegs r) E1 in
  let E3 := entriesBeforeLast (arrivalLegs r) E2 in
  keptLegs PROCEDURE_ALL L3 = b0 :: rest
  /\ keptEntries PROCEDURE_ALL L3 E3 = e0 :: erest.
Proof.
  intros Hd Hs Ha Hlen Hb r L1 L2 L3 E1 E2 E3.
  assert (Hbase : forall l, In l (b0 :: rest) ->
                    procedureTypeMatches PROCEDURE_ALL l = false).
  { intros l Hl. rewrite <- Hb in Hl. eapply keptLegs_no_match. exact Hl. }
  assert (H0 : keptLegs PROCEDURE_ALL (b0 :: rest) = b0 :: rest).
  { rewrite <- Hb. unfold keptLegs. apply filter_idem. }
  destruct (erase_spliceAfterFirst (departureLegs r) (b0 :: rest) (e0 :: erest)
              Hd ltac:(discriminate) Hlen) as [Hk1 He1].
  fold L1 in Hk1, He1. fold E1 in He1.
  assert (HL1 : length L1 = length E1).
  { subst L1 E1. rewrite spliceAfterFirst_length, entriesAfterFirst_length
      by discriminate. lia. }
  assert (HL1ne : L1 <> []) by (subst L1; discriminate).
  destruct (erase_spliceBeforeLast (starLegs r) L1 E1 Hs HL1ne HL1)
    as [Hk2 He2].
  fold L2 in Hk2, He2. fold E2 in He2.
  assert (HE1ne : E1 <> []) by (subst E1; discriminate).
  assert (HL2 : length L2 = length E2).
  { subst L2 E2. rewrite spliceBeforeLast_length, entriesBeforeLast_length
      by assumption. lia. }
  assert (HL2ne : L2 <> []).
  { intros Habs. pose proof (spliceBeforeLast_length (starLegs r) L1 HL1ne) as H.
    fold L2 in H. rewrite Habs in H. destruct L1; [congruence|]. cbn in H. lia. }
  destruct (erase_spliceBeforeLast (arrivalLegs r) L2 E2 Ha HL2ne HL2)
    as [Hk3 He3].
  fold L3 in Hk3, He3. fold E3 in He3.
  split.
  - rewrite Hk3, Hk2, Hk1. exact H0.
  - rewrite keptEntries_keepBy, He3, He2, He1.
    apply keepBy_none. exact Hbase.
Qed.

End SplicerRoundTrip.

(** X25.  Erasing undoes the splicing.  On a route whose flight plan has
    as many entries as the route has legs, that keeps a leg when its
    procedure legs are erased, and whose three blocks give legs that
    [eraseProcedureLegs(PROCEDURE_ALL)] recognises as procedure legs:
    [updateProcedureLegs] and then [eraseProcedureLegs(PROCEDURE_ALL)]
    both return, and leave the legs and the flight plan entries that
    [eraseProcedureLegs(PROCEDURE_ALL)] leaves on the route itself. *)
Theorem updateProcedureLegs_then_erase_restores
  (M : MoreCollaborators) (rp : RouteWithPlan) :
  createsProcedureLegs (departureLegs (route rp)) ->
  createsProcedureLegs (starLegs (route rp)) ->
  createsProcedureLegs (arrivalLegs (route rp)) ->
  length (pln.getEntries (flightplan rp)) = length (legs (route rp)) ->
  keptLegs PROCEDURE_ALL (legs (route rp)) <> [] ->
  exists rp' rp'',
    updateProcedureLegs rp = Some rp'
    /\ eraseProcedureLegs PROCEDURE_ALL rp' = Some rp''
    /\ legs (route rp'') = keptLegs PROCEDURE_ALL (legs (route rp))
    /\ pln.getEntries (flightplan rp'')
       = keptEntries PROCEDURE_ALL (legs (route rp))
           (pln.getEntries (flightplan rp)).
Proof.
  intros Hd Hs Ha Hlen Hne.
  destruct (keptEntries_combine PROCEDURE_ALL (legs (route rp))
              (pln.getEntries (flightplan rp)) Hlen) as [_ Hklen].
  destruct (keptLegs PROCEDURE_ALL (legs (route rp))) as [|b0 rest] eqn:Hb;
    [congruence|].
  destruct (keptEntries PROCEDURE_ALL (legs (route rp))
              (pln.getEntries (flightplan rp)))
    as [|e0 erest] eqn:He; [discriminate|].
  pose proof (updateProcedureLegs_spec rp b0 rest e0 erest Hb He) as Hrun.
  cbv zeta in Hrun.
  destruct (updateProcedureLegs_erase_back rp b0 rest e0 erest Hd Hs Ha
              (eq_sym Hklen) Hb) as [Hkl Hke].
  eexists. 
  match type of Hrun with
  | _ = Some ?x =>
      destruct (eraseProcedureLegs_Some PROCEDURE_ALL x) as (rp'' & Hrun2 & Hr & Hf)
  end.
  exists rp''. split; [exact Hrun|]. split; [exact Hrun2|].
  rewrite Hr, Hf.
  cbn [route flightplan legs set_legs set_offsets pln.getEntries pln.set_entries].
  split; [exact Hkl | exact Hke].
Qed.

(** X26.  Splicing twice is splicing once, on the legs: under the
    conditions of X25 a second call of [updateProcedureLegs] returns and
    leaves every member of the route (legs, offsets, blocks) and the
    flight plan entries as the first call left them. *)
Theorem updateProcedureLegs_twice
  (M : MoreCollaborators) (rp : RouteWithPlan) :
  createsProcedureLegs (departureLegs (route rp)) ->
  createsProcedureLegs (starLegs (route rp)) ->
  createsProcedureLegs (arrivalLegs (route rp)) ->
  length (pln.getEntries (flightplan rp)) = length (legs (route rp)) ->
  keptLegs PROCEDURE_ALL (legs (route rp)) <> [] ->
  exists rp' rp'',
    updateProcedureLegs rp = Some rp'
    /\ updateProcedureLegs rp' = Some rp''
    /\ route rp'' = route rp'
    /\ pln.getEntries (flightplan rp'') = pln.getEntries (flightplan rp').
Proof.
  intros Hd Hs Ha Hlen Hne.
  destruct (keptEntries_combine PROCEDURE_ALL (legs (route rp))
              (pln.getEntries (flightplan rp)) Hlen) as [_ Hklen].
  destruct (keptLegs PROCEDURE_ALL (legs (route rp))) as [|b0 rest] eqn:Hb;
    [congruence|].
  destruct (keptEntries PROCEDURE_ALL (legs (route rp))
              (pln.getEntries (flightplan rp)))
    as [|e0 erest] eqn:He; [discriminate|].
  pose proof (updateProcedureLegs_spec rp b0 rest e0 erest Hb He) as Hrun.
  cbv zeta in Hrun.
  destruct (updateProcedureLegs_erase_back rp b0 rest e0 erest Hd Hs Ha
              (eq_sym Hklen) Hb) as [Hkl Hke].
  match type of Hrun with
  | _ = Some ?x =>
      pose proof (updateProcedureLegs_spec x b0 rest e0 erest Hkl Hke) as Hrun2
  end.
  cbv zeta in Hrun2.
  eexists _, _. split; [exact Hrun|]. split; [exact Hrun2|].
  split; reflexivity.
Qed.

(** * Runs of the further properties *)

Section SplicerRuns.

#[local] Existing Instance planar.
#[local] Existing Instance planarMore.

(** The route A, D, B, C loses the departure leg D and its flight plan the
    entry of D; a second call changes nothing. *)
Lemma eraseProcedureLegs_idempotent_witness :
  length (legs (route PlanExamples.rpSid)) = 4%nat
  /\ length (legs (route PlanExamples.rpSid_erased)) = 3%nat
  /\ List.map pln.getWaypointId
       (pln.getEntries (flightplan PlanExamples.rpSid_erased))
     = ["A"; "WP3"; "C"]%string
  /\ eraseProcedureLegs PlanarMore.ALL PlanExamples.rpSid_erased
     = Some PlanExamples.rpSid_erased.
Proof.
  split; [reflexivity|]. split; [reflexivity|]. split; [reflexivity|].
  apply (eraseProcedureLegs_idempotent planarMore PlanarMore.ALL
           PlanExamples.rpSid PlanExamples.rpSid_erased).
  vm_compute. reflexivity.
Defined.

(** The route A, B, S1, S2, C before its first update. *)
Lemma updateIndicesAndOffsets_indexes_and_offsets_witness :
  exists r',
    updateIndicesAndOffsets Examples.routeStar = Some r'
    /\ legs r' = indexFrom 0 (legs Examples.routeStar)
    /\ (forall i l, at_ r' i = Some l -> getFlightplanEntryIndex l = i)
    /\ firstWith legIsAnyDeparture (legs Examples.routeStar)
         (departureLegsOffset r')
    /\ firstWith legIsAnyStar (legs Examples.routeStar) (starLegsOffset r')
    /\ firstWith legIsArrival (legs Examples.routeStar) (arrivalLegsOffset r').
Proof.
  apply (updateIndicesAndOffsets_indexes_and_offsets Examples.routeStar).
  vm_compute. discriminate.
Defined.


Lemma updateProcedureLegs_sizes_witness :
  exists rp',
    updateProcedureLegs PlanExamples.rpFull = Some rp'
    /\ length (legs (route rp')) = 7%nat
    /\ length (pln.getEntries (flightplan rp')) = length (legs (route rp'))
    /\ departureLegsOffset (route rp') = 1
    /\ starLegsOffset (route rp') = 3
    /\ arrivalLegsOffset (route rp') = 5.
Proof.
  destruct (updateProcedureLegs_sizes planarMore PlanExamples.rpFull)
    as (rp' & Hrun & Hlegs & Hentries & Hdep & Hstar & Harr).
  - reflexivity.
  - vm_compute. discriminate.
  - exists rp'. repeat split; assumption.
Defined.

(** The route A, B, C after [updateAll] and a sample on the way from A to
    B. *)
Lemma updateActiveLegAndPos_stores_consistent_state_witness :
  exists a res,
    updateActiveLegAndPos Examples.routeABC_updated (Examples.sample 14816 0 90)
    = Some (set_active Examples.routeABC_updated a
              (Examples.sample 14816 0 90) res)
    /\ 1 <= a < size Examples.routeABC_updated
    /\ legLineDistance Examples.routeABC_updated
         (map.pos (Examples.sample 14816 0 90)) a = Some res.
Proof.
  apply (updateActiveLegAndPos_stores_consistent_state planar
           Examples.routeABC_updated (Examples.sample 14816 0 90)).
  - vm_compute. discriminate.
  - reflexivity.
  - vm_compute. discriminate.
Defined.

(** The route A, B, C with the leg 1 active and a sample past B. *)
Lemma updateActiveLegAndPos_never_moves_back_witness :
  exists r2,
    updateActiveLegAndPos Examples.routeABC_tracked (Examples.sample 18520 11 0)
    = Some r2
    /\ activeLeg Examples.routeABC_tracked <= activeLeg r2
       < size Examples.routeABC_tracked
    /\ (activeLeg r2 <> activeLeg Examples.routeABC_tracked ->
        (activeLeg r2 = activeLeg Examples.routeABC_tracked + 1
         \/ activeLeg r2 <= size Examples.routeABC_tracked - 2)
        /\ exists next,
             at_ Examples.routeABC_tracked (activeLeg r2) = Some next
             /\ trackable Examples.routeABC_tracked next = true)
    /\ (activeLeg Examples.routeABC_tracked = size Examples.routeABC_tracked - 1 ->
        activeLeg r2 = activeLeg Examples.routeABC_tracked).
Proof.
  apply (updateActiveLegAndPos_never_moves_back planar
           Examples.routeABC_tracked (Examples.sample 18520 11 0)).
  - reflexivity.
  - vm_compute. discriminate.
  - split; vm_compute; [discriminate | reflexivity].
Defined.

Lemma updateActiveLegAndPos_then_getRouteDistances_witness :
  exists r2 l out',
    updateActiveLegAndPos Examples.routeABC_updated (Examples.sample 14816 0 90)
    = Some r2
    /\ getActiveLeg r2 = Some (Some l)
    /\ at_ Examples.routeABC_updated (activeLeg r2) = Some l
    /\ getRouteDistances r2 PlanExamples.twoOutputs = Some (true, out').
Proof.
  apply (updateActiveLegAndPos_then_getRouteDistances planar
           Examples.routeABC_updated (Examples.sample 14816 0 90)
           PlanExamples.twoOutputs).
  - vm_compute. discriminate.
  - vm_compute. discriminate.
  - reflexivity.
  - vm_compute. discriminate.
Defined.

(** The route A, B, C with the leg 1 active, eight nautical miles from A:
    the two outputs given are written, the two null pointers stay null. *)
Lemma getRouteDistances_outputs_kept_and_not_negative_witness :
  exists out',
    getRouteDistances Examples.routeABC_tracked PlanExamples.twoOutputs
    = Some (true, out')
    /\ isNull (distFromStart out') = false
    /\ isNull (distToDest out') = false
    /\ isNull (nextLegDistance out') = true
    /\ isNull (crossTrackDistance out') = true
    /\ pointsTo (fun v => fltb v fzero = false) (distFromStart out')
    /\ pointsTo (fun v => fltb v fzero = false) (distToDest out').
Proof.
  eexists. split; [vm_compute; reflexivity|].
  edestruct (getRouteDistances_outputs_kept_and_not_negative planar
               Examples.routeABC_tracked PlanExamples.twoOutputs)
    as (H1 & H2 & H3 & H4 & Hpos & _).
  - vm_compute. reflexivity.
  - destruct (Hpos eq_refl) as [Hs Hd].
    split; [exact H1|]. split; [exact H2|]. split; [exact H3|].
    split; [exact H4|]. split; [exact Hs | exact Hd].
Defined.

(** The route A, B of ten nautical miles and the distance 5. *)
Lemma positionAtDistance_returns_witness :
  exists p,
    positionAtDistance Examples.routeAB_updated (f32_of_Z 5) = Some p.
Proof.
  apply (positionAtDistance_returns planar Examples.routeAB_updated (f32_of_Z 5)).
  vm_compute. discriminate.
Defined.

Lemma getTopOfDescent_returns_witness :
  exists dd ds p,
    getTopOfDescentFromDestination PlanExamples.rpAB = Some dd
    /\ getTopOfDescentFromStart PlanExamples.rpAB = Some ds
    /\ getTopOfDescent PlanExamples.rpAB = Some p
    /\ (legs (route PlanExamples.rpAB) = [] ->
        dd = fzero /\ ds = fzero /\ p = EMPTY_POS)
    /\ (legs (route PlanExamples.rpAB) <> [] ->
        ds = fsub (totalDistance (route PlanExamples.rpAB)) dd
        /\ positionAtDistance (route PlanExamples.rpAB) ds = Some p).
Proof.
  apply (getTopOfDescent_returns planar planarMore PlanExamples.rpAB).
  vm_compute. discriminate.
Defined.

(** Two route objects: the first gets the legs and the members of the
    second. *)
Lemma copy_between_different_objects_witness :
  exists h',
    copy PlanExamples.heap 0 1 = Some h'
    /\ nth_error h' 0%nat
       = Some {| route :=
                   set_legs (route PlanExamples.rpFull)
                     (List.map (setFlightplan 0%nat)
                        (legs (route PlanExamples.rpFull)));
                 flightplan := flightplan PlanExamples.rpFull |}
    /\ (forall a, a <> 0%nat -> nth_error h' a = nth_error PlanExamples.heap a).
Proof.
  apply (copy_between_different_objects planarMore PlanExamples.heap 0 1
           PlanExamples.rpSid PlanExamples.rpFull).
  - discriminate.
  - reflexivity.
  - reflexivity.
Defined.

(** The first route object assigned to itself: its four legs are lost. *)
Lemma copy_to_itself_loses_the_legs_witness :
  length (legs (route PlanExamples.rpSid)) = 4%nat
  /\ exists h',
       assign PlanExamples.heap 0 0 = Some h'
       /\ nth_error h' 0%nat
          = Some {| route := set_legs (route PlanExamples.rpSid) [];
                    flightplan := flightplan PlanExamples.rpSid |}
       /\ (forall a, a <> 0%nat -> nth_error h' a = nth_error PlanExamples.heap a).
Proof.
  split; [reflexivity|].
  apply (copy_to_itself_loses_the_legs planarMore PlanExamples.heap 0
           PlanExamples.rpSid).
  reflexivity.
Defined.

(** The blocks of the route A, B, C give procedure legs. *)
Lemma rpFull_createsProcedureLegs :
  createsProcedureLegs (departureLegs (route PlanExamples.rpFull))
  /\ createsProcedureLegs (starLegs (route PlanExamples.rpFull))
  /\ createsProcedureLegs (arrivalLegs (route PlanExamples.rpFull)).
Proof.
  repeat split; intros i prev Hi.
  - change (zlength (departureLegs (route PlanExamples.rpFull))) with 1 in Hi.
    assert (i = 0) as -> by lia. reflexivity.
  - change (zlength (starLegs (route PlanExamples.rpFull))) with 2 in Hi.
    assert (i = 0 \/ i = 1) as [-> | ->] by lia; reflexivity.
  - change (zlength (arrivalLegs (route PlanExamples.rpFull))) with 1 in Hi.
    assert (i = 0) as -> by lia. reflexivity.
Qed.

(** The route A, B, C with its blocks: after the splicing and the erasing
    the legs are A, B, C again and the entries A, WP7, C. *)
Lemma updateProcedureLegs_then_erase_restores_witness :
  exists rp' rp'',
    updateProcedureLegs PlanExamples.rpFull = Some rp'
    /\ eraseProcedureLegs PROCEDURE_ALL rp' = Some rp''
    /\ legs (route rp'') = legs (route PlanExamples.rpFull)
    /\ pln.getEntries (flightplan rp'')
       = pln.getEntries (flightplan PlanExamples.rpFull).
Proof.
  destruct rpFull_createsProcedureLegs as (Hd & Hs & Ha).
  destruct (updateProcedureLegs_then_erase_restores planarMore
              PlanExamples.rpFull Hd Hs Ha)
    as (rp' & rp'' & Hrun & Hrun2 & Hl & He).
  - reflexivity.
  - vm_compute. discriminate.
  - exists rp', rp''. repeat split; assumption.
Defined.

Lemma updateProcedureLegs_twice_witness :
  exists rp' rp'',
    updateProcedureLegs PlanExamples.rpFull = Some rp'
    /\ updateProcedureLegs rp' = Some rp''
    /\ route rp'' = route rp'
    /\ pln.getEntries (flightplan rp'') = pln.getEntries (flightplan rp').
Proof.
  destruct rpFull_createsProcedureLegs as (Hd & Hs & Ha).
  apply (updateProcedureLegs_twice planarMore PlanExamples.rpFull Hd Hs Ha).
  - reflexivity.
  - vm_compute. discriminate.
Defined.

(** The flight plan of the route A, D, B, C, with the user waypoint WP3. *)
Lemma getNextUserWaypointNumber_is_fresh_witness :
  getNextUserWaypointNumber PlanExamples.rpSid = 4
  /\ 1 <= getNextUserWaypointNumber PlanExamples.rpSid
  /\ (forall e, In e (pln.getEntries (flightplan PlanExamples.rpSid)) ->
        pln.getWaypointType e = pln.USER ->
        userWaypointNumber (pln.getWaypointId e)
        < getNextUserWaypointNumber PlanExamples.rpSid)
  /\ ((forall e, In e (pln.getEntries (flightplan PlanExamples.rpSid)) ->
         pln.getWaypointType e <> pln.USER) ->
      getNextUserWaypointNumber PlanExamples.rpSid = 1).
Proof.
  split; [reflexivity|].
  apply (getNextUserWaypointNumber_is_fresh planarMore PlanExamples.rpSid).
  intros e He _.
  destruct He as [<- | [<- | [<- | [<- | []]]]]; vm_compute; reflexivity.
Defined.

(** A user waypoint with the largest [int] as its number: the next number
    wraps around. *)
Example getNextUserWaypointNumber_largest_int :
  getNextUserWaypointNumber
    {| route := Examples.routeA;
       flightplan := PlanExamples.planOf [PlanExamples.userEntry "WP2147483647"] |}
  = INT_MIN.
Proof. reflexivity. Qed.

End SplicerRuns.
